(** * F1 pipeline: the incremental processing engine

    A shallow embedding of [src/incremental_processing.py] (class
    [IncrementalProcessor]) together with the parts of [src/config.py] it
    reads, and the properties of the planner, the merge step, the state
    store and the runner.

    Python values are modelled as they occur in the code: a partition key
    is whatever [Series.to_list()] hands back (an [int], [None] or a
    [str]), sets are [gset], the processing state is a [gmap] from table
    names to records, exceptions are values of [exn] threaded through a
    state-and-error monad over the processor's world (in-memory state,
    bronze and silver stores, state file, log, clock).

    The polars operations the processor calls are modelled on untyped
    frames ([Frame]), the table transforms of [src/transformation.py] are
    functions supplied by the environment, and the state file is the
    sequence of JSON tokens written to it. *)

From Stdlib Require Import ZArith List Sorted Permutation.
From stdpp Require Import base gmap sets list strings sorting.

Local Open Scope Z_scope.
Local Open Scope string_scope.
Local Open Scope list_scope.

(** ** Python values held in a frame cell *)

Inductive cell :=
| CNull
| CInt (z : Z)
| CStr (s : string).

Global Instance cell_eq_dec : EqDecision cell.
Proof. solve_decision. Defined.

Definition cell_to_sum (c : cell) : option (Z + string) :=
  match c with
  | CNull => None
  | CInt z => Some (inl z)
  | CStr s => Some (inr s)
  end.

Definition cell_of_sum (o : option (Z + string)) : cell :=
  match o with
  | None => CNull
  | Some (inl z) => CInt z
  | Some (inr s) => CStr s
  end.

Global Instance cell_countable : Countable cell.
Proof.
  refine (inj_countable' cell_to_sum cell_of_sum _).
  intros [| |]; reflexivity.
Defined.

(** ** Exceptions and results *)

Inductive exn :=
| FileNotFoundError (path : string)
| TypeError
| ColumnNotFoundError (col : string)
| DuplicateError (col : string)
| ShapeError
| ComputeError (msg : string)
| ValueError (msg : string)
| OSError (path : string)
| JSONDecodeError.

Inductive result (A : Type) :=
| Ok (a : A)
| Raise (e : exn).
Arguments Ok {A} a.
Arguments Raise {A} e.


Global Instance result_bind : MBind result := fun _ _ k r =>
  match r with
  | Ok a => k a
  | Raise e => Raise e
  end.

(** ** Comparisons and [sorted] *)

Module Py.

(** [a < b] on Python values: defined between two ints and between two
    strings, a [TypeError] otherwise ([None] is not ordered, not even
    with itself). *)
Definition lt (a b : cell) : result bool :=
  match a, b with
  | CInt x, CInt y => Ok (x <? y)%Z
  | CStr x, CStr y => Ok (String.ltb x y)
  | _, _ => Raise TypeError
  end.

(** [a <= b]. *)
Definition le (a b : cell) : result bool :=
  match a, b with
  | CInt x, CInt y => Ok (x <=? y)%Z
  | CStr x, CStr y => Ok (String.leb x y)
  | _, _ => Raise TypeError
  end.

(** Stable insertion using [<] only, as [list.sort] does: [x] goes in
    front of the first element that is not smaller than it. *)
Fixpoint insert (x : cell) (l : list cell) : result (list cell) :=
  match l with
  | [] => Ok [x]
  | y :: l' =>
      b ← lt y x;
      if b : bool then r ← insert x l'; Ok (y :: r)
      else Ok (x :: y :: l')
  end.

(** [sorted(l)].  A list of at most one element is returned without any
    comparison; otherwise every element takes part in a comparison and
    mixed kinds raise. *)
Fixpoint sorted (l : list cell) : result (list cell) :=
  match l with
  | [] => Ok []
  | x :: l' => r ← sorted l'; insert x r
  end.

(** [min(l)] and [max(l)] on a non-empty list. *)
Fixpoint min_from (m : cell) (l : list cell) : result cell :=
  match l with
  | [] => Ok m
  | x :: l' => b ← lt x m; min_from (if b : bool then x else m) l'
  end.

Fixpoint max_from (m : cell) (l : list cell) : result cell :=
  match l with
  | [] => Ok m
  | x :: l' => b ← lt m x; max_from (if b : bool then x else m) l'
  end.

Definition min (l : list cell) : result cell :=
  match l with
  | [] => Raise (ValueError "min() arg is an empty sequence")
  | x :: l' => min_from x l'
  end.

Definition max (l : list cell) : result cell :=
  match l with
  | [] => Raise (ValueError "max() arg is an empty sequence")
  | x :: l' => max_from x l'
  end.

(** [sorted] on a list of strings (column names). *)
Definition sorted_str (l : list string) : list string :=
  merge_sort String.le l.

End Py.

(** ** Frames

    A [polars.DataFrame] as a list of named columns.  Frames are untyped
    here: a column has a name and its cells, and the dtype checks of the
    library are outside the model.  The incremental processor reads only
    column names, the [raceId] and [year] cells and the height. *)

Record Series := { name : string; values : list cell }.

Abbreviation DataFrame := (list Series).

Module Frame.

(** [df.columns] *)
Definition columns (df : DataFrame) : list string := map name df.

(** [len(df)] *)
Definition height (df : DataFrame) : nat :=
  match df with
  | [] => 0%nat
  | s :: _ => length (values s)
  end.

Fixpoint find_column (c : string) (df : DataFrame) : option Series :=
  match df with
  | [] => None
  | s :: df' => if bool_decide (name s = c) then Some s else find_column c df'
  end.

(** [df[c]] *)
Definition column (c : string) (df : DataFrame) : result Series :=
  match find_column c df with
  | Some s => Ok s
  | None => Raise (ColumnNotFoundError c)
  end.

(** [df.select(cs)] for a list of column names. *)
Fixpoint select (cs : list string) (df : DataFrame) : result DataFrame :=
  match cs with
  | [] => Ok []
  | c :: cs' => s ← column c df; r ← select cs' df; Ok (s :: r)
  end.

(** [s.unique().to_list()]: the distinct cells, null included. *)
Definition unique_to_list (s : Series) : list cell := remove_dups (values s).

(** Keep the positions of [v] at which [mask] is true. *)
Fixpoint keep (mask : list bool) (v : list cell) : list cell :=
  match mask, v with
  | b :: mask', x :: v' => if b then x :: keep mask' v' else keep mask' v'
  | _, _ => []
  end.

(** [pl.col(c).is_in(vals)]: a null cell is never a member. *)
Definition is_in (vals : list cell) (x : cell) : bool :=
  bool_decide (x ≠ CNull) && bool_decide (x ∈ vals).

(** [df.filter(pl.col(c).is_in(vals))] *)
Definition filter_is_in (c : string) (vals : list cell) (df : DataFrame)
  : result DataFrame :=
  s ← column c df;
  let mask := map (is_in vals) (values s) in
  Ok (map (fun col => {| name := name col; values := keep mask (values col) |}) df).

(** Positions of the right key cells equal to [k]; a null key matches
    nothing. *)
Fixpoint matches_from (j : nat) (k : cell) (rk : list cell) : list nat :=
  match rk with
  | [] => []
  | x :: rk' =>
      if bool_decide (k ≠ CNull) && bool_decide (x = k)
      then j :: matches_from (S j) k rk'
      else matches_from (S j) k rk'
  end.

(** Row pairs of a left join: every left row, once per matching right
    row, or once with no partner. *)
Fixpoint pairs_from (i : nat) (lk rk : list cell) : list (nat * option nat) :=
  match lk with
  | [] => []
  | k :: lk' =>
      match matches_from 0 k rk with
      | [] => [(i, None)]
      | js => map (fun j => (i, Some j)) js
      end ++ pairs_from (S i) lk' rk
  end.

Definition take_left (ps : list (nat * option nat)) (v : list cell) : list cell :=
  map (fun p => nth (fst p) v CNull) ps.

Definition take_right (ps : list (nat * option nat)) (v : list cell) : list cell :=
  map (fun p => match snd p with Some j => nth j v CNull | None => CNull end) ps.

(** [left.join(right, on=key, how='left')]: the right frame's columns
    other than the key are appended, with the suffix [_right] when the
    name is already taken on the left. *)
Definition join_left (key : string) (left right : DataFrame) : result DataFrame :=
  lk ← column key left;
  rk ← column key right;
  let ps := pairs_from 0 (values lk) (values rk) in
  let lcols := map (fun s => {| name := name s; values := take_left ps (values s) |}) left in
  let rcols :=
    map (fun s => {| name := if bool_decide (name s ∈ columns left)
                             then name s +:+ "_right" else name s;
                     values := take_right ps (values s) |})
        (filter (fun s => name s ≠ key) right) in
  match list_find (fun s => name s ∈ columns lcols) rcols with
  | Some (_, s) => Raise (DuplicateError (name s))
  | None => Ok (lcols ++ rcols)
  end.

(** [pl.concat([a, b])]: vertical concatenation needs the same column
    names in the same order. *)
Definition concat (a b : DataFrame) : result DataFrame :=
  if bool_decide (columns a = columns b)
  then Ok (zip_with (fun x y => {| name := name x; values := values x ++ values y |}) a b)
  else Raise ShapeError.

End Frame.

(** ** Configuration ([src/config.py]) *)

Module Config.

Definition INITIAL_LOAD_YEAR : Z := 2010.

Definition TABLES_WITH_YEAR : list string :=
  [ "races"; "results"; "qualifying"; "sprint_results"; "lap_times";
    "pit_stops"; "driver_standings"; "constructor_standings";
    "constructor_results" ].

Definition DIMENSION_TABLES : list string :=
  [ "circuits"; "constructors"; "drivers"; "seasons"; "status" ].

Definition is_dimension_table (table_name : string) : bool :=
  bool_decide (table_name ∈ DIMENSION_TABLES).

Definition has_year_column (table_name : string) : bool :=
  bool_decide (table_name ∈ TABLES_WITH_YEAR).

End Config.

(** ** Processing state and its file *)

(** One entry of [self.state]: [{'processed_years': [...], 'last_update': ...}].
    The entry created by [mark_years_processed] for an unseen table has no
    [last_update] until the years are stored. *)
Record TableState := {
  processed_years : list cell;
  last_update : option string
}.

Global Instance TableState_eq_dec : EqDecision TableState.
Proof. solve_decision. Defined.

(** The state file as the sequence of JSON tokens [json.dump] writes;
    white space and indentation are not represented. *)
Inductive json_token :=
| LBrace | RBrace | LBracket | RBracket | Colon | Comma
| JString (s : string)
| JInt (z : Z)
| JNull.

Global Instance json_token_eq_dec : EqDecision json_token.
Proof. solve_decision. Defined.

Module Json.

Definition encode_cell (c : cell) : json_token :=
  match c with
  | CNull => JNull
  | CInt z => JInt z
  | CStr s => JString s
  end.

Fixpoint encode_cells (l : list cell) : list json_token :=
  match l with
  | [] => []
  | [c] => [encode_cell c]
  | c :: l' => encode_cell c :: Comma :: encode_cells l'
  end.

Definition encode_entry (e : TableState) : list json_token :=
  [LBrace; JString "processed_years"; Colon; LBracket]
    ++ encode_cells (processed_years e) ++ [RBracket]
    ++ match last_update e with
       | Some ts => [Comma; JString "last_update"; Colon; JString ts]
       | None => []
       end
    ++ [RBrace].

Fixpoint encode_items (l : list (string * TableState)) : list json_token :=
  match l with
  | [] => []
  | [(k, e)] => JString k :: Colon :: encode_entry e
  | (k, e) :: l' => JString k :: Colon :: encode_entry e ++ Comma :: encode_items l'
  end.

(** [json.dump(state, f, indent=2)].  The members are written in the
    order of [map_to_list] rather than in insertion order; loading does
    not observe the order. *)
Definition encode (st : gmap string TableState) : list json_token :=
  LBrace :: encode_items (map_to_list st) ++ [RBrace].

Definition decode_cell (t : json_token) : option cell :=
  match t with
  | JNull => Some CNull
  | JInt z => Some (CInt z)
  | JString s => Some (CStr s)
  | _ => None
  end.

(** The cells of an array after its opening bracket, and the rest of the
    input after the closing one. *)
Fixpoint decode_cells_tail (ts : list json_token) : option (list cell * list json_token) :=
  match ts with
  | RBracket :: rest => Some ([], rest)
  | Comma :: t :: ts' =>
      c ← decode_cell t;
      '(cs, rest) ← decode_cells_tail ts';
      Some (c :: cs, rest)
  | _ => None
  end.

Definition decode_cells (ts : list json_token) : option (list cell * list json_token) :=
  match ts with
  | RBracket :: rest => Some ([], rest)
  | t :: ts' =>
      c ← decode_cell t;
      '(cs, rest) ← decode_cells_tail ts';
      Some (c :: cs, rest)
  | [] => None
  end.

Definition decode_entry (ts : list json_token) : option (TableState * list json_token) :=
  match ts with
  | LBrace :: JString k1 :: Colon :: LBracket :: ts' =>
      if bool_decide (k1 = "processed_years")
      then
        '(cs, rest) ← decode_cells ts';
        match rest with
        | RBrace :: rest' =>
            Some ({| processed_years := cs; last_update := None |}, rest')
        | Comma :: JString k2 :: Colon :: JString ts :: RBrace :: rest' =>
            if bool_decide (k2 = "last_update")
            then Some ({| processed_years := cs; last_update := Some ts |}, rest')
            else None
        | _ => None
        end
      else None
  | _ => None
  end.

(** Every member but the first is preceded by a comma. *)
Definition strip_separator (first : bool) (ts : list json_token)
  : option (list json_token) :=
  if first then Some ts
  else match ts with Comma :: ts' => Some ts' | _ => None end.

(** The members of the top-level object after its opening brace.  The
    recursion is on a bound on the number of tokens left. *)
Fixpoint decode_items (fuel : nat) (first : bool) (ts : list json_token)
  : option (list (string * TableState)) :=
  match fuel with
  | O => None
  | S fuel' =>
      match ts with
      | [RBrace] => Some []
      | _ =>
          ts1 ← strip_separator first ts;
          match ts1 with
          | JString k :: Colon :: ts2 =>
              '(e, rest) ← decode_entry ts2;
              items ← decode_items fuel' false rest;
              Some ((k, e) :: items)
          | _ => None
          end
      end
  end.

(** [json.load(f)] on the documents of the shape [encode] writes and on
    what is left of them when a write stops half-way: a truncated or
    empty file does not decode.  Other well-formed JSON documents, which
    [json.load] reads as well, are outside the model and are not told
    apart here from the ones that do not parse.  A repeated key keeps its
    last value, as a Python dict does. *)
Definition decode (ts : list json_token) : option (gmap string TableState) :=
  match ts with
  | LBrace :: ts' =>
      items ← decode_items (S (length ts')) true ts';
      Some (list_to_map (reverse items))
  | _ => None
  end.

End Json.

(** ** Run outcomes and log records *)

(** The ['error'] field of a failed outcome: a literal of the code, or
    [str(e)] for a caught exception. *)
Inductive error_desc :=
| ErrLit (s : string)
| ErrExn (e : exn).

(** The statistics dictionary [process_table_incremental] returns. *)
Inductive stats :=
| Skipped (table_name : string) (reason : string)
| Failed (table_name : string) (error : error_desc)
| UpToDate (table_name : string)
| Success (table_name : string) (years_processed : list cell)
          (rows_processed total_rows : nat).

Inductive status := success | up_to_date | skipped | failed.

Global Instance status_eq_dec : EqDecision status.
Proof. solve_decision. Defined.

Definition stats_status (s : stats) : status :=
  match s with
  | Skipped _ _ => skipped
  | Failed _ _ => failed
  | UpToDate _ => up_to_date
  | Success _ _ _ _ => success
  end.

Definition stats_table (s : stats) : string :=
  match s with
  | Skipped t _ | Failed t _ | UpToDate t | Success t _ _ _ => t
  end.

(** [s.get('rows_processed', 0)] *)
Definition stats_rows (s : stats) : nat :=
  match s with
  | Success _ _ n _ => n
  | _ => 0%nat
  end.

Inductive level := INFO | WARNING | ERROR.

(** The records the module's [logger] receives.  The banner lines of
    [process_all_incremental] are left out, and the three count lines of
    its summary are one record. *)
Inductive message :=
| MsgInitialized
| MsgStateLoaded (tables : nat)
| MsgStateSaved
| MsgInitialLoad (table : string) (lo hi : cell)
| MsgNoDataBefore (table : string) (year : Z)
| MsgIncrementalLoad (table : string) (years : list cell)
| MsgUpToDate (table : string)
| MsgProcessing (table : string)
| MsgDimensionSkipped (table : string)
| MsgBronzeNotFound (table : string)
| MsgCannotDetermineYear (table : string)
| MsgSchemaMismatch
| MsgExistingOnly (cols : gset string)
| MsgNewOnly (cols : gset string)
| MsgAppending (new_rows existing_rows : nat)
| MsgWriting (new_rows : nat)
| MsgSuccess (table : string) (years rows : nat)
| MsgError (table : string) (e : exn)
| MsgStartInitial (year : Z)
| MsgStartIncremental
| MsgSummary (processed uptodate failures : nat)
| MsgTotalRows (rows : nat)
| MsgResetTable (table : string)
| MsgResetAll.

(** ** The world of the processor *)

(** A parquet file on disk: a frame, or bytes that do not read back. *)
Inductive parquet_file :=
| Parquet (df : DataFrame)
| Corrupt.

(** How a failing [write_parquet] fails: the exception it raises, and
    whether the target is left as it was or truncated. *)
Inductive write_failure :=
| Untouched (e : exn)
| Truncated (e : exn).

Definition write_error (f : write_failure) : exn :=
  match f with
  | Untouched e | Truncated e => e
  end.

(** The table transforms of [SilverTransformation] that
    [hasattr(transformer, 'transform_<table>')] finds for a fact table.
    Their bodies (casts to floats, regular expressions, date parsing) are
    not modelled: each is a function that returns a frame or raises. *)
Record SilverTransformation := {
  transform_races : DataFrame -> result DataFrame;
  transform_results : DataFrame -> result DataFrame;
  transform_qualifying : DataFrame -> result DataFrame;
  transform_lap_times : DataFrame -> result DataFrame;
  transform_pit_stops : DataFrame -> result DataFrame;
  transform_constructor_results : DataFrame -> result DataFrame
}.

(** What the processor does not control: the transforms, the tables
    whose silver write fails, and the clock behind [datetime.now()]. *)
Record Env := {
  transformer : SilverTransformation;
  write_fault : gmap string write_failure;
  clock : nat -> string
}.

Record World := {
  env : Env;
  ticks : nat;                                  (* clock reads so far *)
  state : gmap string TableState;               (* self.state *)
  bronze : gmap string parquet_file;            (* bronze/<table>.parquet *)
  silver : gmap string parquet_file;            (* silver/<table>.parquet *)
  state_file : option (list json_token);        (* logs/processing_state.json *)
  log : list (level * message)
}.

Definition set_state (st : gmap string TableState) (w : World) : World :=
  {| env := env w; ticks := ticks w; state := st; bronze := bronze w;
     silver := silver w; state_file := state_file w; log := log w |}.

Definition set_silver (sv : gmap string parquet_file) (w : World) : World :=
  {| env := env w; ticks := ticks w; state := state w; bronze := bronze w;
     silver := sv; state_file := state_file w; log := log w |}.

Definition set_state_file (f : option (list json_token)) (w : World) : World :=
  {| env := env w; ticks := ticks w; state := state w; bronze := bronze w;
     silver := silver w; state_file := f; log := log w |}.

Definition set_ticks (n : nat) (w : World) : World :=
  {| env := env w; ticks := n; state := state w; bronze := bronze w;
     silver := silver w; state_file := state_file w; log := log w |}.

Definition add_log (r : level * message) (w : World) : World :=
  {| env := env w; ticks := ticks w; state := state w; bronze := bronze w;
     silver := silver w; state_file := state_file w; log := log w ++ [r] |}.

(** ** The monad of the processor: state and exceptions.  What a
    computation did to the world before it raised stays done. *)

Definition M (A : Type) : Type := World -> result A * World.

Global Instance M_ret : MRet M := fun _ a w => (Ok a, w).

Global Instance M_bind : MBind M := fun _ _ k m w =>
  match m w with
  | (Ok a, w') => k a w'
  | (Raise e, w') => (Raise e, w')
  end.

Definition lift {A} (r : result A) : M A := fun w => (r, w).

Definition gets {A} (f : World -> A) : M A := fun w => (Ok (f w), w).

Definition modify (f : World -> World) : M unit := fun w => (Ok tt, f w).

(** [try: m except Exception as e: h e] *)
Definition try_except {A} (m : M A) (h : exn -> M A) : M A := fun w =>
  match m w with
  | (Ok a, w') => (Ok a, w')
  | (Raise e, w') => h e w'
  end.

Definition logger_info (m : message) : M unit := modify (add_log (INFO, m)).
Definition logger_warning (m : message) : M unit := modify (add_log (WARNING, m)).
Definition logger_error (m : message) : M unit := modify (add_log (ERROR, m)).

(** [datetime.now().isoformat()] *)
Definition datetime_now : M string := fun w =>
  (Ok (clock (env w) (ticks w)), set_ticks (S (ticks w)) w).

(** [pl.read_parquet(dir / f"{table}.parquet")] *)
Definition read_parquet (dir : World -> gmap string parquet_file) (table : string)
  : M DataFrame := fun w =>
  match dir w !! table with
  | Some (Parquet df) => (Ok df, w)
  | Some Corrupt => (Raise (ComputeError (table +:+ ".parquet")), w)
  | None => (Raise (FileNotFoundError (table +:+ ".parquet")), w)
  end.

(** [df.write_parquet(silver_file, ...)]: the file is replaced as a
    whole, unless the environment makes the write fail. *)
Definition write_parquet (table : string) (df : DataFrame) : M unit := fun w =>
  match write_fault (env w) !! table with
  | None => (Ok tt, set_silver (<[table := Parquet df]> (silver w)) w)
  | Some (Untouched e) => (Raise e, w)
  | Some (Truncated e) => (Raise e, set_silver (<[table := Corrupt]> (silver w)) w)
  end.

(** ** Writing the state file, one file operation at a time *)

Inductive file_op :=
| OpenTruncate                 (* open(path, 'w') *)
| WriteToken (t : json_token)  (* f.write(chunk) *)
| CloseFile.

Definition apply_op (f : option (list json_token)) (op : file_op)
  : option (list json_token) :=
  match op with
  | OpenTruncate => Some []
  | WriteToken t => Some (default [] f ++ [t])
  | CloseFile => f
  end.

Definition run_ops (ops : list file_op) (f : option (list json_token))
  : option (list json_token) :=
  fold_left apply_op ops f.

(** The operations of [with open(state_file, 'w') as f: json.dump(state, f)]. *)
Definition save_ops (st : gmap string TableState) : list file_op :=
  OpenTruncate :: map WriteToken (Json.encode st) ++ [CloseFile].

(** The disk when the process dies after the first [n] operations of a
    save. *)
Definition crash_in_save (n : nat) (w : World) : World :=
  set_state_file (run_ops (take n (save_ops (state w))) (state_file w)) w.

(** ** [class IncrementalProcessor] *)

Module IncrementalProcessor.

Definition _load_state : M (gmap string TableState) := fun w =>
  match state_file w with
  | Some ts =>
      match Json.decode ts with
      | Some st => (Ok st, w)
      | None => (Raise JSONDecodeError, w)
      end
  | None => (Ok ∅, w)
  end.

(** The save that completes: it runs all its file operations.  A process
    that dies half-way is [crash_in_save]; the save in which [open] or
    [json.dump] raises is [_save_state_under] below. *)
Definition _save_state : M unit :=
  modify (fun w => set_state_file (run_ops (save_ops (state w)) (state_file w)) w);;
  logger_info MsgStateSaved.

(** [__init__] *)
Definition init : M unit :=
  st ← _load_state;
  modify (set_state st);;
  logger_info MsgInitialized;;
  logger_info (MsgStateLoaded (size st)).

Definition processed_list (st : gmap string TableState) (table_name : string)
  : list cell :=
  match st !! table_name with
  | Some e => processed_years e
  | None => []
  end.

Definition get_processed_years (st : gmap string TableState) (table_name : string)
  : gset cell :=
  list_to_set (processed_list st table_name).

(** [max(processed) if processed else None] *)
Definition get_max_processed_year (st : gmap string TableState) (table_name : string)
  : result (option cell) :=
  let processed := get_processed_years st table_name in
  if bool_decide (processed = ∅) then Ok None
  else m ← Py.max (elements processed); Ok (Some m).

Definition mark_years_processed (table_name : string) (years : list cell) : M unit :=
  st ← gets state;
  (if bool_decide (st !! table_name = None)
   then modify (set_state (<[table_name := {| processed_years := []; last_update := None |}]> st))
   else mret tt);;
  st ← gets state;
  let current_years : gset cell :=
    list_to_set (processed_list st table_name) ∪ list_to_set years in
  sorted_years ← lift (Py.sorted (elements current_years));
  now ← datetime_now;
  modify (set_state (<[table_name := {| processed_years := sorted_years;
                                        last_update := Some now |}]> st));;
  _save_state.

(** The comprehension [[y for y in l if y <= bound]]. *)
Fixpoint years_up_to (bound : Z) (l : list cell) : result (list cell) :=
  match l with
  | [] => Ok []
  | y :: l' =>
      b ← Py.le y (CInt bound);
      r ← years_up_to bound l';
      Ok (if b : bool then y :: r else r)
  end.

Definition get_years_to_process (table_name : string) (available_years : list cell)
           (is_initial_load : bool) : M (list cell) :=
  processed_years ← gets (fun w => get_processed_years (state w) table_name);
  years_to_process ←
    (if is_initial_load && bool_decide (processed_years = ∅)
     then
       years_to_process ← lift (years_up_to Config.INITIAL_LOAD_YEAR available_years);
       match years_to_process with
       | _ :: _ =>
           lo ← lift (Py.min years_to_process);
           hi ← lift (Py.max years_to_process);
           logger_info (MsgInitialLoad table_name lo hi)
       | [] => logger_info (MsgNoDataBefore table_name Config.INITIAL_LOAD_YEAR)
       end;;
       mret years_to_process
     else
       let years_to_process :=
         filter (fun y => y ∉ processed_years) available_years in
       match years_to_process with
       | _ :: _ => logger_info (MsgIncrementalLoad table_name years_to_process)
       | [] => logger_info (MsgUpToDate table_name)
       end;;
       mret years_to_process);
  lift (Py.sorted years_to_process).

(** [getattr(transformer, f'transform_{table_name}')] when [hasattr]
    finds it, for the table names that pass [has_year_column].
    [sprint_results], [driver_standings] and [constructor_standings]
    have no method of that name and are passed through unchanged. *)
Definition transform_method (tr : SilverTransformation) (table_name : string)
  : option (DataFrame -> result DataFrame) :=
  if bool_decide (table_name = "races") then Some (transform_races tr)
  else if bool_decide (table_name = "results") then Some (transform_results tr)
  else if bool_decide (table_name = "qualifying") then Some (transform_qualifying tr)
  else if bool_decide (table_name = "lap_times") then Some (transform_lap_times tr)
  else if bool_decide (table_name = "pit_stops") then Some (transform_pit_stops tr)
  else if bool_decide (table_name = "constructor_results")
       then Some (transform_constructor_results tr)
  else None.

(** The transform applied to the filtered frame (lines 180-189). *)
Definition apply_transform (tr : SilverTransformation) (table_name : string)
           (df_to_process : DataFrame) : result DataFrame :=
  match transform_method tr table_name with
  | Some transform_method => transform_method df_to_process
  | None => Ok df_to_process
  end.

(** [process_table_incremental] has four [return]s ahead of the write.  The
    phases below yield [inl stats] for such an early return and [inr] with
    the values the rest of the function uses otherwise. *)

(** Lines 122-162: the bronze frame with its [year] column. *)
Definition read_with_year (table_name : string) : M (stats + DataFrame) :=
  if negb (Config.has_year_column table_name)
  then
    logger_info (MsgDimensionSkipped table_name);;
    mret (inl (Skipped table_name "dimension_table"))
  else
    bronze_exists ← gets (fun w => bool_decide (is_Some (bronze w !! table_name)));
    if negb bronze_exists
    then
      logger_warning (MsgBronzeNotFound table_name);;
      mret (inl (Failed table_name (ErrLit "bronze_file_not_found")))
    else
      df_bronze ← read_parquet bronze table_name;
      races_bronze ← read_parquet bronze "races";
      if bool_decide ("raceId" ∈ Frame.columns df_bronze)
      then
        races_year ← lift (Frame.select ["raceId"; "year"] races_bronze);
        df_with_year ← lift (Frame.join_left "raceId" df_bronze races_year);
        mret (inr df_with_year)
      else if bool_decide ("year" ∈ Frame.columns df_bronze)
      then mret (inr df_bronze)
      else
        logger_warning (MsgCannotDetermineYear table_name);;
        mret (inl (Failed table_name (ErrLit "no_year_column"))).

(** Line 165: [sorted(df_with_year['year'].unique().to_list())] *)
Definition available_years (df_with_year : DataFrame) : result (list cell) :=
  year ← Frame.column "year" df_with_year;
  Py.sorted (Frame.unique_to_list year).

(** Lines 122-175: the years to process, with the frame they are taken
    from. *)
Definition plan_table (table_name : string) (is_initial_load : bool)
  : M (stats + list cell * DataFrame) :=
  r ← read_with_year table_name;
  match r with
  | inl early => mret (inl early)
  | inr df_with_year =>
      available_years ← lift (available_years df_with_year);
      years_to_process ←
        get_years_to_process table_name available_years is_initial_load;
      match years_to_process with
      | [] => mret (inl (UpToDate table_name))
      | _ :: _ => mret (inr (years_to_process, df_with_year))
      end
  end.

(** Lines 198-213: both frames cut down to their common columns when the
    column sets differ. *)
Definition align_schemas (df_existing df_transformed : DataFrame)
  : M (DataFrame * DataFrame) :=
  let existing_cols : gset string := list_to_set (Frame.columns df_existing) in
  let new_cols : gset string := list_to_set (Frame.columns df_transformed) in
  let common_cols := existing_cols ∩ new_cols in
  if bool_decide (existing_cols ≠ new_cols)
  then
    logger_warning MsgSchemaMismatch;;
    logger_warning (MsgExistingOnly (existing_cols ∖ new_cols));;
    logger_warning (MsgNewOnly (new_cols ∖ existing_cols));;
    let common_cols_list := Py.sorted_str (elements common_cols) in
    df_existing ← lift (Frame.select common_cols_list df_existing);
    df_transformed ← lift (Frame.select common_cols_list df_transformed);
    mret (df_existing, df_transformed)
  else mret (df_existing, df_transformed).

(** Lines 191-220: [df_final], and [df_transformed] as it stands
    afterwards. *)
Definition merge_with_silver (table_name : string) (is_initial_load : bool)
           (df_transformed : DataFrame) : M (DataFrame * DataFrame) :=
  silver_exists ← gets (fun w => bool_decide (is_Some (silver w !! table_name)));
  if (silver_exists : bool) && negb is_initial_load
  then
    df_existing ← read_parquet silver table_name;
    '(df_existing, df_transformed) ← align_schemas df_existing df_transformed;
    df_final ← lift (Frame.concat df_existing df_transformed);
    logger_info (MsgAppending (Frame.height df_transformed)
                              (Frame.height df_existing));;
    mret (df_final, df_transformed)
  else
    logger_info (MsgWriting (Frame.height df_transformed));;
    mret (df_transformed, df_transformed).

(** Lines 122-220: everything the [try] block does before the write. *)
Definition prepare_write (table_name : string) (is_initial_load : bool)
  : M (stats + list cell * DataFrame * DataFrame) :=
  r ← plan_table table_name is_initial_load;
  match r with
  | inl early => mret (inl early)
  | inr (years_to_process, df_with_year) =>
      df_to_process ←
        lift (Frame.filter_is_in "year" years_to_process df_with_year);
      tr ← gets (fun w => transformer (env w));
      df_transformed ← lift (apply_transform tr table_name df_to_process);
      '(df_final, df_transformed) ←
        merge_with_silver table_name is_initial_load df_transformed;
      mret (inr (years_to_process, df_final, df_transformed))
  end.

(** Lines 222-238: write to silver, then mark the years as processed. *)
Definition write_and_commit (table_name : string) (years_to_process : list cell)
           (df_final df_transformed : DataFrame) : M stats :=
  write_parquet table_name df_final;;
  mark_years_processed table_name years_to_process;;
  logger_info (MsgSuccess table_name (length years_to_process)
                          (Frame.height df_transformed));;
  mret (Success table_name years_to_process
                (Frame.height df_transformed) (Frame.height df_final)).

(** The body of the [try] block. *)
Definition process_table_body (table_name : string) (is_initial_load : bool)
  : M stats :=
  r ← prepare_write table_name is_initial_load;
  match r with
  | inl early => mret early
  | inr (years_to_process, df_final, df_transformed) =>
      write_and_commit table_name years_to_process df_final df_transformed
  end.

Definition process_table_incremental (table_name : string) (is_initial_load : bool)
  : M stats :=
  logger_info (MsgProcessing table_name);;
  try_except
    (process_table_body table_name is_initial_load)
    (fun e =>
       logger_error (MsgError table_name e);;
       mret (Failed table_name (ErrExn e))).

(** [for table_name in tables: stats_list.append(process_table_incremental(...))] *)
Fixpoint process_tables (tables : list string) (is_initial_load : bool)
  : M (list stats) :=
  match tables with
  | [] => mret []
  | table_name :: tables' =>
      stats ← process_table_incremental table_name is_initial_load;
      stats_list ← process_tables tables' is_initial_load;
      mret (stats :: stats_list)
  end.

Definition with_status (st : status) (l : list stats) : list stats :=
  filter (fun s => stats_status s = st) l.

(** The summary frame is the list of outcome records. *)
Definition process_all_incremental (is_initial_load : bool) : M (list stats) :=
  (if is_initial_load
   then logger_info (MsgStartInitial Config.INITIAL_LOAD_YEAR)
   else logger_info MsgStartIncremental);;
  stats_list ← process_tables Config.TABLES_WITH_YEAR is_initial_load;
  let successful := with_status success stats_list in
  logger_info (MsgSummary (length successful)
                          (length (with_status up_to_date stats_list))
                          (length (with_status failed stats_list)));;
  match successful with
  | _ :: _ => logger_info (MsgTotalRows (foldr (fun s n => stats_rows s + n)%nat 0%nat successful))
  | [] => mret tt
  end;;
  mret stats_list.

Definition reset_state (table_name : option string) : M unit :=
  match table_name with
  | Some t =>
      if bool_decide (t = "")
      then modify (set_state ∅);; logger_info MsgResetAll
      else
        st ← gets state;
        if bool_decide (is_Some (st !! t))
        then modify (set_state (delete t st));; logger_info (MsgResetTable t)
        else mret tt
  | None => modify (set_state ∅);; logger_info MsgResetAll
  end;;
  _save_state.

(** The commands [initial] and [incremental] of [main]: a fresh
    processor, then one pass.  Writing the summary file is left out. *)
Definition run_initial : M (list stats) :=
  init;; process_all_incremental true.

Definition run_incremental : M (list stats) :=
  init;; process_all_incremental false.

(** *** The commit when the save may fail

    [open] and [json.dump] can raise.  A [save_fault] says that they do:
    after how many file operations, and with which exception.  The
    definitions below are [mark_years_processed] and its callers with the
    save they reach left to that parameter; without a fault they are the
    definitions above. *)

Definition _save_state_under (fault : option (nat * exn)) : M unit :=
  match fault with
  | None => _save_state
  | Some (n, e) => modify (crash_in_save n);; lift (Raise e)
  end.

Definition mark_years_processed_under (fault : option (nat * exn))
           (table_name : string) (years : list cell) : M unit :=
  st ← gets state;
  (if bool_decide (st !! table_name = None)
   then modify (set_state (<[table_name := {| processed_years := []; last_update := None |}]> st))
   else mret tt);;
  st ← gets state;
  let current_years : gset cell :=
    list_to_set (processed_list st table_name) ∪ list_to_set years in
  sorted_years ← lift (Py.sorted (elements current_years));
  now ← datetime_now;
  modify (set_state (<[table_name := {| processed_years := sorted_years;
                                        last_update := Some now |}]> st));;
  _save_state_under fault.

Definition write_and_commit_under (fault : option (nat * exn))
           (table_name : string) (years_to_process : list cell)
           (df_final df_transformed : DataFrame) : M stats :=
  write_parquet table_name df_final;;
  mark_years_processed_under fault table_name years_to_process;;
  logger_info (MsgSuccess table_name (length years_to_process)
                          (Frame.height df_transformed));;
  mret (Success table_name years_to_process
                (Frame.height df_transformed) (Frame.height df_final)).

Definition process_table_body_under (fault : option (nat * exn))
           (table_name : string) (is_initial_load : bool) : M stats :=
  r ← prepare_write table_name is_initial_load;
  match r with
  | inl early => mret early
  | inr (years_to_process, df_final, df_transformed) =>
      write_and_commit_under fault table_name years_to_process df_final df_transformed
  end.

Definition process_table_incremental_under (fault : option (nat * exn))
           (table_name : string) (is_initial_load : bool) : M stats :=
  logger_info (MsgProcessing table_name);;
  try_except
    (process_table_body_under fault table_name is_initial_load)
    (fun e =>
       logger_error (MsgError table_name e);;
       mret (Failed table_name (ErrExn e))).

Fixpoint process_tables_under (fault : option (nat * exn)) (tables : list string)
         (is_initial_load : bool) : M (list stats) :=
  match tables with
  | [] => mret []
  | table_name :: tables' =>
      stats ← process_table_incremental_under fault table_name is_initial_load;
      stats_list ← process_tables_under fault tables' is_initial_load;
      mret (stats :: stats_list)
  end.

Definition process_all_incremental_under (fault : option (nat * exn))
           (is_initial_load : bool) : M (list stats) :=
  (if is_initial_load
   then logger_info (MsgStartInitial Config.INITIAL_LOAD_YEAR)
   else logger_info MsgStartIncremental);;
  stats_list ← process_tables_under fault Config.TABLES_WITH_YEAR is_initial_load;
  let successful := with_status success stats_list in
  logger_info (MsgSummary (length successful)
                          (length (with_status up_to_date stats_list))
                          (length (with_status failed stats_list)));;
  match successful with
  | _ :: _ => logger_info (MsgTotalRows (foldr (fun s n => stats_rows s + n)%nat 0%nat successful))
  | [] => mret tt
  end;;
  mret stats_list.

(** *** [main]

    [pl.DataFrame(stats_list)] has a column for every key that occurs in
    some record, with nulls where a record has no such key. *)
Definition stats_keys (s : stats) : list string :=
  match s with
  | Skipped _ _ => ["table_name"; "status"; "reason"]
  | Failed _ _ => ["table_name"; "status"; "error"]
  | UpToDate _ => ["table_name"; "status"; "rows_processed"]
  | Success _ _ _ _ =>
      ["table_name"; "status"; "years_processed"; "rows_processed"; "total_rows"]
  end.

Definition summary_columns (summary : list stats) : list string :=
  remove_dups (concat (map stats_keys summary)).

(** Lines 352-370: the export reads the columns [years_processed],
    [rows_processed] and [total_rows] of the summary and raises when one
    of them is not there.  The value returned is the list of records
    written to the file; an empty summary is not written. *)
Definition export_summary (summary : list stats) : result (list stats) :=
  match summary with
  | [] => Ok []
  | _ :: _ =>
      match list_find (fun c => c ∉ summary_columns summary)
                      ["years_processed"; "rows_processed"; "total_rows"] with
      | Some (_, c) => Raise (ColumnNotFoundError c)
      | None => Ok summary
      end
  end.

(** [main], with [args] for [sys.argv[1:]].  The value returned is what
    was exported, or [None] where [main] returns before the export; the
    summary file itself and the informational lines [main] logs are not
    represented. *)
Definition main (args : list string) : M (option (list stats)) :=
  init;;
  summary ←
    match args with
    | command :: _ =>
        if bool_decide (command = "initial")
        then summary ← process_all_incremental true; mret (Some summary)
        else if bool_decide (command = "incremental")
        then summary ← process_all_incremental false; mret (Some summary)
        else if bool_decide (command = "reset")
        then reset_state None;; mret None
        else mret None
    | [] =>
        st ← gets state;
        if bool_decide (st = ∅)
        then summary ← process_all_incremental true; mret (Some summary)
        else summary ← process_all_incremental false; mret (Some summary)
    end;
  match summary with
  | None => mret None
  | Some summary =>
      timestamp ← datetime_now;
      exported ← lift (export_summary summary);
      mret (Some exported)
  end.

End IncrementalProcessor.

(** ** The scheduler task ([dags/f1_etl_pipeline.py]) *)

Module Dag.

(** The dictionary [run_incremental_processing] returns. *)
Record incremental_result := {
  load_type : string;
  total_tables : nat;
  successful : nat;
  total_rows : nat
}.

(** [run_incremental_processing]: a fresh processor; an initial load when
    it has no state, an incremental pass otherwise. *)
Definition run_incremental_processing : M incremental_result :=
  IncrementalProcessor.init;;
  st ← gets state;
  '(summary, load_type) ←
    (if bool_decide (st = ∅)
     then summary ← IncrementalProcessor.process_all_incremental true;
          mret (summary, "initial")
     else summary ← IncrementalProcessor.process_all_incremental false;
          mret (summary, "incremental"));
  let successful := IncrementalProcessor.with_status success summary in
  mret {| load_type := load_type;
          total_tables := length summary;
          successful := length successful;
          total_rows := match successful with
                        | _ :: _ => foldr (fun s n => stats_rows s + n)%nat 0%nat successful
                        | [] => 0%nat
                        end |}.

End Dag.

(** ** Auxiliary definitions used in the statements *)

(** The message the incremental branch logs. *)
Definition incremental_message (t : string) (years : list cell) : message :=
  match years with
  | _ :: _ => MsgIncrementalLoad t years
  | [] => MsgUpToDate t
  end.

(** The cells of column [c], or none when the frame has no such column. *)
Definition values_of (c : string) (df : DataFrame) : list cell :=
  match Frame.find_column c df with
  | Some s => values s
  | None => []
  end.

(** The frame with columns [cs], each holding the cells [a] has under
    that name followed by the cells [b] has. *)
Definition stacked (cs : list string) (a b : DataFrame) : DataFrame :=
  map (fun c => {| name := c; values := values_of c a ++ values_of c b |}) cs.

(** The frame with columns [cs] taken from [a]. *)
Definition projected (cs : list string) (a : DataFrame) : DataFrame :=
  map (fun c => {| name := c; values := values_of c a |}) cs.




(** ** Relations between worlds *)

(** A computation respects [R] when, run from related worlds, it returns
    the same result and leaves related worlds. *)
Definition respects (R : relation World) {A} (m : M A) : Prop :=
  forall w1 w2, R w1 w2 -> (m w1).1 = (m w2).1 /\ R (m w1).2 (m w2).2.

(** A computation only makes [I]-steps when the world it leaves is always
    [I]-related to the one it started from. *)
Definition steps_within (I : relation World) {A} (m : M A) : Prop :=
  forall w, I w (m w).2.

(** Equal up to the log. *)
Definition same_but_log (w1 w2 : World) : Prop :=
  env w1 = env w2 /\ ticks w1 = ticks w2 /\ state w1 = state w2
  /\ bronze w1 = bronze w2 /\ silver w1 = silver w2
  /\ state_file w1 = state_file w2.

(** What planning table [t] depends on: the bronze store and the years
    recorded for [t]. *)
Definition same_plan_inputs (t : string) (w1 w2 : World) : Prop :=
  bronze w1 = bronze w2
  /\ IncrementalProcessor.get_processed_years (state w1) t
     = IncrementalProcessor.get_processed_years (state w2) t.

(** What processing table [t] may change: its own entry of the state, its
    own silver file, the state file, the clock reads and the log. *)
Definition touches_only (t : string) (w w' : World) : Prop :=
  env w' = env w /\ bronze w' = bronze w
  /\ (forall t', t' <> t -> state w' !! t' = state w !! t')
  /\ (forall t', t' <> t -> silver w' !! t' = silver w !! t').

(** Every value a computation returns satisfies [P]. *)
Definition returns {A} (P : A -> Prop) (m : M A) : Prop :=
  forall w a w', m w = (Ok a, w') -> P a.

(** What the outcome of processing table [t] depends on: the
    environment, the bronze store, the years recorded for [t] and the
    silver file of [t]. *)
Definition same_table_inputs (t : string) (w1 w2 : World) : Prop :=
  env w1 = env w2 /\ bronze w1 = bronze w2
  /\ IncrementalProcessor.processed_list (state w1) t
     = IncrementalProcessor.processed_list (state w2) t
  /\ silver w1 !! t = silver w2 !! t.

(** An early outcome, if any, is about table [t] and is not a success. *)
Definition early_about {A} (t : string) (r : stats + A) : Prop :=
  match r with
  | inl early => stats_table early = t /\ stats_status early <> success
  | inr _ => True
  end.

(** [self.state] once [mark_years_processed] has made sure the table has
    an entry. *)
Definition with_entry (t : string) (st : gmap string TableState)
  : gmap string TableState :=
  if bool_decide (st !! t = None)
  then <[t := {| processed_years := []; last_update := None |}]> st
  else st.

(** Nothing that belongs to table [t] differs between two worlds. *)
Definition untouched (t : string) (w w' : World) : Prop :=
  env w' = env w /\ bronze w' = bronze w
  /\ state w' !! t = state w !! t /\ silver w' !! t = silver w !! t.

(** The state file holds a state whose entry for [t] is the one in
    memory. *)
Definition file_tracks (t : string) (w : World) : Prop :=
  exists st, state_file w = Some (Json.encode st) /\ st !! t = state w !! t.

(** The environment and the bronze store are the same, and no table has
    lost a processed year. *)
Definition only_grows (w w' : World) : Prop :=
  env w' = env w /\ bronze w' = bronze w
  /\ forall t, IncrementalProcessor.get_processed_years (state w) t
               ⊆ IncrementalProcessor.get_processed_years (state w') t.

(** ** Concrete inputs *)

Module Examples.

(** A transformer whose methods return their argument. *)
Definition identity_transformer : SilverTransformation :=
  {| transform_races := Ok; transform_results := Ok; transform_qualifying := Ok;
     transform_lap_times := Ok; transform_pit_stops := Ok;
     transform_constructor_results := Ok |}.

Definition quiet_env : Env :=
  {| transformer := identity_transformer; write_fault := ∅;
     clock := fun _ => "2024-01-01T00:00:00" |}.

Definition empty_world : World :=
  {| env := quiet_env; ticks := 0; state := ∅; bronze := ∅; silver := ∅;
     state_file := None; log := [] |}.

(** [results] has 2005 recorded as processed. *)
Definition state_2005 : gmap string TableState :=
  {[ "results" := {| processed_years := [CInt 2005];
                     last_update := Some "2024-01-01T00:00:00" |} ]}.

Definition world_2005 : World := set_state state_2005 empty_world.

(** The processor about to save: the file still holds [state_2005], the
    state in memory also has 2008. *)
Definition state_2008 : gmap string TableState :=
  {[ "results" := {| processed_years := [CInt 2005; CInt 2008];
                     last_update := Some "2024-06-01T00:00:00" |} ]}.

Definition world_saving : World :=
  set_state state_2008 (set_state_file (Some (Json.encode state_2005)) empty_world).

(** An existing merged frame with columns A, B, D and an incoming frame
    with columns A, B, C. *)
Definition frame_ABD : DataFrame :=
  [ {| name := "A"; values := [CInt 1] |};
    {| name := "B"; values := [CInt 2] |};
    {| name := "D"; values := [CInt 3] |} ].

Definition frame_ABC : DataFrame :=
  [ {| name := "C"; values := [CInt 30; CInt 31] |};
    {| name := "B"; values := [CInt 20; CInt 21] |};
    {| name := "A"; values := [CInt 10; CInt 11] |} ].

Definition world_ABD : World :=
  set_silver {[ "results" := Parquet frame_ABD ]} empty_world.

(** A bronze store with three races and four results. *)
Definition races_frame : DataFrame :=
  [ {| name := "raceId"; values := [CInt 1; CInt 2; CInt 3] |};
    {| name := "year"; values := [CInt 2005; CInt 2012; CInt 2005] |} ].

Definition results_frame : DataFrame :=
  [ {| name := "resultId"; values := [CInt 10; CInt 11; CInt 12; CInt 13] |};
    {| name := "raceId"; values := [CInt 1; CInt 2; CInt 3; CInt 2] |} ].

Definition bronze_store : gmap string parquet_file :=
  {[ "races" := Parquet races_frame; "results" := Parquet results_frame ]}.

Definition world_bronze : World :=
  {| env := quiet_env; ticks := 0; state := ∅; bronze := bronze_store;
     silver := ∅; state_file := None; log := [] |}.

(** The same store in an environment where writing [results] fails and
    leaves a truncated file. *)
Definition failing_env : Env :=
  {| transformer := identity_transformer;
     write_fault := {[ "results" := Truncated (OSError "results.parquet") ]};
     clock := fun _ => "2024-01-01T00:00:00" |}.

Definition world_write_fails : World :=
  {| env := failing_env; ticks := 0; state := ∅; bronze := bronze_store;
     silver := ∅; state_file := None; log := [] |}.

Definition qualifying_frame : DataFrame :=
  [ {| name := "qualifyId"; values := [CInt 100; CInt 101] |};
    {| name := "raceId"; values := [CInt 1; CInt 2] |} ].

(** The bronze file of [results] is missing; [qualifying], which comes
    after it, is there. *)
Definition world_missing_results : World :=
  {| env := quiet_env; ticks := 0; state := ∅;
     bronze := {[ "races" := Parquet races_frame;
                  "qualifying" := Parquet qualifying_frame ]};
     silver := ∅; state_file := None; log := [] |}.

(** The transform of [results] raises. *)
Definition raising_env : Env :=
  {| transformer :=
       {| transform_races := Ok;
          transform_results := fun _ => Raise (ColumnNotFoundError "points");
          transform_qualifying := Ok; transform_lap_times := Ok;
          transform_pit_stops := Ok; transform_constructor_results := Ok |};
     write_fault := ∅;
     clock := fun _ => "2024-01-01T00:00:00" |}.

Definition world_transform_raises : World :=
  {| env := raising_env; ticks := 0; state := ∅;
     bronze := {[ "races" := Parquet races_frame;
                  "results" := Parquet results_frame;
                  "qualifying" := Parquet qualifying_frame ]};
     silver := ∅; state_file := None; log := [] |}.

(** Sprint results whose races are not in the races table. *)
Definition orphan_sprint_frame : DataFrame :=
  [ {| name := "resultId"; values := [CInt 50; CInt 51] |};
    {| name := "raceId"; values := [CInt 7; CInt 8] |} ].

Definition world_orphans : World :=
  {| env := quiet_env; ticks := 0; state := ∅;
     bronze := {[ "races" := Parquet races_frame;
                  "sprint_results" := Parquet orphan_sprint_frame ]};
     silver := ∅; state_file := None; log := [] |}.

(** A fact table with neither a [raceId] nor a [year] column. *)
Definition keyless_frame : DataFrame :=
  [ {| name := "resultId"; values := [CInt 50; CInt 51] |} ].

Definition world_keyless : World :=
  {| env := quiet_env; ticks := 0; state := ∅;
     bronze := {[ "races" := Parquet races_frame;
                  "sprint_results" := Parquet keyless_frame ]};
     silver := ∅; state_file := None; log := [] |}.

(** [results] has 2005 processed and merged; the bronze store also has
    2012. *)
Definition merged_2005 : DataFrame :=
  [ {| name := "resultId"; values := [CInt 10; CInt 12] |};
    {| name := "raceId"; values := [CInt 1; CInt 3] |};
    {| name := "year"; values := [CInt 2005; CInt 2005] |} ].

Definition world_merged_2005 : World :=
  {| env := quiet_env; ticks := 0; state := state_2005; bronze := bronze_store;
     silver := {[ "results" := Parquet merged_2005 ]};
     state_file := Some (Json.encode state_2005); log := [] |}.

(** The world one incremental run leaves when started on the bronze
    store with no state. *)
Definition world_after_first_run : World :=
  (IncrementalProcessor.run_incremental world_bronze).2.

(** [results] has 2005 recorded, and its bronze rows belong to races the
    races table does not have. *)
Definition world_orphan_results : World :=
  {| env := quiet_env; ticks := 0; state := state_2005;
     bronze := {[ "races" := Parquet races_frame;
                  "results" := Parquet orphan_sprint_frame ]};
     silver := ∅; state_file := Some (Json.encode state_2005); log := [] |}.

(** A state file that was opened for writing and never written. *)
Definition world_cut_state_file : World :=
  set_state_file (Some []) world_bronze.

(** The bronze store without its races file. *)
Definition world_no_races : World :=
  {| env := quiet_env; ticks := 0; state := ∅;
     bronze := {[ "results" := Parquet results_frame ]};
     silver := ∅; state_file := None; log := [] |}.

(** The columns of [frame_ABD] in another order. *)
Definition frame_DBA : DataFrame :=
  [ {| name := "D"; values := [CInt 6] |};
    {| name := "B"; values := [CInt 5] |};
    {| name := "A"; values := [CInt 4] |} ].

End Examples.

(** * Properties *)

(** ** Running a computation *)

Lemma run_bind {A B} (m : M A) (k : A -> M B) (w : World) :
  (m ≫= k) w =
  match m w with
  | (Ok a, w') => k a w'
  | (Raise e, w') => (Raise e, w')
  end.
Proof. reflexivity. Qed.

Lemma run_lift_bind {A B} (r : result A) (k : A -> M B) (w : World) :
  (lift r ≫= k) w =
  match r with
  | Ok a => k a w
  | Raise e => (Raise e, w)
  end.
Proof. rewrite run_bind. unfold lift. destruct r; reflexivity. Qed.

Lemma run_gets_bind {A B} (f : World -> A) (k : A -> M B) (w : World) :
  (gets f ≫= k) w = k (f w) w.
Proof. reflexivity. Qed.

Lemma run_modify_bind {B} (f : World -> World) (k : unit -> M B) (w : World) :
  (modify f ≫= k) w = k tt (f w).
Proof. reflexivity. Qed.

Lemma run_mret_bind {A B} (a : A) (k : A -> M B) (w : World) :
  (mret a ≫= k) w = k a w.
Proof. reflexivity. Qed.

(** ** [sorted] *)

Section Sorting.

Lemma insert_perm (x : cell) (l r : list cell) :
  Py.insert x l = Ok r -> r ≡ₚ x :: l.
Proof.
  revert r. induction l as [|y l IH]; intros r H; simpl in H.
  - injection H as <-. reflexivity.
  - destruct (Py.lt y x) as [[|]|e]; simpl in H; try discriminate.
    + destruct (Py.insert x l) as [r'|e]; simpl in H; try discriminate.
      injection H as <-. rewrite (IH r' eq_refl). apply Permutation_swap.
    + injection H as <-. reflexivity.
Qed.

Lemma sorted_perm (l r : list cell) :
  Py.sorted l = Ok r -> r ≡ₚ l.
Proof.
  revert r. induction l as [|x l IH]; intros r H; simpl in H.
  - injection H as <-. reflexivity.
  - destruct (Py.sorted l) as [r'|e]; simpl in H; try discriminate.
    apply insert_perm in H. rewrite H, (IH r' eq_refl). reflexivity.
Qed.

Lemma insert_ints (x : Z) (l : list Z) :
  Sorted Z.le l ->
  exists r, Py.insert (CInt x) (map CInt l) = Ok (map CInt r)
            /\ r ≡ₚ x :: l /\ Sorted Z.le r.
Proof.
  induction l as [|y l IH]; intros Hs.
  - exists [x]. repeat split; auto.
  - simpl. destruct (Z.ltb_spec y x) as [Hlt|Hge]; simpl.
    + assert (Hyl : Forall (Z.le y) l).
      { apply Sorted_extends in Hs; [exact Hs|]. intros a b c. lia. }
      apply Sorted_inv in Hs as [Hs _].
      destruct (IH Hs) as (r & -> & Hp & Hr). simpl.
      exists (y :: r). repeat split.
      * rewrite Hp. apply Permutation_swap.
      * constructor; [exact Hr|].
        assert (Hall : Forall (Z.le y) r).
        { rewrite Hp. constructor; [lia|exact Hyl]. }
        destruct r; constructor. inversion Hall; assumption.
    + exists (x :: y :: l). repeat split; auto.
Qed.

Lemma sorted_ints (l : list Z) :
  exists r, Py.sorted (map CInt l) = Ok (map CInt r)
            /\ r ≡ₚ l /\ Sorted Z.le r.
Proof.
  induction l as [|x l (r & Hr & Hp & Hs)].
  - exists []. repeat split; auto.
  - simpl. rewrite Hr. simpl.
    destruct (insert_ints x r Hs) as (r' & -> & Hp' & Hs').
    exists r'. repeat split; auto. rewrite Hp', Hp. reflexivity.
Qed.

(** A sorted list without repetition is strictly increasing. *)
Lemma sorted_nodup_strict (l : list Z) :
  Sorted Z.le l -> NoDup l -> StronglySorted Z.lt l.
Proof.
  intros Hs Hn. apply Sorted_StronglySorted in Hs; [|intros a b c; lia].
  induction l as [|x l IH]; [constructor|].
  apply StronglySorted_inv in Hs as [Hs Hall].
  apply NoDup_cons in Hn as [Hx Hn].
  constructor; [auto|].
  rewrite Forall_forall in *. intros y Hy.
  specialize (Hall y Hy). assert (x <> y) by (intros ->; auto). lia.
Qed.

End Sorting.

(** ** The planner *)

Section Planner.

Import IncrementalProcessor.

Implicit Types (w : World) (t : string) (ys zs : list Z).

(** The incremental branch, run. *)
Lemma get_years_to_process_else w t available b :
  b = false \/ get_processed_years (state w) t <> ∅ ->
  get_years_to_process t available b w =
  let years := filter (fun y => y ∉ get_processed_years (state w) t) available in
  (Py.sorted years, add_log (INFO, incremental_message t years) w).
Proof.
  intros Hmode. unfold get_years_to_process. rewrite run_gets_bind.
  assert (b && bool_decide (get_processed_years (state w) t = ∅) = false) as ->.
  { destruct Hmode as [->|Hne]; [reflexivity|].
    rewrite bool_decide_eq_false_2 by assumption. apply andb_false_r. }
  cbv zeta. rewrite run_bind.
  destruct (filter _ available) as [|y years]; reflexivity.
Qed.

Lemma filter_unprocessed_ints (S : gset cell) ys :
  filter (fun y => y ∉ S) (map CInt ys) = map CInt (filter (fun z => CInt z ∉ S) ys).
Proof.
  induction ys as [|z ys IH]; [reflexivity|].
  simpl. rewrite !filter_cons, IH. destruct (decide (CInt z ∉ S)); reflexivity.
Qed.

Lemma years_up_to_ints (bound : Z) ys :
  years_up_to bound (map CInt ys) = Ok (map CInt (filter (fun z => z <= bound) ys)).
Proof.
  induction ys as [|z ys IH]; [reflexivity|].
  simpl. rewrite IH. simpl. rewrite filter_cons.
  destruct (Z.leb_spec z bound); destruct (decide (z <= bound)); try lia; reflexivity.
Qed.

Lemma min_from_ints (m : Z) ys : exists lo, Py.min_from (CInt m) (map CInt ys) = Ok lo.
Proof.
  revert m. induction ys as [|z ys IH]; intros m; simpl; [eauto|].
  destruct (z <? m)%Z; apply IH.
Qed.

Lemma max_from_ints (m : Z) ys : exists hi, Py.max_from (CInt m) (map CInt ys) = Ok hi.
Proof.
  revert m. induction ys as [|z ys IH]; intros m; simpl; [eauto|].
  destruct (m <? z)%Z; apply IH.
Qed.

(** The bootstrap branch, run on integer keys. *)
Lemma get_years_to_process_then w t ys :
  get_processed_years (state w) t = ∅ ->
  exists m,
    get_years_to_process t (map CInt ys) true w =
    (Py.sorted (map CInt (filter (fun z => z <= Config.INITIAL_LOAD_YEAR) ys)),
     add_log (INFO, m) w).
Proof.
  intros Hempty. unfold get_years_to_process. rewrite run_gets_bind.
  rewrite Hempty, bool_decide_eq_true_2 by reflexivity. simpl andb. cbv iota.
  rewrite run_bind, run_bind. unfold lift at 1. rewrite years_up_to_ints.
  destruct (filter _ ys) as [|z zs] eqn:Hf.
  - eexists. reflexivity.
  - cbn [map]. rewrite run_bind, run_lift_bind. cbn [Py.min Py.max].
    destruct (min_from_ints z zs) as [lo ->].
    rewrite run_lift_bind.
    destruct (max_from_ints z zs) as [hi ->].
    eexists. reflexivity.
Qed.

Lemma elem_of_map_CInt (y : Z) ys : CInt y ∈ map CInt ys <-> y ∈ ys.
Proof.
  rewrite !list_elem_of_In, in_map_iff. split.
  - intros (x & [= ->] & Hx). exact Hx.
  - intros Hy. exists y. auto.
Qed.

(** C6.  In incremental mode (bootstrap not requested, or some partition
    already processed for the table) the planner returns exactly the
    available partitions that are not in the processed set, whatever
    their position relative to the bootstrap cutoff, in strictly
    ascending order and hence without duplicates. *)
Theorem planner_incremental_difference (w : World) (t : string) (ys : list Z) (b : bool) :
  NoDup ys ->
  b = false \/ get_processed_years (state w) t <> ∅ ->
  exists zs w',
    get_years_to_process t (map CInt ys) b w = (Ok (map CInt zs), w')
    /\ (forall y, y ∈ zs <-> y ∈ ys /\ CInt y ∉ get_processed_years (state w) t)
    /\ StronglySorted Z.lt zs
    /\ NoDup zs
    /\ state w' = state w.
Proof.
  intros Hnd Hmode.
  rewrite (get_years_to_process_else w t _ b Hmode). cbv zeta.
  rewrite filter_unprocessed_ints.
  set (todo := filter (fun z => CInt z ∉ get_processed_years (state w) t) ys).
  destruct (sorted_ints todo) as (zs & -> & Hp & Hs).
  assert (Hnd' : NoDup zs).
  { rewrite Hp. apply NoDup_filter, Hnd. }
  eexists zs, _. split; [reflexivity|].
  split; [|split; [|split]].
  - intros y. rewrite Hp. unfold todo. rewrite list_elem_of_filter. tauto.
  - apply sorted_nodup_strict; assumption.
  - exact Hnd'.
  - reflexivity.
Qed.

Lemma planner_incremental_difference_witness :
  exists zs w',
    get_years_to_process "results" (map CInt [2012; 2005; 2008]) true Examples.world_2005
    = (Ok (map CInt zs), w')
    /\ (forall y, y ∈ zs <-> y ∈ [2012; 2005; 2008]
                             /\ CInt y ∉ get_processed_years (state Examples.world_2005) "results")
    /\ StronglySorted Z.lt zs
    /\ NoDup zs
    /\ state w' = state Examples.world_2005.
Proof.
  apply (planner_incremental_difference Examples.world_2005 "results" [2012; 2005; 2008] true).
  - apply (bool_decide_unpack _). vm_compute. exact I.
  - right. apply (bool_decide_unpack _). vm_compute. exact I.
Defined.

(** C2 (amended).  The planner runs in bootstrap mode exactly when the
    caller requests bootstrap and no partition is processed yet for the
    table: it then returns the available keys at or before the cutoff,
    sorted.  In every other case, an explicit request with a non-empty
    processed set included, it returns the available keys that are not
    processed, sorted. *)
Theorem planner_mode_selection (w : World) (t : string) (ys : list Z) (b : bool) :
  exists zs w',
    get_years_to_process t (map CInt ys) b w = (Ok (map CInt zs), w')
    /\ Sorted Z.le zs
    /\ zs ≡ₚ (if b && bool_decide (get_processed_years (state w) t = ∅)
              then filter (fun z => z <= Config.INITIAL_LOAD_YEAR) ys
              else filter (fun z => CInt z ∉ get_processed_years (state w) t) ys)
    /\ state w' = state w.
Proof.
  destruct (b && bool_decide (get_processed_years (state w) t = ∅)) eqn:Hmode.
  - apply andb_true_iff in Hmode as [-> Hempty%bool_decide_eq_true].
    destruct (get_years_to_process_then w t ys Hempty) as [m ->].
    destruct (sorted_ints (filter (fun z => z <= Config.INITIAL_LOAD_YEAR) ys))
      as (zs & -> & Hp & Hs).
    eexists zs, _. repeat split; auto.
  - assert (Helse : b = false \/ get_processed_years (state w) t <> ∅).
    { apply andb_false_iff in Hmode as [->|Hne%bool_decide_eq_false]; auto. }
    rewrite (get_years_to_process_else w t _ b Helse). cbv zeta.
    rewrite filter_unprocessed_ints.
    destruct (sorted_ints (filter (fun z => CInt z ∉ get_processed_years (state w) t) ys))
      as (zs & -> & Hp & Hs).
    eexists zs, _. repeat split; auto.
Qed.

(** C2 as stated fails in both directions: an explicit bootstrap request
    on a table with a processed partition is planned incrementally, and a
    table with nothing processed is planned incrementally when bootstrap
    is not requested. *)
Lemma planner_forced_bootstrap_counterexample :
  let available := [CInt 2005; CInt 2008; CInt 2012] in
  let bootstrap_selection :=
    years_up_to Config.INITIAL_LOAD_YEAR available ≫= Py.sorted in
  bootstrap_selection = Ok [CInt 2005; CInt 2008]
  /\ (get_processed_years (state Examples.world_2005) "results" <> ∅
      /\ (get_years_to_process "results" available true Examples.world_2005).1
         = Ok [CInt 2008; CInt 2012]
      /\ (get_years_to_process "results" available true Examples.world_2005).1
         <> bootstrap_selection)
  /\ (get_processed_years (state Examples.empty_world) "results" = ∅
      /\ (get_years_to_process "results" available false Examples.empty_world).1
         = Ok [CInt 2005; CInt 2008; CInt 2012]
      /\ (get_years_to_process "results" available false Examples.empty_world).1
         <> bootstrap_selection).
Proof.
  cbv zeta. split; [|split; split; [|split| |split]].
  - vm_compute. reflexivity.
  - apply (bool_decide_unpack _). vm_compute. exact I.
  - vm_compute. reflexivity.
  - vm_compute. discriminate.
  - reflexivity.
  - vm_compute. reflexivity.
  - vm_compute. discriminate.
Qed.

End Planner.

(** ** The state file *)

Section StateFile.

Import Json IncrementalProcessor.

Lemma decode_encode_cell (c : cell) : decode_cell (encode_cell c) = Some c.
Proof. destruct c; reflexivity. Qed.

Lemma encode_cells_cons (c c' : cell) (cs : list cell) :
  encode_cells (c :: c' :: cs) = encode_cell c :: Comma :: encode_cells (c' :: cs).
Proof. reflexivity. Qed.

Lemma decode_cells_tail_comma (t : json_token) (ts : list json_token) :
  decode_cells_tail (Comma :: t :: ts) =
  (c ← decode_cell t; '(cs, rest) ← decode_cells_tail ts; Some (c :: cs, rest)).
Proof. reflexivity. Qed.

Lemma decode_cells_first (c : cell) (ts : list json_token) :
  decode_cells (encode_cell c :: ts) =
  ('(cs, rest) ← decode_cells_tail ts; Some (c :: cs, rest)).
Proof. destruct c; reflexivity. Qed.

Lemma decode_cells_tail_encode (cs : list cell) (rest : list json_token) :
  decode_cells_tail
    (match cs with
     | [] => RBracket :: rest
     | _ :: _ => Comma :: encode_cells cs ++ RBracket :: rest
     end) = Some (cs, rest).
Proof.
  induction cs as [|c cs IH]; [reflexivity|].
  destruct cs as [|c' cs].
  - cbn [encode_cells app]. rewrite decode_cells_tail_comma, decode_encode_cell.
    reflexivity.
  - rewrite encode_cells_cons. cbn [app].
    rewrite decode_cells_tail_comma, decode_encode_cell.
    cbn [mbind option_bind]. rewrite IH. reflexivity.
Qed.

Lemma decode_cells_encode (cs : list cell) (rest : list json_token) :
  decode_cells (encode_cells cs ++ RBracket :: rest) = Some (cs, rest).
Proof.
  destruct cs as [|c cs]; [reflexivity|].
  pose proof (decode_cells_tail_encode cs rest) as Htail.
  destruct cs as [|c' cs].
  - cbn [encode_cells app]. rewrite decode_cells_first. reflexivity.
  - rewrite encode_cells_cons. cbn [app]. rewrite decode_cells_first, Htail. reflexivity.
Qed.

Lemma decode_entry_encode (e : TableState) (rest : list json_token) :
  decode_entry (encode_entry e ++ rest) = Some (e, rest).
Proof.
  destruct e as [cs [ts|]]; unfold encode_entry; cbn [processed_years last_update].
  - cbn [app decode_entry]. rewrite bool_decide_eq_true_2 by reflexivity.
    rewrite <- !app_assoc. cbn [app]. rewrite decode_cells_encode.
    cbn [mbind option_bind]. rewrite bool_decide_eq_true_2 by reflexivity. reflexivity.
  - cbn [app decode_entry]. rewrite bool_decide_eq_true_2 by reflexivity.
    rewrite <- !app_assoc. cbn [app]. rewrite decode_cells_encode. reflexivity.
Qed.

Lemma encode_items_cons (k : string) (e : TableState) (l : list (string * TableState)) :
  encode_items ((k, e) :: l) ++ [RBrace] =
  JString k :: Colon :: encode_entry e ++
    match l with
    | [] => [RBrace]
    | _ :: _ => Comma :: encode_items l ++ [RBrace]
    end.
Proof.
  destruct l as [|[k' e'] l].
  - reflexivity.
  - change (encode_items ((k, e) :: (k', e') :: l))
      with (JString k :: Colon :: encode_entry e ++ Comma :: encode_items ((k', e') :: l)).
    cbn [app]. rewrite <- app_assoc. reflexivity.
Qed.

Lemma decode_items_rest (l : list (string * TableState)) (fuel : nat) :
  (length l < fuel)%nat ->
  decode_items fuel false
    (match l with
     | [] => [RBrace]
     | _ :: _ => Comma :: encode_items l ++ [RBrace]
     end) = Some l.
Proof.
  revert fuel. induction l as [|[k e] l IH]; intros [|fuel] Hfuel; simpl in Hfuel; try lia.
  - reflexivity.
  - rewrite encode_items_cons. cbn [decode_items strip_separator mbind option_bind].
    rewrite decode_entry_encode. cbn [mbind option_bind].
    rewrite IH by lia. reflexivity.
Qed.

Lemma decode_items_encode (l : list (string * TableState)) (fuel : nat) :
  (length l < fuel)%nat ->
  decode_items fuel true (encode_items l ++ [RBrace]) = Some l.
Proof.
  destruct l as [|[k e] l]; intros Hfuel; destruct fuel as [|fuel]; simpl in Hfuel; try lia.
  - reflexivity.
  - rewrite encode_items_cons. cbn [decode_items strip_separator mbind option_bind].
    rewrite decode_entry_encode. cbn [mbind option_bind].
    rewrite decode_items_rest by lia. reflexivity.
Qed.

Lemma encode_items_length (l : list (string * TableState)) :
  (length l <= length (encode_items l))%nat.
Proof.
  induction l as [|[k e] l IH]; [reflexivity|].
  destruct l as [|[k' e'] l].
  - simpl. lia.
  - change (encode_items ((k, e) :: (k', e') :: l))
      with (JString k :: Colon :: encode_entry e ++ Comma :: encode_items ((k', e') :: l)).
    cbn [length]. rewrite length_app. cbn [length] in *. lia.
Qed.

Lemma decode_encode (st : gmap string TableState) :
  decode (encode st) = Some st.
Proof.
  unfold decode, encode.
  rewrite decode_items_encode.
  - cbn [mbind option_bind]. f_equal.
    rewrite <- (list_to_map_to_list st) at 2.
    apply list_to_map_proper.
    + rewrite fmap_reverse, reverse_Permutation. apply NoDup_fst_map_to_list.
    + apply reverse_Permutation.
  - rewrite length_app. pose proof (encode_items_length (map_to_list st)). simpl. lia.
Qed.

Implicit Types (p k rest : list json_token).

(** *** A truncated file does not decode *)


Lemma decode_cells_tail_prefix (n : nat) p k cs rest :
  (length p <= n)%nat ->
  decode_cells_tail (p ++ k) = Some (cs, rest) ->
  decode_cells_tail p = None
  \/ exists rest', decode_cells_tail p = Some (cs, rest') /\ rest = rest' ++ k.
Proof.
  revert p cs rest. induction n as [|n IH]; intros p cs rest Hlen H.
  - destruct p; [left; reflexivity|simpl in Hlen; lia].
  - destruct p as [|t1 p]; [left; reflexivity|].
    destruct t1; try (simpl in H; discriminate).
    + injection H as <- <-. right. eexists. split; reflexivity.
    + destruct p as [|t2 p]; [left; reflexivity|].
      cbn [app] in H. rewrite decode_cells_tail_comma in *.
      destruct (decode_cell t2) as [c|]; [|left; reflexivity].
      cbn [mbind option_bind] in *.
      destruct (decode_cells_tail (p ++ k)) as [[cs' rest0]|] eqn:Hfull; [|discriminate].
      injection H as <- <-.
      destruct (IH p cs' rest0) as [->|(rest' & -> & ->)]; auto.
      { simpl in Hlen. lia. }
      right. eexists. split; reflexivity.
Qed.

Lemma decode_cells_prefix p k cs rest :
  decode_cells (p ++ k) = Some (cs, rest) ->
  decode_cells p = None
  \/ exists rest', decode_cells p = Some (cs, rest') /\ rest = rest' ++ k.
Proof.
  intros H. destruct p as [|t1 p]; [left; reflexivity|].
  cbn [app] in H.
  destruct t1; try (simpl in H; discriminate).
  - injection H as <- <-. right. eexists. split; reflexivity.
  - unfold decode_cells in *. cbn [decode_cell mbind option_bind] in *.
    destruct (decode_cells_tail (p ++ k)) as [[cs' rest0]|] eqn:Hfull; [|discriminate].
    injection H as <- <-.
    destruct (decode_cells_tail_prefix (length p) p k cs' rest0) as [->|(rest' & -> & ->)]; auto.
    right. eexists. split; reflexivity.
  - unfold decode_cells in *. cbn [decode_cell mbind option_bind] in *.
    destruct (decode_cells_tail (p ++ k)) as [[cs' rest0]|] eqn:Hfull; [|discriminate].
    injection H as <- <-.
    destruct (decode_cells_tail_prefix (length p) p k cs' rest0) as [->|(rest' & -> & ->)]; auto.
    right. eexists. split; reflexivity.
  - unfold decode_cells in *. cbn [decode_cell mbind option_bind] in *.
    destruct (decode_cells_tail (p ++ k)) as [[cs' rest0]|] eqn:Hfull; [|discriminate].
    injection H as <- <-.
    destruct (decode_cells_tail_prefix (length p) p k cs' rest0) as [->|(rest' & -> & ->)]; auto.
    right. eexists. split; reflexivity.
Qed.

Lemma decode_entry_prefix p k e rest :
  decode_entry (p ++ k) = Some (e, rest) ->
  decode_entry p = None
  \/ exists rest', decode_entry p = Some (e, rest') /\ rest = rest' ++ k.
Proof.
  intros H.
  destruct p as [|t1 p]; [left; reflexivity|].
  destruct t1; try (simpl in H; discriminate).
  destruct p as [|t2 p]; [left; reflexivity|].
  destruct t2; try (simpl in H; discriminate).
  destruct p as [|t3 p]; [left; reflexivity|].
  destruct t3; try (simpl in H; discriminate).
  destruct p as [|t4 p]; [left; reflexivity|].
  destruct t4; try (simpl in H; discriminate).
  cbn [app decode_entry] in *.
  destruct (bool_decide (_ = "processed_years")); [|discriminate].
  destruct (decode_cells (p ++ k)) as [[cs rest0]|] eqn:Hfull; [|discriminate].
  cbn [mbind option_bind] in H.
  destruct (decode_cells_prefix p k cs rest0 Hfull) as [->|(rest' & -> & ->)];
    [left; reflexivity|].
  cbn [mbind option_bind].
  destruct rest' as [|r1 rest']; [left; reflexivity|].
  destruct r1; try (simpl in H; discriminate).
  - cbn [app] in H. injection H as <- <-. right. eexists. split; reflexivity.
  - destruct rest' as [|r2 rest']; [left; reflexivity|].
    destruct r2; try (simpl in H; discriminate).
    destruct rest' as [|r3 rest']; [left; reflexivity|].
    destruct r3; try (simpl in H; discriminate).
    destruct rest' as [|r4 rest']; [left; reflexivity|].
    destruct r4; try (simpl in H; discriminate).
    destruct rest' as [|r5 rest']; [left; reflexivity|].
    destruct r5; try (simpl in H; discriminate).
    cbn [app] in H.
    destruct (bool_decide (_ = "last_update")); [|discriminate].
    injection H as <- <-. right. eexists. split; reflexivity.
Qed.


Lemma decode_items_unfold (fuel : nat) (first : bool) (ts : list json_token) :
  decode_items (S fuel) first ts =
  if bool_decide (ts = [RBrace]) then Some []
  else
    ts1 ← strip_separator first ts;
    match ts1 with
    | JString key :: Colon :: ts2 =>
        '(e, rest) ← decode_entry ts2;
        items ← decode_items fuel false rest;
        Some ((key, e) :: items)
    | _ => None
    end.
Proof.
  destruct ts as [|[] [|t ts]]; try reflexivity.
Qed.

Lemma decode_items_proper_prefix (fuel' fuel : nat) (first : bool) p k items :
  k <> [] ->
  decode_items fuel first (p ++ k) = Some items ->
  decode_items fuel' first p = None.
Proof.
  intros Hk. revert fuel first p items.
  induction fuel' as [|fuel' IH]; intros fuel first p items H; [reflexivity|].
  destruct fuel as [|fuel]; [discriminate|].
  rewrite decode_items_unfold in *.
  destruct (decide (p ++ k = [RBrace])) as [Heq|Hne].
  - destruct p as [|t p].
    + rewrite bool_decide_eq_false_2 by discriminate.
      destruct first; reflexivity.
    + destruct p; [|destruct p; discriminate].
      destruct k; [congruence|discriminate].
  - rewrite (bool_decide_eq_false_2 _ Hne) in H.
    destruct (decide (p = [RBrace])) as [->|Hp].
    + exfalso. destruct first; simpl in H; discriminate.
    + rewrite (bool_decide_eq_false_2 _ Hp).
      assert (Hstrip : strip_separator first p = None
                       \/ exists p1, strip_separator first p = Some p1
                                     /\ strip_separator first (p ++ k) = Some (p1 ++ k)).
      { destruct first; simpl; [right; eauto|].
        destruct p as [|[] p]; auto. right. eauto. }
      destruct Hstrip as [->|(p1 & -> & Hfull)]; [reflexivity|].
      rewrite Hfull in H. cbn [mbind option_bind] in *.
      destruct p1 as [|[] [|[] p2]]; try reflexivity; try (simpl in H; discriminate).
      cbn [app] in H.
      destruct (decode_entry (p2 ++ k)) as [[e rest]|] eqn:He; [|discriminate].
      cbn [mbind option_bind] in H.
      destruct (decode_entry_prefix p2 k e rest He) as [->|(rest' & -> & ->)];
        [reflexivity|].
      cbn [mbind option_bind].
      destruct (decode_items fuel false (rest' ++ k)) as [items'|] eqn:Hi; [|discriminate].
      rewrite (IH _ _ _ _ Hi). reflexivity.
Qed.

Lemma decode_proper_prefix (ts : list json_token) (st : gmap string TableState) (n : nat) :
  decode ts = Some st -> (n < length ts)%nat -> decode (take n ts) = None.
Proof.
  intros H Hn.
  destruct ts as [|t ts]; [discriminate|].
  destruct n as [|n]; [reflexivity|].
  destruct t; try discriminate.
  cbn [take]. unfold decode in *.
  destruct (decode_items (S (length ts)) true ts) as [items|] eqn:Hi; [|discriminate].
  rewrite <- (take_drop n ts) in Hi.
  erewrite decode_items_proper_prefix; [reflexivity| |exact Hi].
  intros Hnil. apply (f_equal length) in Hnil. rewrite length_drop in Hnil.
  simpl in Hn, Hnil. lia.
Qed.

(** *** Saving, completely and up to a crash *)

Lemma run_ops_writes (toks acc : list json_token) :
  run_ops (map WriteToken toks) (Some acc) = Some (acc ++ toks).
Proof.
  revert acc. induction toks as [|t toks IH]; intros acc.
  - rewrite app_nil_r. reflexivity.
  - cbn [map run_ops fold_left apply_op default]. 
    change (fold_left apply_op (map WriteToken toks) (Some (acc ++ [t])))
      with (run_ops (map WriteToken toks) (Some (acc ++ [t]))).
    rewrite IH, <- app_assoc. reflexivity.
Qed.

Lemma run_ops_app (ops1 ops2 : list file_op) (f : option (list json_token)) :
  run_ops (ops1 ++ ops2) f = run_ops ops2 (run_ops ops1 f).
Proof. apply fold_left_app. Qed.

Lemma run_save_ops (st : gmap string TableState) (f : option (list json_token)) :
  run_ops (save_ops st) f = Some (encode st).
Proof.
  unfold save_ops.
  change (run_ops (OpenTruncate :: ?l) f) with (run_ops l (Some [])).
  rewrite run_ops_app, run_ops_writes. reflexivity.
Qed.

Lemma run_save_ops_take (n : nat) (st : gmap string TableState)
      (f : option (list json_token)) :
  run_ops (take (S n) (save_ops st)) f = Some (take n (encode st)).
Proof.
  unfold save_ops. cbn [take].
  change (run_ops (OpenTruncate :: ?l) f) with (run_ops l (Some [])).
  destruct (decide (n <= length (encode st))%nat) as [Hle|Hgt].
  - rewrite take_app_le by (rewrite length_map; exact Hle).
    rewrite firstn_map, run_ops_writes. reflexivity.
  - rewrite take_ge by (rewrite length_app, length_map; cbn [length]; lia).
    rewrite run_ops_app, run_ops_writes. cbn [run_ops fold_left apply_op app].
    rewrite take_ge by lia. reflexivity.
Qed.

(** C3 (amended).  [_save_state], the last step of
    [mark_years_processed], persists the whole state by overwriting the
    state file in place.  A save that completes leaves
    the full serialisation of the new state, and the next load returns
    that state.  A process that dies before the file is opened leaves the
    file as it was; one that dies after the file is opened and [n] tokens
    are written leaves exactly the first [n] tokens of the new
    serialisation, and as long as tokens are missing the next load raises
    instead of returning the previous or the new state. *)
Theorem save_state_overwrites_in_place (w : World) (n : nat) :
  let new := encode (state w) in
  (exists w', _save_state w = (Ok tt, w')
              /\ state_file w' = Some new
              /\ (_load_state w').1 = Ok (state w))
  /\ state_file (crash_in_save 0 w) = state_file w
  /\ state_file (crash_in_save (S n) w) = Some (take n new)
  /\ (_load_state (crash_in_save (S n) w)).1 =
     if bool_decide (n < length new)%nat then Raise JSONDecodeError else Ok (state w).
Proof.
  cbv zeta. split; [|split; [|split]].
  - eexists. split; [reflexivity|]. split.
    + exact (run_save_ops _ _).
    + unfold _load_state. cbn [state_file add_log set_state_file].
      rewrite run_save_ops, decode_encode. reflexivity.
  - reflexivity.
  - exact (run_save_ops_take _ _ _).
  - unfold _load_state, crash_in_save. cbn [state_file set_state_file].
    rewrite run_save_ops_take.
    case_bool_decide as Hn.
    + rewrite (decode_proper_prefix _ (state w) n (decode_encode _) Hn). reflexivity.
    + rewrite take_ge by lia. rewrite decode_encode. reflexivity.
Qed.

(** C3 as stated fails: with [state_2005] on disk and [state_2008] in
    memory, a crash right after [open(..., 'w')] leaves an empty file, on
    which the next load raises. *)
Lemma save_state_crash_counterexample :
  let w := Examples.world_saving in
  (_load_state w).1 = Ok Examples.state_2005
  /\ state w = Examples.state_2008
  /\ state_file (crash_in_save 1 w) = Some []
  /\ (_load_state (crash_in_save 1 w)).1 = Raise JSONDecodeError
  /\ (_load_state (crash_in_save 1 w)).1 <> Ok Examples.state_2005
  /\ (_load_state (crash_in_save 1 w)).1 <> Ok Examples.state_2008.
Proof.
  cbv zeta. split; [|split; [|split; [|split; [|split]]]].
  - vm_compute. reflexivity.
  - reflexivity.
  - reflexivity.
  - reflexivity.
  - discriminate.
  - discriminate.
Qed.

End StateFile.

(** ** Schema reconciliation *)

Section Reconcile.

Import IncrementalProcessor.

Lemma find_column_name (c : string) (df : DataFrame) (s : Series) :
  Frame.find_column c df = Some s -> name s = c.
Proof.
  induction df as [|s' df IH]; [discriminate|].
  simpl. case_bool_decide; [intros [= <-]; assumption|exact IH].
Qed.

Lemma find_column_is_Some (c : string) (df : DataFrame) :
  c ∈ Frame.columns df -> exists s, Frame.find_column c df = Some s.
Proof.
  induction df as [|s' df IH]; simpl.
  - intros H. inversion H.
  - intros H. case_bool_decide; [eauto|].
    apply IH. apply elem_of_cons in H as [->|H]; [congruence|exact H].
Qed.

Lemma select_projected (cs : list string) (df : DataFrame) :
  (forall c, c ∈ cs -> c ∈ Frame.columns df) ->
  Frame.select cs df = Ok (projected cs df).
Proof.
  induction cs as [|c cs IH]; intros Hin; [reflexivity|].
  cbn [Frame.select]. unfold Frame.column.
  destruct (find_column_is_Some c df) as [s Hs]; [apply Hin; left|].
  rewrite Hs. cbn [mbind result_bind]. rewrite IH.
  - cbn [mbind result_bind projected map]. unfold values_of. rewrite Hs.
    rewrite <- (find_column_name c df s Hs). destruct s; reflexivity.
  - intros c' Hc'. apply Hin. right. exact Hc'.
Qed.

Lemma columns_projected (cs : list string) (df : DataFrame) :
  Frame.columns (projected cs df) = cs.
Proof.
  unfold Frame.columns, projected. rewrite map_map. apply map_id.
Qed.

Lemma values_of_projected (cs : list string) (c : string) (df : DataFrame) :
  c ∈ cs -> values_of c (projected cs df) = values_of c df.
Proof.
  induction cs as [|c' cs IH]; intros Hc; [inversion Hc|].
  unfold values_of at 1. cbn [projected map Frame.find_column name].
  case_bool_decide as Heq.
  - subst. reflexivity.
  - apply elem_of_cons in Hc as [->|Hc]; [congruence|]. apply IH, Hc.
Qed.

Lemma zip_projected (cs : list string) (a b : DataFrame) :
  zip_with (fun x y => {| name := name x; values := values x ++ values y |})
           (projected cs a) (projected cs b)
  = stacked cs a b.
Proof.
  induction cs as [|c cs IH]; [reflexivity|].
  cbn [projected stacked map zip_with]. f_equal. exact IH.
Qed.

Lemma concat_projected (cs : list string) (a b : DataFrame) :
  Frame.concat (projected cs a) (projected cs b) = Ok (stacked cs a b).
Proof.
  unfold Frame.concat. rewrite !columns_projected.
  rewrite bool_decide_eq_true_2 by reflexivity. rewrite zip_projected. reflexivity.
Qed.

Lemma height_projected (cs : list string) (a : DataFrame) :
  Frame.height (projected cs a) = match cs with [] => 0%nat | c :: _ => length (values_of c a) end.
Proof. destruct cs; reflexivity. Qed.

Lemma elem_of_sorted_common (c : string) (a b : gset string) :
  c ∈ Py.sorted_str (elements (a ∩ b)) <-> c ∈ a /\ c ∈ b.
Proof.
  unfold Py.sorted_str. rewrite merge_sort_Permutation, elem_of_elements.
  apply elem_of_intersection.
Qed.


Lemma align_schemas_mismatch (w : World) (df_existing df_transformed : DataFrame) :
  let existing_cols : gset string := list_to_set (Frame.columns df_existing) in
  let new_cols : gset string := list_to_set (Frame.columns df_transformed) in
  let common := Py.sorted_str (elements (existing_cols ∩ new_cols)) in
  existing_cols <> new_cols ->
  align_schemas df_existing df_transformed w =
  (Ok (projected common df_existing, projected common df_transformed),
   add_log (WARNING, MsgNewOnly (new_cols ∖ existing_cols))
     (add_log (WARNING, MsgExistingOnly (existing_cols ∖ new_cols))
        (add_log (WARNING, MsgSchemaMismatch) w))).
Proof.
  intros existing_cols new_cols common Hne. unfold align_schemas.
  fold existing_cols new_cols. rewrite bool_decide_eq_true_2 by exact Hne.
  fold common.
  unfold logger_warning. rewrite !run_modify_bind, !run_lift_bind.
  rewrite !select_projected; [reflexivity| |].
  - intros c Hc. apply elem_of_sorted_common in Hc as [_ Hc].
    apply elem_of_list_to_set in Hc. exact Hc.
  - intros c Hc. apply elem_of_sorted_common in Hc as [Hc _].
    apply elem_of_list_to_set in Hc. exact Hc.
Qed.

(** C7.  When the merged file exists, the run is not an initial load and
    the column sets differ, both frames are projected to the sorted list
    of their common columns before the concatenation, a warning names the
    columns found on one side only, and the merged frame has exactly the
    common columns, each holding the existing cells followed by the
    incoming ones: nothing is invented, cast or filled. *)
Theorem schema_mismatch_projects_to_common
        (w : World) (t : string) (df_existing df_transformed : DataFrame) :
  let existing_cols : gset string := list_to_set (Frame.columns df_existing) in
  let new_cols : gset string := list_to_set (Frame.columns df_transformed) in
  let common := Py.sorted_str (elements (existing_cols ∩ new_cols)) in
  silver w !! t = Some (Parquet df_existing) ->
  existing_cols <> new_cols ->
  exists w',
    merge_with_silver t false df_transformed w
    = (Ok (stacked common df_existing df_transformed,
           projected common df_transformed), w')
    /\ Frame.select common df_existing = Ok (projected common df_existing)
    /\ Frame.select common df_transformed = Ok (projected common df_transformed)
    /\ Frame.concat (projected common df_existing) (projected common df_transformed)
       = Ok (stacked common df_existing df_transformed)
    /\ Frame.columns (stacked common df_existing df_transformed) = common
    /\ Sorted String.le common
    /\ (forall c, c ∈ common <->
                  c ∈ Frame.columns df_existing /\ c ∈ Frame.columns df_transformed)
    /\ log w' = log w ++
         [ (WARNING, MsgSchemaMismatch);
           (WARNING, MsgExistingOnly (existing_cols ∖ new_cols));
           (WARNING, MsgNewOnly (new_cols ∖ existing_cols));
           (INFO, MsgAppending (Frame.height (projected common df_transformed))
                               (Frame.height (projected common df_existing))) ]
    /\ silver w' = silver w /\ state w' = state w.
Proof.
  intros existing_cols new_cols common Hsilver Hne.
  assert (Hmem : forall c, c ∈ common <->
                  c ∈ Frame.columns df_existing /\ c ∈ Frame.columns df_transformed).
  { intros c. unfold common. rewrite elem_of_sorted_common.
    unfold existing_cols, new_cols. rewrite !elem_of_list_to_set. reflexivity. }
  eexists. split; [|split; [|split; [|split; [|split; [|split; [|split]]]]]].
  - unfold merge_with_silver. rewrite run_gets_bind, Hsilver.
    rewrite bool_decide_eq_true_2 by eauto. cbn [andb negb].
    rewrite run_bind. unfold read_parquet at 1. rewrite Hsilver.
    rewrite run_bind.
    rewrite (align_schemas_mismatch w df_existing df_transformed Hne).
    fold existing_cols new_cols common.
    rewrite run_lift_bind, concat_projected.
    unfold logger_info. rewrite run_modify_bind. reflexivity.
  - apply select_projected. intros c Hc. apply Hmem in Hc. tauto.
  - apply select_projected. intros c Hc. apply Hmem in Hc. tauto.
  - apply concat_projected.
  - unfold Frame.columns, stacked. rewrite map_map. apply map_id.
  - apply Sorted_merge_sort. apply _.
  - exact Hmem.
  - cbn [log add_log silver state]. rewrite <- !app_assoc. auto.
Qed.

Lemma schema_mismatch_projects_to_common_witness :
  let existing_cols : gset string := list_to_set (Frame.columns Examples.frame_ABD) in
  let new_cols : gset string := list_to_set (Frame.columns Examples.frame_ABC) in
  let common := Py.sorted_str (elements (existing_cols ∩ new_cols)) in
  exists w',
    merge_with_silver "results" false Examples.frame_ABC Examples.world_ABD
    = (Ok (stacked common Examples.frame_ABD Examples.frame_ABC,
           projected common Examples.frame_ABC), w')
    /\ Frame.select common Examples.frame_ABD = Ok (projected common Examples.frame_ABD)
    /\ Frame.select common Examples.frame_ABC = Ok (projected common Examples.frame_ABC)
    /\ Frame.concat (projected common Examples.frame_ABD)
                    (projected common Examples.frame_ABC)
       = Ok (stacked common Examples.frame_ABD Examples.frame_ABC)
    /\ Frame.columns (stacked common Examples.frame_ABD Examples.frame_ABC) = common
    /\ Sorted String.le common
    /\ (forall c, c ∈ common <->
                  c ∈ Frame.columns Examples.frame_ABD
                  /\ c ∈ Frame.columns Examples.frame_ABC)
    /\ log w' = log Examples.world_ABD ++
         [ (WARNING, MsgSchemaMismatch);
           (WARNING, MsgExistingOnly (existing_cols ∖ new_cols));
           (WARNING, MsgNewOnly (new_cols ∖ existing_cols));
           (INFO, MsgAppending (Frame.height (projected common Examples.frame_ABC))
                               (Frame.height (projected common Examples.frame_ABD))) ]
    /\ silver w' = silver Examples.world_ABD /\ state w' = state Examples.world_ABD.
Proof.
  apply (schema_mismatch_projects_to_common
           Examples.world_ABD "results" Examples.frame_ABD Examples.frame_ABC).
  - reflexivity.
  - apply (bool_decide_unpack _). vm_compute. exact I.
Defined.

(** The narrowing example of the specification: {A,B,C} merged into
    {A,B,D} gives exactly the columns A and B, and the warnings name D
    and C. *)
Example schema_narrowing_ABC_into_ABD :
  exists w',
    merge_with_silver "results" false Examples.frame_ABC Examples.world_ABD
    = (Ok ([ {| name := "A"; values := [CInt 1; CInt 10; CInt 11] |};
             {| name := "B"; values := [CInt 2; CInt 20; CInt 21] |} ],
           [ {| name := "A"; values := [CInt 10; CInt 11] |};
             {| name := "B"; values := [CInt 20; CInt 21] |} ]), w')
    /\ log w' = [ (WARNING, MsgSchemaMismatch);
                  (WARNING, MsgExistingOnly {[ "D" ]});
                  (WARNING, MsgNewOnly {[ "C" ]});
                  (INFO, MsgAppending 2 1) ].
Proof.
  eexists. split.
  - vm_compute. reflexivity.
  - vm_compute. reflexivity.
Qed.

End Reconcile.

(** ** Composing computations under a relation *)

Section Respects.

Context (R : relation World).

Lemma respects_mret {A} (a : A) : respects R (mret a : M A).
Proof. intros w1 w2 H. split; [reflexivity|exact H]. Qed.

Lemma respects_lift {A} (r : result A) : respects R (lift r).
Proof. intros w1 w2 H. split; [reflexivity|exact H]. Qed.

Lemma respects_bind {A B} (m : M A) (k : A -> M B) :
  respects R m -> (forall a, respects R (k a)) -> respects R (m ≫= k).
Proof.
  intros Hm Hk w1 w2 H. rewrite !run_bind.
  destruct (Hm w1 w2 H) as [Hres Hw].
  destruct (m w1) as [[a1|e1] w1'], (m w2) as [[a2|e2] w2']; simpl in *;
    try discriminate.
  - injection Hres as ->. apply Hk, Hw.
  - injection Hres as ->. split; [reflexivity|assumption].
Qed.

Lemma respects_gets {A} (f : World -> A) :
  (forall w1 w2, R w1 w2 -> f w1 = f w2) -> respects R (gets f).
Proof. intros Hf w1 w2 H. split; [simpl; f_equal; apply Hf, H|exact H]. Qed.

Lemma respects_modify (f : World -> World) :
  (forall w1 w2, R w1 w2 -> R (f w1) (f w2)) -> respects R (modify f).
Proof. intros Hf w1 w2 H. split; [reflexivity|apply Hf, H]. Qed.

Lemma respects_read_parquet (dir : World -> gmap string parquet_file) (t : string) :
  (forall w1 w2, R w1 w2 -> dir w1 !! t = dir w2 !! t) ->
  respects R (read_parquet dir t).
Proof.
  intros Hdir w1 w2 H. unfold read_parquet. rewrite (Hdir w1 w2 H).
  destruct (dir w2 !! t) as [[df|]|]; split; auto.
Qed.

Lemma respects_try_except {A} (m : M A) (h : exn -> M A) :
  respects R m -> (forall e, respects R (h e)) -> respects R (try_except m h).
Proof.
  intros Hm Hh w1 w2 H. unfold try_except.
  destruct (Hm w1 w2 H) as [Hres Hw].
  destruct (m w1) as [[a1|e1] w1'], (m w2) as [[a2|e2] w2']; simpl in *;
    try discriminate.
  - split; assumption.
  - injection Hres as ->. apply Hh, Hw.
Qed.

End Respects.

Section StepsWithin.

Context (I : relation World) `{!PreOrder I}.

Lemma steps_mret {A} (a : A) : steps_within I (mret a : M A).
Proof. intros w. reflexivity. Qed.

Lemma steps_lift {A} (r : result A) : steps_within I (lift r).
Proof. intros w. reflexivity. Qed.

Lemma steps_gets {A} (f : World -> A) : steps_within I (gets f).
Proof. intros w. reflexivity. Qed.

Lemma steps_bind {A B} (m : M A) (k : A -> M B) :
  steps_within I m -> (forall a, steps_within I (k a)) -> steps_within I (m ≫= k).
Proof.
  intros Hm Hk w. rewrite run_bind. specialize (Hm w).
  destruct (m w) as [[a|e] w']; simpl in *.
  - etransitivity; [exact Hm|apply Hk].
  - exact Hm.
Qed.

Lemma steps_modify (f : World -> World) :
  (forall w, I w (f w)) -> steps_within I (modify f).
Proof. intros Hf w. apply Hf. Qed.

Lemma steps_read_parquet (dir : World -> gmap string parquet_file) (t : string) :
  steps_within I (read_parquet dir t).
Proof.
  intros w. unfold read_parquet. destruct (dir w !! t) as [[df|]|]; reflexivity.
Qed.

Lemma steps_try_except {A} (m : M A) (h : exn -> M A) :
  steps_within I m -> (forall e, steps_within I (h e)) -> steps_within I (try_except m h).
Proof.
  intros Hm Hh w. unfold try_except. specialize (Hm w).
  destruct (m w) as [[a|e] w']; simpl in *.
  - exact Hm.
  - etransitivity; [exact Hm|apply Hh].
Qed.

End StepsWithin.

Global Instance same_but_log_equiv : Equivalence same_but_log.
Proof.
  split.
  - intros w. repeat split.
  - intros w1 w2 (?&?&?&?&?&?). repeat split; congruence.
  - intros w1 w2 w3 (?&?&?&?&?&?) (?&?&?&?&?&?). repeat split; congruence.
Qed.

Global Instance same_plan_inputs_equiv (t : string) : Equivalence (same_plan_inputs t).
Proof.
  split.
  - intros w. split; reflexivity.
  - intros w1 w2 [? ?]. split; congruence.
  - intros w1 w2 w3 [? ?] [? ?]. split; congruence.
Qed.

Global Instance touches_only_preorder (t : string) : PreOrder (touches_only t).
Proof.
  split.
  - intros w. repeat split.
  - intros w1 w2 w3 (?&?&Hs&Hv) (?&?&Hs'&Hv'). repeat split; try congruence.
    + intros t' Ht'. rewrite Hs', Hs by assumption. reflexivity.
    + intros t' Ht'. rewrite Hv', Hv by assumption. reflexivity.
Qed.

Ltac respects_step :=
  lazymatch goal with
  | |- respects _ (mret _) => apply respects_mret
  | |- respects _ (lift _) => apply respects_lift
  | |- respects _ (_ ≫= _) => apply respects_bind; [|intros ?]
  | |- respects _ (try_except _ _) => apply respects_try_except; [|intros ?]
  | |- respects _ (gets _) => apply respects_gets; intros ? ? ?
  | |- respects _ (modify _) => apply respects_modify; intros ? ? ?
  | |- respects _ (read_parquet _ _) => apply respects_read_parquet; intros ? ? ?
  | |- respects _ (match ?x with _ => _ end) => destruct x
  end.

Ltac steps_step :=
  lazymatch goal with
  | |- steps_within _ (mret _) => apply steps_mret; apply _
  | |- steps_within _ (lift _) => apply steps_lift; apply _
  | |- steps_within _ (gets _) => apply steps_gets; apply _
  | |- steps_within _ (read_parquet _ _) => apply steps_read_parquet; apply _
  | |- steps_within _ (_ ≫= _) => apply steps_bind; [apply _| |intros ?]
  | |- steps_within _ (try_except _ _) => apply steps_try_except; [apply _| |intros ?]
  | |- steps_within _ (modify _) => apply steps_modify; intros ?
  | |- steps_within _ (match ?x with _ => _ end) => destruct x
  end.

(** ** The phases of [process_table_incremental] *)

Section Phases.

Import IncrementalProcessor.

Lemma same_but_log_add_log r1 r2 w1 w2 :
  same_but_log w1 w2 -> same_but_log (add_log r1 w1) (add_log r2 w2).
Proof. intros H. exact H. Qed.

Lemma same_but_log_add_log_l r w : same_but_log w (add_log r w).
Proof. repeat split. Qed.

Lemma prepare_write_log_only (t : string) (b : bool) :
  steps_within same_but_log (prepare_write t b).
Proof.
  unfold prepare_write, plan_table, read_with_year, merge_with_silver,
    align_schemas, get_years_to_process, logger_info, logger_warning.
  repeat steps_step; try apply same_but_log_add_log_l.
Qed.

Lemma prepare_write_respects_log (t : string) (b : bool) :
  respects same_but_log (prepare_write t b).
Proof.
  unfold prepare_write, plan_table, read_with_year, merge_with_silver,
    align_schemas, get_years_to_process, logger_info, logger_warning.
  repeat respects_step;
    try (apply same_but_log_add_log; assumption);
    try match goal with H : same_but_log _ _ |- _ =>
          destruct H as (He & Ht & Hs & Hb & Hv & Hf);
          rewrite ?He, ?Ht, ?Hs, ?Hb, ?Hv, ?Hf; reflexivity end.
Qed.


Lemma plan_table_respects_inputs (t : string) (b : bool) :
  respects (same_plan_inputs t) (plan_table t b).
Proof.
  unfold plan_table, read_with_year, get_years_to_process, logger_info, logger_warning.
  repeat respects_step;
    try match goal with H : same_plan_inputs _ _ _ |- _ =>
          destruct H as (Hb & Hp); first [exact (conj Hb Hp) | rewrite ?Hb, ?Hp; reflexivity]
        end.
Qed.

Lemma bind_Ok_inv {A B} (m : M A) (k : A -> M B) (w w' : World) (b : B) :
  (m ≫= k) w = (Ok b, w') ->
  exists a w1, m w = (Ok a, w1) /\ k a w1 = (Ok b, w').
Proof.
  rewrite run_bind. destruct (m w) as [[a|e] w1]; [eauto|discriminate].
Qed.

Lemma prepare_write_plan (t : string) (b : bool) (w w1 : World)
      (years : list cell) (df_final df_tr : DataFrame) :
  prepare_write t b w = (Ok (inr (years, df_final, df_tr)), w1) ->
  exists df_with_year w0,
    plan_table t b w = (Ok (inr (years, df_with_year)), w0).
Proof.
  unfold prepare_write. intros H.
  apply bind_Ok_inv in H as ([early|[years' df]] & w0 & Hplan & H).
  - discriminate.
  - apply bind_Ok_inv in H as (df1 & w2 & _ & H).
    apply bind_Ok_inv in H as (tr & w3 & _ & H).
    apply bind_Ok_inv in H as (df2 & w4 & _ & H).
    apply bind_Ok_inv in H as ([df3 df4] & w5 & _ & H).
    injection H as -> _ _ _. eauto.
Qed.

End Phases.

(** ** The runner *)

Section Returns.

Lemma returns_mret {A} (P : A -> Prop) (a : A) : P a -> returns P (mret a : M A).
Proof. intros Ha w a' w' [= <- _]. exact Ha. Qed.

Lemma returns_bind_post {A B} (Q : A -> Prop) (P : B -> Prop) (m : M A) (k : A -> M B) :
  returns Q m -> (forall a, Q a -> returns P (k a)) -> returns P (m ≫= k).
Proof.
  intros Hm Hk w b w' H. apply bind_Ok_inv in H as (a & w1 & Ha & H).
  exact (Hk a (Hm w a w1 Ha) w1 b w' H).
Qed.

Lemma returns_bind {A B} (P : B -> Prop) (m : M A) (k : A -> M B) :
  (forall a, returns P (k a)) -> returns P (m ≫= k).
Proof.
  intros Hk. apply (returns_bind_post (fun _ => True)); [easy|auto].
Qed.

End Returns.

Ltac returns_step :=
  lazymatch goal with
  | |- returns _ (mret _) => apply returns_mret
  | |- returns _ (_ ≫= _) => apply returns_bind; intros ?
  | |- returns _ (match ?x with _ => _ end) => destruct x
  end.

Section Runner.

Import IncrementalProcessor.

Lemma read_with_year_about (t : string) :
  returns (early_about t) (read_with_year t).
Proof.
  unfold read_with_year.
  repeat returns_step; first [exact I|split; [reflexivity|discriminate]].
Qed.

Lemma plan_table_about (t : string) (b : bool) :
  returns (early_about t) (plan_table t b).
Proof.
  unfold plan_table.
  apply (returns_bind_post (early_about t)); [apply read_with_year_about|].
  intros [early|df] Hr; repeat returns_step;
    first [exact Hr|exact I|split; [reflexivity|discriminate]].
Qed.

Lemma prepare_write_about (t : string) (b : bool) :
  returns (early_about t) (prepare_write t b).
Proof.
  unfold prepare_write.
  apply (returns_bind_post (early_about t)); [apply plan_table_about|].
  intros [early|[years df]] Hr; repeat returns_step; first [exact Hr|exact I].
Qed.

Lemma process_table_body_about (t : string) (b : bool) :
  returns (fun o => stats_table o = t) (process_table_body t b).
Proof.
  unfold process_table_body.
  apply (returns_bind_post (early_about t)); [apply prepare_write_about|].
  intros [early|[[years df_final] df_tr]] Hr.
  - apply returns_mret. exact (proj1 Hr).
  - unfold write_and_commit. repeat returns_step. reflexivity.
Qed.

(** [process_table_incremental] never raises: what its body raises is
    turned into a failed outcome. *)
Lemma process_table_incremental_total (t : string) (b : bool) (w : World) :
  exists o w',
    process_table_incremental t b w = (Ok o, w')
    /\ stats_table o = t
    /\ (forall e w1,
          process_table_body t b (add_log (INFO, MsgProcessing t) w) = (Raise e, w1) ->
          o = Failed t (ErrExn e) /\ w' = add_log (ERROR, MsgError t e) w1).
Proof.
  unfold process_table_incremental, logger_info. rewrite run_modify_bind.
  unfold try_except.
  destruct (process_table_body t b (add_log (INFO, MsgProcessing t) w))
    as [[o|e] w1] eqn:Hbody.
  - exists o, w1. split; [reflexivity|]. split.
    + exact (process_table_body_about t b _ _ _ Hbody).
    + intros e w2 [=].
  - eexists _, _. split; [reflexivity|]. split; [reflexivity|].
    intros e' w2 [= <- <-]. split; reflexivity.
Qed.

Lemma process_tables_total (ts : list string) (b : bool) (w : World) :
  exists outs w',
    process_tables ts b w = (Ok outs, w') /\ map stats_table outs = ts.
Proof.
  revert w. induction ts as [|t ts IH]; intros w.
  - exists [], w. split; reflexivity.
  - destruct (process_table_incremental_total t b w) as (o & w1 & Ho & Hto & _).
    destruct (IH w1) as (outs & w2 & Houts & Hts).
    exists (o :: outs), w2. split.
    + cbn [process_tables]. rewrite run_bind, Ho, run_bind, Houts. reflexivity.
    + cbn [map]. rewrite Hto, Hts. reflexivity.
Qed.

Lemma process_all_incremental_run (b : bool) (w : World) :
  exists outs w0 w1 w',
    process_all_incremental b w = (Ok outs, w')
    /\ process_tables Config.TABLES_WITH_YEAR b w0 = (Ok outs, w1)
    /\ same_but_log w w0 /\ same_but_log w1 w'.
Proof.
  unfold process_all_incremental.
  set (w0 := add_log (INFO, if b then MsgStartInitial Config.INITIAL_LOAD_YEAR
                            else MsgStartIncremental) w).
  destruct (process_tables_total Config.TABLES_WITH_YEAR b w0) as (outs & w1 & Houts & _).
  exists outs, w0, w1.
  assert (Hstart : forall {B} (k : unit -> M B),
             ((if b then logger_info (MsgStartInitial Config.INITIAL_LOAD_YEAR)
               else logger_info MsgStartIncremental) ≫= k) w = k tt w0).
  { intros B k. unfold w0. destruct b; reflexivity. }
  rewrite Hstart, run_bind, Houts. cbv zeta.
  unfold logger_info. rewrite run_modify_bind.
  destruct (with_status success outs) as [|o os];
    eexists; (split; [reflexivity|]); repeat split.
Qed.

End Runner.

(** ** Committing *)

Section Commit.

Import IncrementalProcessor.

Lemma processed_list_with_entry (t t' : string) (st : gmap string TableState) :
  processed_list (with_entry t st) t' = processed_list st t'.
Proof.
  unfold with_entry, processed_list. case_bool_decide as Hnone; [|reflexivity].
  destruct (decide (t = t')) as [<-|Hne].
  - rewrite lookup_insert_eq, Hnone. reflexivity.
  - rewrite lookup_insert_ne by assumption. reflexivity.
Qed.

Lemma lookup_with_entry_ne (t t' : string) (st : gmap string TableState) :
  t' <> t -> with_entry t st !! t' = st !! t'.
Proof.
  intros Hne. unfold with_entry. case_bool_decide; [|reflexivity].
  apply lookup_insert_ne. congruence.
Qed.

(** [mark_years_processed], run. *)
Lemma mark_years_processed_run (t : string) (years : list cell) (w : World) :
  let st1 := with_entry t (state w) in
  mark_years_processed t years w =
  match Py.sorted (elements (get_processed_years (state w) t ∪ list_to_set years)) with
  | Raise e => (Raise e, set_state st1 w)
  | Ok sorted_years =>
      let st2 := <[t := {| processed_years := sorted_years;
                           last_update := Some (clock (env w) (ticks w)) |}]> st1 in
      (Ok tt,
       add_log (INFO, MsgStateSaved)
         (set_state_file (Some (Json.encode st2))
            (set_state st2 (set_ticks (S (ticks w)) w))))
  end.
Proof.
  cbv zeta. unfold mark_years_processed. rewrite run_gets_bind.
  assert (Hfirst : forall {B} (k : unit -> M B),
    ((if bool_decide (state w !! t = None)
      then modify (set_state (<[t := {| processed_years := []; last_update := None |}]> (state w)))
      else mret tt) ≫= k) w = k tt (set_state (with_entry t (state w)) w)).
  { intros B k. unfold with_entry. case_bool_decide; [reflexivity|].
    destruct w; reflexivity. }
  rewrite Hfirst, run_gets_bind. cbn [state set_state].
  rewrite run_lift_bind. unfold get_processed_years.
  rewrite processed_list_with_entry.
  destruct (Py.sorted _) as [sorted_years|e]; [|reflexivity].
  rewrite run_bind. unfold datetime_now at 1. rewrite run_modify_bind.
  unfold _save_state. rewrite run_modify_bind. unfold logger_info, modify.
  cbn [state set_state set_ticks set_state_file state_file env ticks].
  rewrite run_save_ops. reflexivity.
Qed.

End Commit.

(** ** Outcomes of one table *)

Section Cases.

Import IncrementalProcessor.

(** What [process_table_incremental] returns and leaves, by the way its
    preparation ends. *)
Lemma process_table_incremental_cases (t : string) (b : bool) (w : World) :
  let wl := add_log (INFO, MsgProcessing t) w in
  (exists early w',
      prepare_write t b wl = (Ok (inl early), w')
      /\ process_table_incremental t b w = (Ok early, w'))
  \/ (exists e w1,
         prepare_write t b wl = (Raise e, w1)
         /\ process_table_incremental t b w
            = (Ok (Failed t (ErrExn e)), add_log (ERROR, MsgError t e) w1))
  \/ (exists years df_final df_tr w1,
         prepare_write t b wl = (Ok (inr (years, df_final, df_tr)), w1)
         /\ process_table_incremental t b w =
            match write_fault (env w) !! t with
            | Some f =>
                (Ok (Failed t (ErrExn (write_error f))),
                 add_log (ERROR, MsgError t (write_error f))
                   match f with
                   | Untouched _ => w1
                   | Truncated _ => set_silver (<[t := Corrupt]> (silver w1)) w1
                   end)
            | None =>
                let w2 := set_silver (<[t := Parquet df_final]> (silver w1)) w1 in
                match Py.sorted (elements (get_processed_years (state w) t
                                           ∪ list_to_set years)) with
                | Raise e =>
                    (Ok (Failed t (ErrExn e)),
                     add_log (ERROR, MsgError t e)
                       (set_state (with_entry t (state w)) w2))
                | Ok sorted_years =>
                    let st2 := <[t := {| processed_years := sorted_years;
                                         last_update := Some (clock (env w) (ticks w)) |}]>
                                 (with_entry t (state w)) in
                    (Ok (Success t years (Frame.height df_tr) (Frame.height df_final)),
                     add_log (INFO, MsgSuccess t (length years) (Frame.height df_tr))
                       (add_log (INFO, MsgStateSaved)
                          (set_state_file (Some (Json.encode st2))
                             (set_state st2 (set_ticks (S (ticks w)) w2)))))
                end
            end).
Proof.
  intros wl.
  pose proof (prepare_write_log_only t b wl) as Hsteps.
  unfold process_table_incremental, logger_info. rewrite run_modify_bind. fold wl.
  unfold try_except, process_table_body. rewrite run_bind.
  destruct (prepare_write t b wl) as [[[early|[[years df_final] df_tr]]|e] w1] eqn:Hprep.
  - left. eauto.
  - right. right. exists years, df_final, df_tr, w1. split; [reflexivity|].
    cbn [snd] in Hsteps. destruct Hsteps as (He & Ht & Hs & Hb & Hv & Hf).
    cbn [env ticks state add_log wl] in He, Ht, Hs.
    unfold write_and_commit. rewrite run_bind. unfold write_parquet at 1.
    rewrite <- He. destruct (write_fault (env w) !! t) as [[|]|]; try reflexivity.
    rewrite run_bind, mark_years_processed_run.
    cbn [state set_silver env ticks]. rewrite <- Hs, <- He, <- Ht.
    destruct (Py.sorted _) as [sorted_years|e]; reflexivity.
  - right. left. eauto.
Qed.

End Cases.

(** ** Isolation between tables *)

Section Isolation.

Import IncrementalProcessor.


(** Processing a table touches nothing of the other tables. *)
Lemma process_table_incremental_touches (t : string) (b : bool) :
  steps_within (touches_only t) (process_table_incremental t b).
Proof.
  intros w.
  pose proof (prepare_write_log_only t b (add_log (INFO, MsgProcessing t) w)) as Hsteps.
  destruct (process_table_incremental_cases t b w)
    as [(early & w' & Hprep & ->)|[(e & w1 & Hprep & ->)|
        (years & df_final & df_tr & w1 & Hprep & ->)]];
    rewrite Hprep in Hsteps; cbn [snd] in Hsteps;
    destruct Hsteps as (He & Ht & Hs & Hb & Hv & Hf);
    cbn [env ticks state bronze silver state_file add_log] in *.
  all: repeat match goal with
              | |- context [match ?x with _ => _ end] => destruct x
              end.
  all: cbv zeta; repeat split; cbn [env ticks state bronze silver state_file add_log
                                     set_state set_silver set_state_file set_ticks snd];
    try congruence.
  all: intros t' Hne; rewrite ?lookup_insert_ne by congruence;
    rewrite ?lookup_with_entry_ne by assumption; congruence.
Qed.

Lemma touches_only_inputs (x y : string) (w w' : World) :
  x <> y -> touches_only x w w' -> same_table_inputs y w w'.
Proof.
  intros Hne (He & Hb & Hs & Hv).
  split; [congruence|]. split; [congruence|]. split.
  - unfold processed_list. rewrite Hs by congruence. reflexivity.
  - rewrite Hv by congruence. reflexivity.
Qed.

Lemma same_table_inputs_add_log t r1 r2 w1 w2 :
  same_table_inputs t w1 w2 -> same_table_inputs t (add_log r1 w1) (add_log r2 w2).
Proof. intros H. exact H. Qed.

Lemma prepare_write_respects_inputs (t : string) (b : bool) :
  respects (same_table_inputs t) (prepare_write t b).
Proof.
  unfold prepare_write, plan_table, read_with_year, merge_with_silver,
    align_schemas, get_years_to_process, logger_info, logger_warning.
  repeat respects_step;
    try (apply same_table_inputs_add_log; assumption);
    try match goal with H : same_table_inputs _ _ _ |- _ =>
          destruct H as (He & Hb & Hp & Hv); unfold get_processed_years;
          rewrite ?He, ?Hb, ?Hp, ?Hv; reflexivity end.
Qed.

(** The outcome for a table is a function of its own inputs. *)
Lemma process_table_incremental_outcome (t : string) (b : bool) (w1 w2 : World) :
  same_table_inputs t w1 w2 ->
  (process_table_incremental t b w1).1 = (process_table_incremental t b w2).1.
Proof.
  intros H.
  assert (Hl : same_table_inputs t (add_log (INFO, MsgProcessing t) w1)
                                   (add_log (INFO, MsgProcessing t) w2)) by exact H.
  destruct (prepare_write_respects_inputs t b _ _ Hl) as [Hres _].
  destruct H as (He & Hb & Hp & Hv).
  destruct (process_table_incremental_cases t b w1)
    as [(early & w' & Hprep & ->)|[(e & w1' & Hprep & ->)|
        (years & df_final & df_tr & w1' & Hprep & ->)]];
    rewrite Hprep in Hres; cbn [fst] in Hres;
    destruct (process_table_incremental_cases t b w2)
      as [(early2 & w'2 & Hprep2 & ->)|[(e2 & w2' & Hprep2 & ->)|
          (years2 & df_final2 & df_tr2 & w2' & Hprep2 & ->)]];
    rewrite Hprep2 in Hres; cbn [fst] in Hres; try discriminate.
  - injection Hres as ->. reflexivity.
  - injection Hres as ->. reflexivity.
  - injection Hres as -> -> ->. unfold get_processed_years. rewrite He, Hp.
    destruct (write_fault (env w2) !! t) as [f|]; [reflexivity|].
    cbv zeta. destruct (Py.sorted _); reflexivity.
Qed.

End Isolation.

(** ** The pass over the fact tables *)

Section Loop.

Import IncrementalProcessor.

Global Instance untouched_preorder (t : string) : PreOrder (untouched t).
Proof.
  split.
  - intros w. repeat split.
  - intros w1 w2 w3 (?&?&?&?) (?&?&?&?). repeat split; congruence.
Qed.

Lemma touches_only_untouched (x t : string) (w w' : World) :
  x <> t -> touches_only x w w' -> untouched t w w'.
Proof.
  intros Hne (He & Hb & Hs & Hv). repeat split; auto.
Qed.

Lemma process_tables_app (pre post : list string) (b : bool) (w w' : World)
      (outs : list stats) :
  process_tables (pre ++ post) b w = (Ok outs, w') ->
  exists outs1 w1 outs2,
    process_tables pre b w = (Ok outs1, w1)
    /\ process_tables post b w1 = (Ok outs2, w')
    /\ outs = outs1 ++ outs2.
Proof.
  revert w outs. induction pre as [|t pre IH]; intros w outs H.
  - exists [], w, outs. repeat split. exact H.
  - cbn [app process_tables] in H.
    apply bind_Ok_inv in H as (o & wa & Ho & H).
    apply bind_Ok_inv in H as (outs' & wb & Hrest & H).
    injection H as <- <-.
    destruct (IH _ _ Hrest) as (outs1 & w1 & outs2 & Hpre & Hpost & ->).
    exists (o :: outs1), w1, outs2. repeat split; auto.
    cbn [process_tables]. rewrite run_bind, Ho, run_bind, Hpre. reflexivity.
Qed.

Lemma process_tables_cons (t : string) (ts : list string) (b : bool) (w w' : World)
      (outs : list stats) :
  process_tables (t :: ts) b w = (Ok outs, w') ->
  exists o w1 outs',
    process_table_incremental t b w = (Ok o, w1)
    /\ process_tables ts b w1 = (Ok outs', w')
    /\ outs = o :: outs'.
Proof.
  cbn [process_tables]. intros H.
  apply bind_Ok_inv in H as (o & wa & Ho & H).
  apply bind_Ok_inv in H as (outs' & wb & Hrest & H).
  injection H as <- <-. eauto 10.
Qed.

Lemma process_tables_untouched (ts : list string) (t : string) (b : bool) (w : World) :
  t ∉ ts -> untouched t w (process_tables ts b w).2.
Proof.
  revert w. induction ts as [|x ts IH]; intros w Hnotin.
  - reflexivity.
  - apply not_elem_of_cons in Hnotin as [Hne Hnotin].
    cbn [process_tables]. rewrite run_bind.
    pose proof (process_table_incremental_touches x b w) as Hx.
    destruct (process_table_incremental_total x b w) as (o & w1 & Ho & _).
    rewrite Ho in *. cbn [snd] in Hx. rewrite run_bind.
    specialize (IH w1 Hnotin).
    destruct (process_tables ts b w1) as [[outs|e] w2]; cbn [snd] in *.
    + etransitivity; [|exact IH]. apply (touches_only_untouched x); auto.
    + etransitivity; [|exact IH]. apply (touches_only_untouched x); auto.
Qed.

(** The turn of table [t] in a pass over a list in which it occurs once. *)
Lemma process_tables_turn (ts : list string) (t : string) (b : bool) (w w' : World)
      (outs : list stats) :
  NoDup ts -> t ∈ ts ->
  process_tables ts b w = (Ok outs, w') ->
  exists w0 o w1,
    untouched t w w0
    /\ process_table_incremental t b w0 = (Ok o, w1)
    /\ untouched t w1 w'
    /\ o ∈ outs
    /\ (forall o', o' ∈ outs -> stats_table o' = t -> o' = o).
Proof.
  intros Hnd Hin Hrun.
  apply list_elem_of_split in Hin as (pre & post & ->).
  apply NoDup_app in Hnd as (_ & Hpre & Hpost).
  apply NoDup_cons in Hpost as [Hpost _].
  assert (Hnotpre : t ∉ pre).
  { intros Hin. apply (Hpre t Hin). left. }
  destruct (process_tables_app _ _ _ _ _ _ Hrun) as (outs1 & w0 & outs2 & Hrun1 & Hrun2 & ->).
  destruct (process_tables_cons _ _ _ _ _ _ Hrun2) as (o & w1 & outs3 & Ho & Hrun3 & ->).
  exists w0, o, w1.
  pose proof (process_tables_untouched pre t b w Hnotpre) as Hu1.
  pose proof (process_tables_untouched post t b w1 Hpost) as Hu3.
  rewrite Hrun1 in Hu1. rewrite Hrun3 in Hu3. cbn [snd] in *.
  split; [exact Hu1|]. split; [exact Ho|]. split; [exact Hu3|]. split.
  - apply elem_of_app. right. left.
  - intros o' Ho' Ht'.
    destruct (process_tables_total pre b w) as (outs1' & w0' & Hrun1' & Hnames1).
    destruct (process_tables_total post b w1) as (outs3' & w3' & Hrun3' & Hnames3).
    rewrite Hrun1 in Hrun1'. injection Hrun1' as <- <-.
    rewrite Hrun3 in Hrun3'. injection Hrun3' as <- <-.
    apply elem_of_app in Ho' as [Ho'|Ho'].
    + exfalso. apply Hnotpre. rewrite <- Hnames1, <- Ht'.
      apply list_elem_of_In, in_map, list_elem_of_In, Ho'.
    + apply elem_of_cons in Ho' as [->|Ho']; [reflexivity|].
      exfalso. apply Hpost. rewrite <- Hnames3, <- Ht'.
      apply list_elem_of_In, in_map, list_elem_of_In, Ho'.
Qed.

Lemma NoDup_TABLES_WITH_YEAR : NoDup Config.TABLES_WITH_YEAR.
Proof. apply (bool_decide_unpack _). vm_compute. exact I. Qed.

End Loop.

Section RunAll.

Import IncrementalProcessor.

(** The isolation example of the specification: the transform of
    [results] raises, [qualifying] is processed after it and succeeds. *)
Example transform_failure_is_isolated :
  (process_all_incremental false Examples.world_transform_raises).1
  = Ok [ Success "races" [CInt 2005; CInt 2012] 3 3;
         Failed "results" (ErrExn (ColumnNotFoundError "points"));
         Success "qualifying" [CInt 2005; CInt 2012] 2 2;
         Failed "sprint_results" (ErrLit "bronze_file_not_found");
         Failed "lap_times" (ErrLit "bronze_file_not_found");
         Failed "pit_stops" (ErrLit "bronze_file_not_found");
         Failed "driver_standings" (ErrLit "bronze_file_not_found");
         Failed "constructor_standings" (ErrLit "bronze_file_not_found");
         Failed "constructor_results" (ErrLit "bronze_file_not_found") ].
Proof. vm_compute. reflexivity. Qed.

End RunAll.

(** ** A missing bronze file *)

Section Missing.

Import IncrementalProcessor.

Lemma read_with_year_missing (t : string) (w : World) :
  Config.has_year_column t = true -> bronze w !! t = None ->
  read_with_year t w =
  (Ok (inl (Failed t (ErrLit "bronze_file_not_found"))),
   add_log (WARNING, MsgBronzeNotFound t) w).
Proof.
  intros Hfact Hnone. unfold read_with_year. rewrite Hfact. cbn [negb].
  rewrite run_gets_bind, Hnone.
  rewrite bool_decide_eq_false_2 by (intros [x Hx]; discriminate).
  reflexivity.
Qed.

Lemma missing_bronze_outcome (t : string) (b : bool) (w : World) :
  Config.has_year_column t = true -> bronze w !! t = None ->
  exists w',
    process_table_incremental t b w
    = (Ok (Failed t (ErrLit "bronze_file_not_found")), w')
    /\ same_but_log w w'.
Proof.
  intros Hfact Hnone.
  set (wl := add_log (INFO, MsgProcessing t) w).
  assert (Hprep : prepare_write t b wl
                  = (Ok (inl (Failed t (ErrLit "bronze_file_not_found"))),
                     add_log (WARNING, MsgBronzeNotFound t) wl)).
  { unfold prepare_write, plan_table. rewrite !run_bind.
    rewrite (read_with_year_missing t wl Hfact Hnone). reflexivity. }
  destruct (process_table_incremental_cases t b w)
    as [(early & w' & Hprep' & Hrun)|[(e & w1 & Hprep' & _)|
        (years & df_final & df_tr & w1 & Hprep' & _)]];
    fold wl in Hprep'; rewrite Hprep in Hprep'; try discriminate.
  injection Hprep' as <- <-. eexists. split; [exact Hrun|]. repeat split.
Qed.

(** C5 (amended).  A fact table whose bronze file is missing gets a
    failed outcome of its own, with the error [bronze_file_not_found]; the
    pass is not aborted and returns an outcome for every fact table. *)
Theorem missing_bronze_fails_one_table (w : World) (b : bool) (t : string) :
  t ∈ Config.TABLES_WITH_YEAR ->
  bronze w !! t = None ->
  exists outs w',
    process_all_incremental b w = (Ok outs, w')
    /\ map stats_table outs = Config.TABLES_WITH_YEAR
    /\ Failed t (ErrLit "bronze_file_not_found") ∈ outs
    /\ (forall o, o ∈ outs -> stats_table o = t ->
                  o = Failed t (ErrLit "bronze_file_not_found")).
Proof.
  intros Hin Hnone.
  destruct (process_all_incremental_run b w)
    as (outs & w0 & w1 & w' & Hall & Hloop & Hw0 & _).
  destruct (process_tables_total Config.TABLES_WITH_YEAR b w0)
    as (outs' & w1' & Hloop' & Hts).
  rewrite Hloop in Hloop'. injection Hloop' as <- <-.
  exists outs, w'. split; [exact Hall|]. split; [exact Hts|].
  destruct (process_tables_turn _ t b w0 w1 outs NoDup_TABLES_WITH_YEAR Hin Hloop)
    as (wa & o & wb & Hua & Ho & _ & Hmem & Huniq).
  assert (Hnone' : bronze wa !! t = None).
  { destruct Hua as (_ & Hb & _). destruct Hw0 as (_ & _ & _ & Hb0 & _).
    rewrite Hb, <- Hb0. exact Hnone. }
  assert (Hfact : Config.has_year_column t = true).
  { unfold Config.has_year_column. apply bool_decide_eq_true_2, Hin. }
  destruct (missing_bronze_outcome t b wa Hfact Hnone') as (wb' & Ho' & _).
  rewrite Ho in Ho'. injection Ho' as -> _.
  split; [exact Hmem|exact Huniq].
Qed.
Lemma missing_bronze_fails_one_table_witness :
  exists outs w',
    process_all_incremental false Examples.world_missing_results = (Ok outs, w')
    /\ map stats_table outs = Config.TABLES_WITH_YEAR
    /\ Failed "results" (ErrLit "bronze_file_not_found") ∈ outs
    /\ (forall o, o ∈ outs -> stats_table o = "results" ->
                  o = Failed "results" (ErrLit "bronze_file_not_found")).
Proof.
  apply (missing_bronze_fails_one_table Examples.world_missing_results false "results").
  - apply (bool_decide_unpack _). vm_compute. exact I.
  - reflexivity.
Defined.

(** C5 as stated fails: with the bronze file of [results] missing, the
    pass goes on, [results] gets a failed outcome and [qualifying], which
    comes after it, is processed and written. *)
Lemma missing_bronze_counterexample :
  bronze Examples.world_missing_results !! "results" = None
  /\ exists w',
      process_all_incremental false Examples.world_missing_results
      = (Ok [ Success "races" [CInt 2005; CInt 2012] 3 3;
              Failed "results" (ErrLit "bronze_file_not_found");
              Success "qualifying" [CInt 2005; CInt 2012] 2 2;
              Failed "sprint_results" (ErrLit "bronze_file_not_found");
              Failed "lap_times" (ErrLit "bronze_file_not_found");
              Failed "pit_stops" (ErrLit "bronze_file_not_found");
              Failed "driver_standings" (ErrLit "bronze_file_not_found");
              Failed "constructor_standings" (ErrLit "bronze_file_not_found");
              Failed "constructor_results" (ErrLit "bronze_file_not_found") ], w')
      /\ silver w' !! "qualifying"
         = Some (Parquet
                   [ {| name := "qualifyId"; values := [CInt 100; CInt 101] |};
                     {| name := "raceId"; values := [CInt 1; CInt 2] |};
                     {| name := "year"; values := [CInt 2005; CInt 2012] |} ]).
Proof.
  split; [reflexivity|]. eexists. split.
  - vm_compute. reflexivity.
  - vm_compute. reflexivity.
Qed.

End Missing.

(** ** Resolving the partition key *)

Section Keys.

Import IncrementalProcessor.


End Keys.

(** ** What an outcome says about the call *)

Section Inversion.

Import IncrementalProcessor.

Lemma steps_returns_world {A} (I : relation World) (m : M A) (w w' : World) (r : result A) :
  steps_within I m -> m w = (r, w') -> I w w'.
Proof. intros Hm Hrun. specialize (Hm w). rewrite Hrun in Hm. exact Hm. Qed.

Lemma read_with_year_log_only (t : string) :
  steps_within same_but_log (read_with_year t).
Proof.
  unfold read_with_year, logger_info, logger_warning.
  repeat steps_step; apply same_but_log_add_log_l.
Qed.

Lemma get_years_to_process_log_only (t : string) (avail : list cell) (b : bool) :
  steps_within same_but_log (get_years_to_process t avail b).
Proof.
  unfold get_years_to_process, logger_info.
  repeat steps_step; apply same_but_log_add_log_l.
Qed.

Lemma get_years_to_process_respects_log (t : string) (avail : list cell) (b : bool) :
  respects same_but_log (get_years_to_process t avail b).
Proof.
  unfold get_years_to_process, logger_info.
  repeat respects_step;
    try (apply same_but_log_add_log; assumption);
    try match goal with H : same_but_log _ _ |- _ =>
          destruct H as (He & Ht & Hs & Hb & Hv & Hf);
          rewrite ?He, ?Ht, ?Hs, ?Hb, ?Hv, ?Hf; reflexivity end.
Qed.

(** What [plan_table] did when it returns years to process. *)
Lemma plan_table_inr (t : string) (b : bool) (w w1 : World)
      (years : list cell) (df_with_year : DataFrame) :
  plan_table t b w = (Ok (inr (years, df_with_year)), w1) ->
  exists avail,
    (read_with_year t w).1 = Ok (inr df_with_year)
    /\ available_years df_with_year = Ok avail
    /\ (get_years_to_process t avail b w).1 = Ok years
    /\ years <> []
    /\ same_but_log w w1.
Proof.
  intros H.
  unfold plan_table in H.
  apply bind_Ok_inv in H as ([early|df] & wr & Hread & H); [discriminate|].
  rewrite run_lift_bind in H.
  destruct (available_years df) as [avail|e] eqn:Havail; [|discriminate].
  apply bind_Ok_inv in H as (ys & wp & Hplan & H).
  destruct ys as [|y ys]; [discriminate|].
  injection H as <- <- <-.
  pose proof (steps_returns_world _ _ _ _ _ (read_with_year_log_only t) Hread) as Hwr.
  pose proof (steps_returns_world _ _ _ _ _
                (get_years_to_process_log_only t avail b) Hplan) as Hwp.
  exists avail. rewrite Hread. split; [reflexivity|]. split; [exact Havail|].
  split; [|split; [discriminate|etransitivity; eassumption]].
  destruct (get_years_to_process_respects_log t avail b w wr Hwr) as [Hres _].
  rewrite Hres, Hplan. reflexivity.
Qed.

(** What [prepare_write] did when it reaches the write. *)
Lemma prepare_write_inr (t : string) (b : bool) (w w1 : World)
      (years : list cell) (df_final df_tr : DataFrame) :
  prepare_write t b w = (Ok (inr (years, df_final, df_tr)), w1) ->
  exists df_with_year avail df_to_process df_transformed wm,
    (read_with_year t w).1 = Ok (inr df_with_year)
    /\ available_years df_with_year = Ok avail
    /\ (get_years_to_process t avail b w).1 = Ok years
    /\ years <> []
    /\ Frame.filter_is_in "year" years df_with_year = Ok df_to_process
    /\ apply_transform (transformer (env w)) t df_to_process = Ok df_transformed
    /\ same_but_log w wm
    /\ merge_with_silver t b df_transformed wm = (Ok (df_final, df_tr), w1).
Proof.
  intros H. unfold prepare_write in H.
  apply bind_Ok_inv in H as ([early|[years' df]] & wp & Hplan & H); [discriminate|].
  destruct (plan_table_inr _ _ _ _ _ _ Hplan) as (avail & Hread & Havail & Hyears & Hne & Hwp).
  rewrite run_lift_bind in H.
  destruct (Frame.filter_is_in "year" years' df) as [df_to_process|e] eqn:Hfilter;
    [|discriminate].
  rewrite run_gets_bind, run_lift_bind in H.
  destruct (apply_transform _ t df_to_process) as [df_transformed|e] eqn:Htr;
    [|discriminate].
  apply bind_Ok_inv in H as ([df_final' df_tr'] & wm' & Hmerge & H).
  injection H as <- <- <- <-.
  exists df, avail, df_to_process, df_transformed, wp.
  repeat split; auto; try apply Hwp.
  destruct Hwp as (He & _). rewrite He. exact Htr.
Qed.


Lemma list_to_set_sorted (l sorted_l : list cell) :
  Py.sorted l = Ok sorted_l -> (list_to_set sorted_l : gset cell) = list_to_set l.
Proof.
  intros H. apply sorted_perm in H. apply set_eq. intros x.
  rewrite !elem_of_list_to_set, H. reflexivity.
Qed.

Lemma processed_after_insert (t : string) (st : gmap string TableState)
      (S : gset cell) (sorted_years : list cell) (ts : option string) :
  Py.sorted (elements S) = Ok sorted_years ->
  get_processed_years
    (<[t := {| processed_years := sorted_years; last_update := ts |}]> st) t = S.
Proof.
  intros H. unfold get_processed_years, processed_list.
  rewrite lookup_insert_eq. cbn [processed_years].
  rewrite (list_to_set_sorted _ _ H). apply set_eq. intros x.
  rewrite elem_of_list_to_set, elem_of_elements. reflexivity.
Qed.

(** What a successful outcome says about the call. *)
Lemma process_table_incremental_success (t : string) (b : bool) (w w' : World)
      (years : list cell) (n m : nat) :
  process_table_incremental t b w = (Ok (Success t years n m), w') ->
  exists df_final df_tr w1 sorted_years,
    prepare_write t b (add_log (INFO, MsgProcessing t) w)
    = (Ok (inr (years, df_final, df_tr)), w1)
    /\ n = Frame.height df_tr /\ m = Frame.height df_final
    /\ write_fault (env w) !! t = None
    /\ Py.sorted (elements (get_processed_years (state w) t ∪ list_to_set years))
       = Ok sorted_years
    /\ silver w' = <[t := Parquet df_final]> (silver w)
    /\ state w' = <[t := {| processed_years := sorted_years;
                            last_update := Some (clock (env w) (ticks w)) |}]>
                    (with_entry t (state w))
    /\ state_file w' = Some (Json.encode (state w'))
    /\ get_processed_years (state w') t
       = get_processed_years (state w) t ∪ list_to_set years.
Proof.
  intros Hrun.
  pose proof (prepare_write_about t b (add_log (INFO, MsgProcessing t) w)) as Habout.
  pose proof (prepare_write_log_only t b (add_log (INFO, MsgProcessing t) w)) as Hsteps.
  destruct (process_table_incremental_cases t b w)
    as [(early & w0 & Hprep & Hrun')|[(e & w1 & Hprep & Hrun')|
        (years' & df_final & df_tr & w1 & Hprep & Hrun')]];
    rewrite Hrun in Hrun'.
  - injection Hrun' as <- <-.
    destruct (Habout _ _ Hprep) as [_ Hstatus]. exfalso. apply Hstatus. reflexivity.
  - discriminate.
  - rewrite Hprep in Hsteps. cbn [snd] in Hsteps.
    destruct Hsteps as (He & Ht & Hs & Hb & Hv & Hf).
    cbn [env ticks state bronze silver state_file add_log] in *.
    destruct (write_fault (env w) !! t) as [f|] eqn:Hfault; [discriminate|].
    cbv zeta in Hrun'.
    destruct (Py.sorted _) as [sorted_years|e] eqn:Hsorted; [|discriminate].
    injection Hrun' as Hy Hn Hm Hw. subst years' n m w'.
    exists df_final, df_tr, w1, sorted_years.
    cbn [env ticks state bronze silver state_file add_log
         set_state set_silver set_state_file set_ticks].
    rewrite <- Hv.
    repeat split; auto.
    apply processed_after_insert, Hsorted.
Qed.
End Inversion.

(** ** A forced initial load on a table that was already loaded *)

Section Forced.

Import IncrementalProcessor.

Lemma read_with_year_respects_log (t : string) :
  respects same_but_log (read_with_year t).
Proof.
  unfold read_with_year, logger_info, logger_warning.
  repeat respects_step;
    try (apply same_but_log_add_log; assumption);
    try match goal with H : same_but_log _ _ |- _ =>
          destruct H as (He & Ht & Hs & Hb & Hv & Hf);
          rewrite ?He, ?Ht, ?Hs, ?Hb, ?Hv, ?Hf; reflexivity end.
Qed.

(** A successful call, in terms of the world it started from. *)
Lemma process_table_incremental_success_from (t : string) (b : bool) (w w' : World)
      (years : list cell) (n m : nat) :
  process_table_incremental t b w = (Ok (Success t years n m), w') ->
  exists df_with_year avail df_to_process df_transformed df_final df_tr wm wm',
    (read_with_year t w).1 = Ok (inr df_with_year)
    /\ available_years df_with_year = Ok avail
    /\ (get_years_to_process t avail b w).1 = Ok years
    /\ years <> []
    /\ Frame.filter_is_in "year" years df_with_year = Ok df_to_process
    /\ apply_transform (transformer (env w)) t df_to_process = Ok df_transformed
    /\ same_but_log w wm
    /\ merge_with_silver t b df_transformed wm = (Ok (df_final, df_tr), wm')
    /\ n = Frame.height df_tr /\ m = Frame.height df_final
    /\ silver w' = <[t := Parquet df_final]> (silver w)
    /\ state_file w' = Some (Json.encode (state w'))
    /\ get_processed_years (state w') t
       = get_processed_years (state w) t ∪ list_to_set years.
Proof.
  intros Hrun.
  destruct (process_table_incremental_success _ _ _ _ _ _ _ Hrun)
    as (df_final & df_tr & w1 & sorted_years & Hprep & Hn & Hm & _ & _ & Hsilver
        & _ & Hfile & Hproc).
  destruct (prepare_write_inr _ _ _ _ _ _ _ Hprep)
    as (df & avail & df_to_process & df_transformed & wm
        & Hread & Havail & Hyears & Hne & Hfilter & Htr & Hwm & Hmerge).
  set (wl := add_log (INFO, MsgProcessing t) w) in *.
  assert (Hl : same_but_log w wl) by apply same_but_log_add_log_l.
  exists df, avail, df_to_process, df_transformed, df_final, df_tr, wm, w1.
  destruct (read_with_year_respects_log t w wl Hl) as [-> _].
  destruct (get_years_to_process_respects_log t avail b w wl Hl) as [-> _].
  repeat split; auto; try apply Hyears.
  all: try (destruct Hwm as (He & Ht & Hs & Hb & Hv & Hf); assumption).
Qed.

(** C10.  For a table with a non-empty processed set and an existing
    merged file, a call with the initial load requested that succeeds has
    planned incrementally (the available years that are not processed),
    has written the transform of the rows of those years alone as the
    whole merged file, so that the total row count is the count of new
    rows and nothing of the previous file is kept, and leaves the
    previously processed years in the state next to the new ones. *)
Theorem forced_bootstrap_overwrites
        (w w' : World) (t : string) (years : list cell) (n m : nat) :
  get_processed_years (state w) t <> ∅ ->
  is_Some (silver w !! t) ->
  process_table_incremental t true w = (Ok (Success t years n m), w') ->
  exists df_with_year avail df_to_process df_transformed,
    (read_with_year t w).1 = Ok (inr df_with_year)
    /\ available_years df_with_year = Ok avail
    /\ Py.sorted (filter (fun y => y ∉ get_processed_years (state w) t) avail) = Ok years
    /\ Frame.filter_is_in "year" years df_with_year = Ok df_to_process
    /\ apply_transform (transformer (env w)) t df_to_process = Ok df_transformed
    /\ silver w' !! t = Some (Parquet df_transformed)
    /\ n = Frame.height df_transformed
    /\ m = n
    /\ get_processed_years (state w') t
       = get_processed_years (state w) t ∪ list_to_set years.
Proof.
  intros Hprocessed Hsilver Hrun.
  destruct (process_table_incremental_success_from _ _ _ _ _ _ _ Hrun)
    as (df & avail & df_to_process & df_transformed & df_final & df_tr & wm & wm'
        & Hread & Havail & Hyears & Hne & Hfilter & Htr & Hwm & Hmerge
        & Hn & Hm & Hsilver' & _ & Hproc).
  rewrite (get_years_to_process_else w t avail true (or_intror Hprocessed)) in Hyears.
  cbv zeta in Hyears. cbn [fst] in Hyears.
  unfold merge_with_silver in Hmerge. rewrite run_gets_bind in Hmerge.
  rewrite andb_false_r in Hmerge. unfold logger_info in Hmerge.
  rewrite run_modify_bind in Hmerge. injection Hmerge as <- <- _.
  exists df, avail, df_to_process, df_transformed.
  repeat split; auto.
  - rewrite Hsilver'. apply lookup_insert_eq.
  - congruence.
Qed.

Lemma forced_bootstrap_overwrites_witness :
  let w' := (process_table_incremental "results" true Examples.world_merged_2005).2 in
  exists df_with_year avail df_to_process df_transformed,
    (read_with_year "results" Examples.world_merged_2005).1 = Ok (inr df_with_year)
    /\ available_years df_with_year = Ok avail
    /\ Py.sorted
         (filter (fun y => y ∉ get_processed_years
                                 (state Examples.world_merged_2005) "results") avail)
       = Ok [CInt 2012]
    /\ Frame.filter_is_in "year" [CInt 2012] df_with_year = Ok df_to_process
    /\ apply_transform (transformer (env Examples.world_merged_2005)) "results"
                       df_to_process = Ok df_transformed
    /\ silver w' !! "results" = Some (Parquet df_transformed)
    /\ 2%nat = Frame.height df_transformed
    /\ 2%nat = 2%nat
    /\ get_processed_years (state w') "results"
       = get_processed_years (state Examples.world_merged_2005) "results"
         ∪ list_to_set [CInt 2012].
Proof.
  cbv zeta.
  apply (forced_bootstrap_overwrites Examples.world_merged_2005 _ "results"
           [CInt 2012] 2 2).
  - apply (bool_decide_unpack _). vm_compute. exact I.
  - eexists. reflexivity.
  - vm_compute. reflexivity.
Defined.

(** On the example: 2005 is processed and merged, 2012 is new.  After the
    forced initial load the merged file holds the two rows of 2012 only,
    and the state lists 2005 and 2012. *)
Example forced_bootstrap_discards_merged_rows :
  let w' := (process_table_incremental "results" true Examples.world_merged_2005).2 in
  silver Examples.world_merged_2005 !! "results" = Some (Parquet Examples.merged_2005)
  /\ silver w' !! "results"
     = Some (Parquet
               [ {| name := "resultId"; values := [CInt 11; CInt 13] |};
                 {| name := "raceId"; values := [CInt 2; CInt 2] |};
                 {| name := "year"; values := [CInt 2012; CInt 2012] |} ])
  /\ processed_list (state w') "results" = [CInt 2005; CInt 2012].
Proof.
  cbv zeta. split; [|split]; vm_compute; reflexivity.
Qed.

End Forced.

(** ** Running the incremental pass again *)

Section Rerun.

Import IncrementalProcessor.




Lemma filter_none {A} (P : A -> Prop) `{forall x, Decision (P x)} (l : list A) :
  (forall x, x ∈ l -> ~ P x) -> filter P l = [].
Proof.
  induction l as [|x l IH]; intros Hall; [reflexivity|].
  rewrite filter_cons_False by (apply Hall; left).
  apply IH. intros y Hy. apply Hall. right. exact Hy.
Qed.



(** Processing another table keeps the file in step with the entry of
    [t]. *)
Lemma process_table_incremental_file_tracks (x t : string) (b : bool) (w : World) :
  x <> t -> file_tracks t w -> file_tracks t (process_table_incremental x b w).2.
Proof.
  intros Hne (st & Hfile & Hentry).
  pose proof (prepare_write_log_only x b (add_log (INFO, MsgProcessing x) w)) as Hsteps.
  destruct (process_table_incremental_cases x b w)
    as [(early & w' & Hprep & ->)|[(e & w1 & Hprep & ->)|
        (years & df_final & df_tr & w1 & Hprep & ->)]];
    rewrite Hprep in Hsteps; cbn [snd] in Hsteps;
    destruct Hsteps as (He & Ht & Hs & Hb & Hv & Hf);
    cbn [env ticks state bronze silver state_file add_log] in *.
  - exists st. cbn [snd]. rewrite <- Hf, <- Hs. split; assumption.
  - exists st. cbn [snd state_file state add_log]. rewrite <- Hf, <- Hs. split; assumption.
  - destruct (write_fault (env w) !! x) as [[|]|].
    + exists st. cbn [snd state_file state add_log]. rewrite <- Hf, <- Hs. split; assumption.
    + exists st. cbn [snd state_file state add_log set_silver].
      rewrite <- Hf, <- Hs. split; assumption.
    + cbv zeta. destruct (Py.sorted _) as [sorted_years|e].
      * eexists. cbn [snd state_file state add_log set_state_file set_state].
        split; reflexivity.
      * exists st. cbn [snd state_file state add_log set_silver set_state].
        rewrite <- Hf. split; [assumption|].
        rewrite lookup_with_entry_ne by congruence. exact Hentry.
Qed.

Lemma process_tables_file_tracks (ts : list string) (t : string) (b : bool) (w : World) :
  t ∉ ts -> file_tracks t w -> file_tracks t (process_tables ts b w).2.
Proof.
  revert w. induction ts as [|x ts IH]; intros w Hnotin Htracks.
  - exact Htracks.
  - apply not_elem_of_cons in Hnotin as [Hne Hnotin].
    cbn [process_tables]. rewrite run_bind.
    pose proof (process_table_incremental_file_tracks x t b w (not_eq_sym Hne) Htracks) as Hx.
    destruct (process_table_incremental_total x b w) as (o & w1 & Ho & _).
    rewrite Ho in *. cbn [snd] in Hx. rewrite run_bind.
    specialize (IH w1 Hnotin Hx).
    destruct (process_tables ts b w1) as [[outs|e] w2]; exact IH.
Qed.

Lemma same_but_log_file_tracks (t : string) (w w' : World) :
  same_but_log w w' -> file_tracks t w -> file_tracks t w'.
Proof.
  intros (_ & _ & Hs & _ & _ & Hf) (st & Hfile & Hentry).
  exists st. rewrite <- Hf, <- Hs. split; assumption.
Qed.

Lemma same_but_log_untouched (t : string) (w w' : World) :
  same_but_log w w' -> untouched t w w'.
Proof.
  intros (He & _ & Hs & Hb & Hv & _). repeat split; congruence.
Qed.

(** [__init__], run. *)
Lemma init_run (w : World) (st : gmap string TableState) :
  (_load_state w).1 = Ok st ->
  exists wi,
    init w = (Ok tt, wi)
    /\ state wi = st /\ env wi = env w /\ bronze wi = bronze w
    /\ silver wi = silver w /\ state_file wi = state_file w.
Proof.
  intros Hload. unfold init. rewrite run_bind.
  assert (Hw : (_load_state w).2 = w).
  { unfold _load_state. destruct (state_file w) as [ts|]; [|reflexivity].
    destruct (Json.decode ts); reflexivity. }
  destruct (_load_state w) as [r w0]. cbn [fst snd] in *. subst r w0.
  eexists. split; [reflexivity|]. repeat split.
Qed.

Lemma init_Ok_inv (w wi : World) :
  init w = (Ok tt, wi) ->
  exists st,
    (_load_state w).1 = Ok st
    /\ state wi = st /\ env wi = env w /\ bronze wi = bronze w
    /\ silver wi = silver w /\ state_file wi = state_file w.
Proof.
  intros Hinit.
  destruct (_load_state w) as [[st|e] w0] eqn:Hload.
  - destruct (init_run w st) as (wi' & Hinit' & H); [rewrite Hload; reflexivity|].
    rewrite Hinit in Hinit'. injection Hinit' as <-. exists st. split; [reflexivity|exact H].
  - unfold init in Hinit. rewrite run_bind, Hload in Hinit. discriminate.
Qed.

Lemma load_tracked_file (t : string) (w : World) :
  file_tracks t w ->
  exists st, (_load_state w).1 = Ok st /\ state_file w = Some (Json.encode st)
             /\ st !! t = state w !! t.
Proof.
  intros (st & Hfile & Hentry). exists st. split; [|split; assumption].
  unfold _load_state. rewrite Hfile, decode_encode. reflexivity.
Qed.


Lemma elem_of_stats_table (o : stats) (outs : list stats) :
  o ∈ outs -> stats_table o ∈ map stats_table outs.
Proof. intros H. apply list_elem_of_In, in_map, list_elem_of_In, H. Qed.

(** One pass over the fact tables, seen from table [t]. *)
Lemma process_all_incremental_turn (t : string) (b : bool) (w w' : World)
      (outs : list stats) :
  t ∈ Config.TABLES_WITH_YEAR ->
  process_all_incremental b w = (Ok outs, w') ->
  exists wa o wb,
    untouched t w wa
    /\ (file_tracks t w -> file_tracks t wa)
    /\ process_table_incremental t b wa = (Ok o, wb)
    /\ untouched t wb w'
    /\ (file_tracks t wb -> file_tracks t w')
    /\ o ∈ outs
    /\ (forall o', o' ∈ outs -> stats_table o' = t -> o' = o)
    /\ map stats_table outs = Config.TABLES_WITH_YEAR.
Proof.
  intros Hin Hall.
  destruct (process_all_incremental_run b w)
    as (outs' & w0 & w1 & w'' & Hall' & Hloop & Hw0 & Hw1).
  rewrite Hall in Hall'. injection Hall' as <- <-.
  destruct (process_tables_total Config.TABLES_WITH_YEAR b w0)
    as (outs' & w1' & Hloop' & Hts).
  rewrite Hloop in Hloop'. injection Hloop' as <- <-.
  pose proof NoDup_TABLES_WITH_YEAR as Hnd.
  apply list_elem_of_split in Hin as (pre & post & Hsplit).
  rewrite Hsplit in Hnd, Hloop.
  apply NoDup_app in Hnd as (_ & Hpre & Hpost).
  apply NoDup_cons in Hpost as [Hpost _].
  assert (Hnotpre : t ∉ pre).
  { intros Hin. apply (Hpre t Hin). left. }
  destruct (process_tables_app _ _ _ _ _ _ Hloop) as (outs1 & wa & outs2 & Hrun1 & Hrun2 & ->).
  destruct (process_tables_cons _ _ _ _ _ _ Hrun2) as (o & wb & outs3 & Ho & Hrun3 & ->).
  pose proof (process_tables_untouched pre t b w0 Hnotpre) as Hu1.
  pose proof (process_tables_untouched post t b wb Hpost) as Hu3.
  pose proof (process_tables_file_tracks pre t b w0 Hnotpre) as Hf1.
  pose proof (process_tables_file_tracks post t b wb Hpost) as Hf3.
  rewrite Hrun1 in Hu1, Hf1. rewrite Hrun3 in Hu3, Hf3. cbn [snd] in *.
  exists wa, o, wb.
  split; [|split; [|split; [|split; [|split; [|split; [|split]]]]]].
  - etransitivity; [apply same_but_log_untouched, Hw0|exact Hu1].
  - intros Htr. apply Hf1. apply (same_but_log_file_tracks t w w0 Hw0 Htr).
  - exact Ho.
  - etransitivity; [exact Hu3|apply same_but_log_untouched, Hw1].
  - intros Htr. apply (same_but_log_file_tracks t w1 w' Hw1). apply Hf3, Htr.
  - apply elem_of_app. right. left.
  - intros o' Ho' Ht'.
    destruct (process_tables_total pre b w0) as (outs1' & w0' & Hrun1' & Hnames1).
    destruct (process_tables_total post b wb) as (outs3' & w3' & Hrun3' & Hnames3).
    rewrite Hrun1 in Hrun1'. injection Hrun1' as <- <-.
    rewrite Hrun3 in Hrun3'. injection Hrun3' as <- <-.
    apply elem_of_app in Ho' as [Ho'|Ho'].
    + exfalso. apply Hnotpre. rewrite <- Hnames1, <- Ht'. apply elem_of_stats_table, Ho'.
    + apply elem_of_cons in Ho' as [->|Ho']; [reflexivity|].
      exfalso. apply Hpost. rewrite <- Hnames3, <- Ht'. apply elem_of_stats_table, Ho'.
  - exact Hts.
Qed.



(** The idempotence example of the specification: the first run
    processes [races] and [results], the second finds both up to date and
    leaves the silver store and the state file as they were. *)
Example second_run_changes_nothing :
  let w1 := Examples.world_after_first_run in
  let w2 := (run_incremental w1).2 in
  (run_incremental Examples.world_bronze).1
  = Ok [ Success "races" [CInt 2005; CInt 2012] 3 3;
         Success "results" [CInt 2005; CInt 2012] 4 4;
         Failed "qualifying" (ErrLit "bronze_file_not_found");
         Failed "sprint_results" (ErrLit "bronze_file_not_found");
         Failed "lap_times" (ErrLit "bronze_file_not_found");
         Failed "pit_stops" (ErrLit "bronze_file_not_found");
         Failed "driver_standings" (ErrLit "bronze_file_not_found");
         Failed "constructor_standings" (ErrLit "bronze_file_not_found");
         Failed "constructor_results" (ErrLit "bronze_file_not_found") ]
  /\ (run_incremental w1).1
     = Ok [ UpToDate "races";
            UpToDate "results";
            Failed "qualifying" (ErrLit "bronze_file_not_found");
            Failed "sprint_results" (ErrLit "bronze_file_not_found");
            Failed "lap_times" (ErrLit "bronze_file_not_found");
            Failed "pit_stops" (ErrLit "bronze_file_not_found");
            Failed "driver_standings" (ErrLit "bronze_file_not_found");
            Failed "constructor_standings" (ErrLit "bronze_file_not_found");
            Failed "constructor_results" (ErrLit "bronze_file_not_found") ]
  /\ silver w2 = silver w1
  /\ state_file w2 = state_file w1.
Proof.
  cbv zeta. split; [|split; [|split]]; vm_compute; reflexivity.
Qed.

End Rerun.

(** ** Retrying after a failed write *)

Section Retry.

Import IncrementalProcessor.

Ltac in_computed_list :=
  repeat first [left; reflexivity | right].

Lemma load_depends_on_file (w1 w2 : World) :
  state_file w1 = state_file w2 -> (_load_state w1).1 = (_load_state w2).1.
Proof.
  intros H. unfold _load_state. rewrite H.
  destruct (state_file w2) as [ts|]; [|reflexivity].
  destruct (Json.decode ts); reflexivity.
Qed.

(** Only a fact table gets as far as the write. *)
Lemma prepare_write_fact_table (t : string) (b : bool) (w w1 : World)
      (years : list cell) (df_final df_tr : DataFrame) :
  prepare_write t b w = (Ok (inr (years, df_final, df_tr)), w1) ->
  t ∈ Config.TABLES_WITH_YEAR.
Proof.
  intros Hprep.
  destruct (prepare_write_inr _ _ _ _ _ _ _ Hprep) as (df & avail & _ & _ & _ & Hread & _).
  destruct (Config.has_year_column t) eqn:Hfact.
  - exact (bool_decide_eq_true_1 _ Hfact).
  - unfold read_with_year in Hread. rewrite Hfact in Hread. discriminate.
Qed.

(** C1 (amended).  When the steps before the write have run
    ([prepare_write] returns the years and the frames) and the write of
    the merged frame raises, [process_table_incremental] returns a failed
    outcome carrying that exception; [mark_years_processed] is not
    reached, so the state in memory, the state file and the processed set
    of the table are what they were.  Planning the table again with the
    same flag, in any world with the same bronze store and processed set,
    yields the same years; and when the state file agrees with the
    processor on the table, so does a later run of the same kind, by a
    new processor on the state file and bronze store left behind, when
    the turn of the table comes. *)
Theorem write_failure_leaves_state
        (w w1 : World) (t : string) (b : bool) (years : list cell)
        (df_final df_transformed : DataFrame) (f : write_failure) :
  prepare_write t b w = (Ok (inr (years, df_final, df_transformed)), w1) ->
  write_fault (env w) !! t = Some f ->
  exists w' df_with_year,
    process_table_incremental t b w
    = (Ok (Failed t (ErrExn (write_error f))), w')
    /\ state w' = state w
    /\ state_file w' = state_file w
    /\ get_processed_years (state w') t = get_processed_years (state w) t
    /\ bronze w' = bronze w
    /\ (plan_table t b w).1 = Ok (inr (years, df_with_year))
    /\ (forall w2, same_plan_inputs t w' w2 ->
                   (plan_table t b w2).1 = Ok (inr (years, df_with_year)))
    /\ (forall st0 w2,
          (_load_state w).1 = Ok st0 ->
          get_processed_years st0 t = get_processed_years (state w) t ->
          state_file w2 = state_file w' ->
          bronze w2 = bronze w' ->
          exists outs w3 wa o wb,
            (if b then run_initial else run_incremental) w2 = (Ok outs, w3)
            /\ process_table_incremental t b wa = (Ok o, wb)
            /\ o ∈ outs
            /\ (forall o', o' ∈ outs -> stats_table o' = t -> o' = o)
            /\ (plan_table t b wa).1 = Ok (inr (years, df_with_year))).
Proof.
  intros Hprep Hfault.
  pose proof (prepare_write_fact_table _ _ _ _ _ _ _ Hprep) as Hfact.
  destruct (prepare_write_plan _ _ _ _ _ _ _ Hprep) as (df & w0 & Hplan).
  set (wl := add_log (INFO, MsgProcessing t) w).
  assert (Hl : same_but_log w wl) by apply same_but_log_add_log_l.
  destruct (prepare_write_respects_log t b w wl Hl) as [Hres _].
  rewrite Hprep in Hres. cbn [fst] in Hres.
  assert (Hrun : exists w',
             process_table_incremental t b w
             = (Ok (Failed t (ErrExn (write_error f))), w')
             /\ state w' = state w /\ state_file w' = state_file w
             /\ bronze w' = bronze w).
  { destruct (process_table_incremental_cases t b w)
      as [(early & w' & Hprep' & Hrun)|[(e' & w2 & Hprep' & Hrun)|
          (years' & df_final' & df_tr' & w2 & Hprep' & Hrun)]];
      fold wl in Hprep'; rewrite Hprep' in Hres; try discriminate.
    rewrite Hfault in Hrun.
    pose proof (steps_returns_world _ _ _ _ _ (prepare_write_log_only t b) Hprep')
      as Hw2.
    assert (Hww2 : same_but_log w w2) by (transitivity wl; assumption).
    destruct Hww2 as (He & Ht & Hs & Hb & Hv & Hf).
    eexists. split; [exact Hrun|]. destruct f; cbn; auto. }
  destruct Hrun as (w' & Hrun & Hstate & Hfile & Hbronze).
  assert (Hreplan : forall w2, same_plan_inputs t w w2 ->
                               (plan_table t b w2).1 = Ok (inr (years, df))).
  { intros w2 Hin. destruct (plan_table_respects_inputs t b w w2 Hin) as [Hr _].
    rewrite <- Hr, Hplan. reflexivity. }
  exists w', df. rewrite Hrun, Hstate, Hplan.
  split; [reflexivity|]. split; [reflexivity|]. split; [exact Hfile|].
  split; [reflexivity|]. split; [exact Hbronze|]. split; [reflexivity|]. split.
  - intros w2 [Hb2 Hp2]. apply Hreplan. split; [congruence|].
    rewrite <- Hp2, Hstate. reflexivity.
  - intros st0 w2 Hload Hagree Hfile2 Hbronze2.
    assert (Hload2 : (_load_state w2).1 = Ok st0).
    { rewrite <- Hload. apply load_depends_on_file. congruence. }
    destruct (init_run w2 st0 Hload2) as (wi & Hinit & Hsti & _ & Hbi & _).
    destruct (process_all_incremental_run b wi)
      as (outs & _ & _ & w3 & Hall & _).
    destruct (process_all_incremental_turn t b wi w3 outs Hfact Hall)
      as (wa & o & wb & Hbefore & _ & Hpti & _ & _ & Hin & Huniq & _).
    exists outs, w3, wa, o, wb. split; [|split; [exact Hpti|split; [exact Hin|split]]].
    + destruct b; [unfold run_initial|unfold run_incremental];
        rewrite run_bind, Hinit; exact Hall.
    + exact Huniq.
    + apply Hreplan. destruct Hbefore as (_ & Hba & Hsa & _). split.
      * congruence.
      * unfold get_processed_years, processed_list in *.
        rewrite Hsa, Hsti. exact (eq_sym Hagree).
Qed.

Lemma write_failure_leaves_state_witness :
  let w := Examples.world_write_fails in
  exists w' df_with_year,
    process_table_incremental "results" false w
    = (Ok (Failed "results" (ErrExn (OSError "results.parquet"))), w')
    /\ state w' = state w
    /\ state_file w' = state_file w
    /\ get_processed_years (state w') "results" = get_processed_years (state w) "results"
    /\ bronze w' = bronze w
    /\ (plan_table "results" false w).1
       = Ok (inr ([CInt 2005; CInt 2012], df_with_year))
    /\ (forall w2, same_plan_inputs "results" w' w2 ->
                   (plan_table "results" false w2).1
                   = Ok (inr ([CInt 2005; CInt 2012], df_with_year)))
    /\ (forall st0 w2,
          (_load_state w).1 = Ok st0 ->
          get_processed_years st0 "results" = get_processed_years (state w) "results" ->
          state_file w2 = state_file w' ->
          bronze w2 = bronze w' ->
          exists outs w3 wa o wb,
            run_incremental w2 = (Ok outs, w3)
            /\ process_table_incremental "results" false wa = (Ok o, wb)
            /\ o ∈ outs
            /\ (forall o', o' ∈ outs -> stats_table o' = "results" -> o' = o)
            /\ (plan_table "results" false wa).1
               = Ok (inr ([CInt 2005; CInt 2012], df_with_year))).
Proof.
  cbv zeta.
  eapply (write_failure_leaves_state Examples.world_write_fails _ "results" false
            [CInt 2005; CInt 2012] _ _ (Truncated (OSError "results.parquet"))).
  - vm_compute. reflexivity.
  - reflexivity.
Defined.

(** C1 as stated fails for the run that follows in the scheduler.  In the
    example the first run is an initial load: it plans 2005 for
    [results], the write fails, and [races] succeeds.  The state is then
    not empty, so the next run is incremental and plans 2005 and 2012 for
    [results]. *)
Lemma write_failure_replan_counterexample :
  let w := Examples.world_write_fails in
  let run1 := Dag.run_incremental_processing w in
  let run2 := Dag.run_incremental_processing run1.2 in
  (exists r, run1.1 = Ok r /\ Dag.load_type r = "initial")
  /\ (exists df, (plan_table "results" true w).1 = Ok (inr ([CInt 2005], df)))
  /\ (INFO, MsgInitialLoad "results" (CInt 2005) (CInt 2005)) ∈ log run1.2
  /\ (ERROR, MsgError "results" (OSError "results.parquet")) ∈ log run1.2
  /\ get_processed_years (state run1.2) "results" = get_processed_years (state w) "results"
  /\ (exists r, run2.1 = Ok r /\ Dag.load_type r = "incremental")
  /\ (INFO, MsgIncrementalLoad "results" [CInt 2005; CInt 2012]) ∈ log run2.2
  /\ (exists df, (plan_table "results" false (init run1.2).2).1
                 = Ok (inr ([CInt 2005; CInt 2012], df)))
  /\ [CInt 2005] <> [CInt 2005; CInt 2012].
Proof.
  cbv zeta.
  split; [eexists; split; vm_compute; reflexivity|].
  split; [eexists; vm_compute; reflexivity|].
  split; [apply list_elem_of_In; vm_compute; in_computed_list|].
  split; [apply list_elem_of_In; vm_compute; in_computed_list|].
  split; [vm_compute; reflexivity|].
  split; [eexists; split; vm_compute; reflexivity|].
  split; [apply list_elem_of_In; vm_compute; in_computed_list|].
  split; [eexists; vm_compute; reflexivity|].
  discriminate.
Qed.

End Retry.

(** ** The partition key of a row *)

Section PartitionKey.

Import IncrementalProcessor.

















End PartitionKey.

(** ** Every table has its turn *)

Section PassIsolation.

Import IncrementalProcessor.

Lemma untouched_inputs (t : string) (w w' : World) :
  untouched t w w' -> same_table_inputs t w w'.
Proof.
  intros (He & Hb & Hs & Hv).
  split; [congruence|]. split; [congruence|]. split.
  - unfold processed_list. rewrite Hs. reflexivity.
  - congruence.
Qed.

(** C9.  [process_all_incremental] goes through [TABLES_WITH_YEAR] in
    that order and returns one outcome per table.  Every table has its
    turn, whatever happened to the tables before it: its outcome in the
    summary is the one [process_table_incremental] returns when the turn
    of the table comes, in a world where nothing that belongs to the table
    has changed since the start of the pass, and it is the outcome the
    table gets when it is processed alone from that start.  What the
    table's turn leaves of the table is still there at the end of the
    pass.  No table makes the pass raise: an exception in the body of a
    table becomes the failed outcome of that table, and the pass goes on
    with the remaining tables whatever the outcome was. *)
Theorem run_all_isolates_failures (w : World) (b : bool) :
  (exists outs w',
      process_all_incremental b w = (Ok outs, w')
      /\ map stats_table outs = Config.TABLES_WITH_YEAR
      /\ NoDup (map stats_table outs)
      /\ forall t, t ∈ Config.TABLES_WITH_YEAR ->
           exists wa o wb,
             untouched t w wa
             /\ process_table_incremental t b wa = (Ok o, wb)
             /\ untouched t wb w'
             /\ o ∈ outs
             /\ (forall o', o' ∈ outs -> stats_table o' = t -> o' = o)
             /\ (process_table_incremental t b w).1 = Ok o
             /\ (forall e w2,
                   process_table_body t b (add_log (INFO, MsgProcessing t) wa)
                   = (Raise e, w2) ->
                   o = Failed t (ErrExn e)))
  /\ (forall t w0, exists o w1,
         process_table_incremental t b w0 = (Ok o, w1)
         /\ stats_table o = t
         /\ forall e w2,
             process_table_body t b (add_log (INFO, MsgProcessing t) w0) = (Raise e, w2) ->
             o = Failed t (ErrExn e))
  /\ (forall t ts w0, exists o w1 outs w2,
         process_table_incremental t b w0 = (Ok o, w1)
         /\ process_tables ts b w1 = (Ok outs, w2)
         /\ process_tables (t :: ts) b w0 = (Ok (o :: outs), w2))
  /\ (forall x y w0, x <> y ->
         (process_table_incremental y b (process_table_incremental x b w0).2).1
         = (process_table_incremental y b w0).1).
Proof.
  split; [|split; [|split]].
  - destruct (process_all_incremental_run b w) as (outs & w0 & w1 & w' & Hall & Hloop & _).
    destruct (process_tables_total Config.TABLES_WITH_YEAR b w0) as (outs' & w1' & Hloop' & Hts).
    rewrite Hloop in Hloop'. injection Hloop' as <- <-.
    exists outs, w'. split; [exact Hall|]. split; [exact Hts|].
    split; [rewrite Hts; exact NoDup_TABLES_WITH_YEAR|].
    intros t Ht.
    destruct (process_all_incremental_turn t b w w' outs Ht Hall)
      as (wa & o & wb & Hbefore & _ & Hpti & Hafter & _ & Hin & Huniq & _).
    exists wa, o, wb. split; [exact Hbefore|]. split; [exact Hpti|].
    split; [exact Hafter|]. split; [exact Hin|]. split; [exact Huniq|]. split.
    + rewrite (process_table_incremental_outcome t b w wa (untouched_inputs _ _ _ Hbefore)).
      rewrite Hpti. reflexivity.
    + intros e w2 Hbody.
      destruct (process_table_incremental_total t b wa) as (o' & wb' & Hpti' & _ & Hexn).
      rewrite Hpti in Hpti'. injection Hpti' as <- <-.
      exact (proj1 (Hexn e w2 Hbody)).
  - intros t w0.
    destruct (process_table_incremental_total t b w0) as (o & w1 & Ho & Hto & Hexn).
    exists o, w1. repeat split; auto. intros e w2 Hbody. apply (Hexn e w2 Hbody).
  - intros t ts w0.
    destruct (process_table_incremental_total t b w0) as (o & w1 & Ho & _).
    destruct (process_tables_total ts b w1) as (outs & w2 & Houts & _).
    exists o, w1, outs, w2. repeat split; auto.
    cbn [process_tables]. rewrite run_bind, Ho, run_bind, Houts. reflexivity.
  - intros x y w0 Hne. symmetry. apply process_table_incremental_outcome.
    apply (touches_only_inputs x y); [exact Hne|].
    apply process_table_incremental_touches.
Qed.

Lemma run_all_isolates_failures_witness :
  exists outs w',
    process_all_incremental false Examples.world_transform_raises = (Ok outs, w')
    /\ map stats_table outs = Config.TABLES_WITH_YEAR
    /\ NoDup (map stats_table outs)
    /\ forall t, t ∈ Config.TABLES_WITH_YEAR ->
         exists wa o wb,
           untouched t Examples.world_transform_raises wa
           /\ process_table_incremental t false wa = (Ok o, wb)
           /\ untouched t wb w'
           /\ o ∈ outs
           /\ (forall o', o' ∈ outs -> stats_table o' = t -> o' = o)
           /\ (process_table_incremental t false Examples.world_transform_raises).1 = Ok o
           /\ (forall e w2,
                 process_table_body t false (add_log (INFO, MsgProcessing t) wa)
                 = (Raise e, w2) ->
                 o = Failed t (ErrExn e)).
Proof.
  exact (proj1 (run_all_isolates_failures Examples.world_transform_raises false)).
Defined.

End PassIsolation.

(** ** Recording processed years *)

Section Marking.

Import IncrementalProcessor.

Lemma insert_raises (x : cell) (l : list cell) (e : exn) :
  Py.insert x l = Raise e -> e = TypeError.
Proof.
  induction l as [|y l IH]; simpl; [discriminate|].
  destruct y as [|y|y], x as [|x|x]; simpl; try (intros [= <-]; reflexivity).
  - destruct (y <? x)%Z; [|discriminate].
    destruct (Py.insert (CInt x) l) eqn:E; simpl; [discriminate|].
    intros [= <-]. apply IH. reflexivity.
  - destruct (String.ltb y x); [|discriminate].
    destruct (Py.insert (CStr x) l) eqn:E; simpl; [discriminate|].
    intros [= <-]. apply IH. reflexivity.
Qed.

Lemma sorted_raises (l : list cell) (e : exn) :
  Py.sorted l = Raise e -> e = TypeError.
Proof.
  induction l as [|x l IH]; simpl; [discriminate|].
  destruct (Py.sorted l) as [r|e'] eqn:E; simpl.
  - apply insert_raises.
  - intros [= <-]. apply IH. reflexivity.
Qed.

Lemma mark_years_processed_Ok (t : string) (years : list cell) (w w' : World) :
  mark_years_processed t years w = (Ok tt, w') ->
  exists sorted_years,
    Py.sorted (elements (get_processed_years (state w) t ∪ list_to_set years))
    = Ok sorted_years
    /\ w' = add_log (INFO, MsgStateSaved)
              (set_state_file
                 (Some (Json.encode
                          (<[t := {| processed_years := sorted_years;
                                     last_update := Some (clock (env w) (ticks w)) |}]>
                             (with_entry t (state w)))))
                 (set_state
                    (<[t := {| processed_years := sorted_years;
                               last_update := Some (clock (env w) (ticks w)) |}]>
                       (with_entry t (state w)))
                    (set_ticks (S (ticks w)) w))).
Proof.
  rewrite mark_years_processed_run. cbv zeta.
  destruct (Py.sorted _) as [sorted_years|e]; [|discriminate].
  intros [= <-]. exists sorted_years. split; reflexivity.
Qed.

(** X1.  When [mark_years_processed] returns, the years recorded for the
    table are the ones recorded before together with the new ones, no
    other table's entry has changed, the state file holds the state in
    memory and loads back to it, and neither store was touched. *)
Theorem mark_years_processed_commits (t : string) (years : list cell) (w w' : World) :
  mark_years_processed t years w = (Ok tt, w') ->
  get_processed_years (state w') t
  = get_processed_years (state w) t ∪ list_to_set years
  /\ (forall t', t' <> t -> state w' !! t' = state w !! t')
  /\ state_file w' = Some (Json.encode (state w'))
  /\ (_load_state w').1 = Ok (state w')
  /\ silver w' = silver w
  /\ bronze w' = bronze w.
Proof.
  intros H. apply mark_years_processed_Ok in H as (sorted_years & Hs & ->).
  split; [|split; [|split; [|split; [|split]]]]; try reflexivity.
  - simpl. apply processed_after_insert. exact Hs.
  - intros t' Hne. simpl. rewrite lookup_insert_ne by congruence.
    apply lookup_with_entry_ne. exact Hne.
  - unfold _load_state. cbn [state_file add_log set_state_file].
    rewrite decode_encode. reflexivity.
Qed.


Lemma cells_are_ints (l : list cell) :
  (forall c, c ∈ l -> exists z, c = CInt z) -> exists zs, l = map CInt zs.
Proof.
  induction l as [|c l IH]; intros H.
  - exists []. reflexivity.
  - destruct (H c) as [z ->]; [left|].
    destruct IH as [zs ->]; [intros c Hc; apply H; right; exact Hc|].
    exists (z :: zs). reflexivity.
Qed.

Lemma elements_ints (S : gset cell) :
  (forall c, c ∈ S -> exists z, c = CInt z) ->
  exists zs, elements S = map CInt zs /\ NoDup zs.
Proof.
  intros H. destruct (cells_are_ints (elements S)) as [zs Hzs].
  - intros c Hc. apply H. apply elem_of_elements. exact Hc.
  - exists zs. split; [exact Hzs|].
    pose proof (NoDup_elements S) as Hnd. rewrite Hzs in Hnd.
    apply (NoDup_fmap_1 CInt). exact Hnd.
Qed.

(** [mark_years_processed] run on integer years. *)
Lemma mark_years_processed_on_ints (t : string) (ps ys : list Z) (w : World) :
  processed_list (state w) t = map CInt ps ->
  exists zs w',
    mark_years_processed t (map CInt ys) w = (Ok tt, w')
    /\ processed_list (state w') t = map CInt zs
    /\ StronglySorted Z.lt zs
    /\ (forall z, z ∈ zs <-> z ∈ ps \/ z ∈ ys).
Proof.
  intros Hps. rewrite mark_years_processed_run. cbv zeta.
  unfold get_processed_years. rewrite Hps.
  destruct (elements_ints (list_to_set (map CInt ps) ∪ list_to_set (map CInt ys)))
    as (l & Hl & Hnd).
  { intros c Hc. apply elem_of_union in Hc as [Hc|Hc];
      apply elem_of_list_to_set, list_elem_of_fmap in Hc as (z & -> & _);
      exists z; reflexivity. }
  rewrite Hl. destruct (sorted_ints l) as (zs & -> & Hperm & Hsorted).
  eexists zs, _. split; [reflexivity|]. split; [|split].
  - unfold processed_list. cbn [state add_log set_state_file set_state].
    rewrite lookup_insert_eq. reflexivity.
  - apply sorted_nodup_strict; [exact Hsorted|].
    rewrite Hperm. exact Hnd.
  - intros z. rewrite Hperm, <- elem_of_map_CInt.
    change (map CInt l) with (CInt <$> l). change (map CInt l) with (CInt <$> l) in Hl.
    rewrite <- Hl, elem_of_elements, elem_of_union, !elem_of_list_to_set.
    rewrite !elem_of_map_CInt. reflexivity.
Qed.

(** X2.  On integer years [mark_years_processed] never raises, and the
    list it stores is strictly increasing: the old and the new years,
    each once. *)
Theorem mark_years_processed_ints (t : string) (ps ys : list Z) (w : World) :
  processed_list (state w) t = map CInt ps ->
  exists zs w',
    mark_years_processed t (map CInt ys) w = (Ok tt, w')
    /\ processed_list (state w') t = map CInt zs
    /\ StronglySorted Z.lt zs
    /\ (forall z, z ∈ zs <-> z ∈ ps \/ z ∈ ys).
Proof. apply mark_years_processed_on_ints. Qed.

(** X4.  Marking the same years a second time succeeds and stores the
    same list. *)
Theorem mark_years_processed_again (t : string) (years : list cell) (w w1 : World) :
  mark_years_processed t years w = (Ok tt, w1) ->
  exists w2,
    mark_years_processed t years w1 = (Ok tt, w2)
    /\ processed_list (state w2) t = processed_list (state w1) t
    /\ (forall t', t' <> t -> state w2 !! t' = state w1 !! t').
Proof.
  intros H. apply mark_years_processed_Ok in H as (sorted_years & Hs & ->).
  rewrite mark_years_processed_run. cbv zeta.
  cbn [state add_log set_state_file set_state].
  rewrite (processed_after_insert _ _ _ _ _ Hs).
  assert (Hidem : forall A B : gset cell, A ∪ B ∪ B = A ∪ B).
  { intros A B. apply set_eq. intros x. rewrite !elem_of_union. tauto. }
  rewrite Hidem.
  rewrite Hs. eexists. split; [reflexivity|]. split.
  - unfold processed_list. cbn [state add_log set_state_file set_state].
    rewrite !lookup_insert_eq. reflexivity.
  - intros t' Hne. cbn [state add_log set_state_file set_state].
    rewrite lookup_insert_ne by congruence.
    apply lookup_with_entry_ne. exact Hne.
Qed.

Lemma max_from_ints_spec (l : list Z) (m0 : Z) :
  exists m, Py.max_from (CInt m0) (map CInt l) = Ok (CInt m)
            /\ (m = m0 \/ m ∈ l) /\ m0 <= m /\ (forall p, p ∈ l -> p <= m).
Proof.
  revert m0. induction l as [|x l IH]; intros m0; simpl.
  - exists m0. split; [reflexivity|]. split; [left; reflexivity|]. split; [lia|].
    intros p Hp. inversion Hp.
  - destruct (Z.ltb_spec m0 x) as [Hlt|Hge].
    + destruct (IH x) as (m & -> & Hin & Hle & Hall). exists m.
      split; [reflexivity|]. split; [|split; [lia|]].
      * right. destruct Hin as [->|Hin]; [left|right; exact Hin].
      * intros p Hp. apply elem_of_cons in Hp as [->|Hp]; [exact Hle|apply Hall, Hp].
    + destruct (IH m0) as (m & -> & Hin & Hle & Hall). exists m.
      split; [reflexivity|]. split; [|split; [lia|]].
      * destruct Hin as [->|Hin]; [left; reflexivity|right; right; exact Hin].
      * intros p Hp. apply elem_of_cons in Hp as [->|Hp]; [lia|apply Hall, Hp].
Qed.

(** X5.  [get_max_processed_year] on integer years: [None] when no year
    is recorded, the greatest recorded year otherwise. *)
Theorem get_max_processed_year_ints (st : gmap string TableState) (t : string)
        (ps : list Z) :
  processed_list st t = map CInt ps ->
  match ps with
  | [] => get_max_processed_year st t = Ok None
  | _ :: _ =>
      exists m, get_max_processed_year st t = Ok (Some (CInt m))
                /\ m ∈ ps /\ (forall p, p ∈ ps -> p <= m)
  end.
Proof.
  intros Hps. unfold get_max_processed_year, get_processed_years. rewrite Hps.
  destruct ps as [|p0 ps].
  - reflexivity.
  - rewrite bool_decide_eq_false_2.
    2:{ intros Hempty. apply (not_elem_of_empty (C := gset cell) (CInt p0)).
        rewrite <- Hempty. apply elem_of_list_to_set. left. }
    destruct (elements_ints (list_to_set (map CInt (p0 :: ps)))) as (l & Hl & _).
    { intros c Hc. apply elem_of_list_to_set, list_elem_of_fmap in Hc as (z & -> & _).
      exists z. reflexivity. }
    assert (Hmem : forall z, z ∈ l <-> z ∈ p0 :: ps).
    { intros z. rewrite <- (elem_of_map_CInt z l), <- Hl, elem_of_elements,
        elem_of_list_to_set. apply elem_of_map_CInt. }
    rewrite Hl. destruct l as [|x l].
    { exfalso. apply (not_elem_of_nil p0). apply Hmem. left. }
    cbn [map Py.max]. destruct (max_from_ints_spec l x) as (m & -> & Hin & Hle & Hall).
    exists m. split; [reflexivity|]. split.
    + apply Hmem. destruct Hin as [->|Hin]; [left|right; exact Hin].
    + intros p Hp. apply Hmem in Hp. apply elem_of_cons in Hp as [->|Hp];
        [exact Hle|apply Hall, Hp].
Qed.

Lemma get_max_processed_year_ints_witness :
  exists m, get_max_processed_year Examples.state_2008 "results" = Ok (Some (CInt m))
            /\ m ∈ [2005; 2008] /\ (forall p, p ∈ [2005; 2008] -> p <= m).
Proof.
  apply (get_max_processed_year_ints Examples.state_2008 "results" [2005; 2008]).
  reflexivity.
Defined.

Lemma mark_years_processed_commits_witness :
  let w := Examples.world_2005 in
  let w' := (mark_years_processed "results" [CInt 2008] w).2 in
  get_processed_years (state w') "results"
  = get_processed_years (state w) "results" ∪ list_to_set [CInt 2008]
  /\ (forall t', t' <> "results" -> state w' !! t' = state w !! t')
  /\ state_file w' = Some (Json.encode (state w'))
  /\ (_load_state w').1 = Ok (state w')
  /\ silver w' = silver w
  /\ bronze w' = bronze w.
Proof.
  cbv zeta.
  apply (mark_years_processed_commits "results" [CInt 2008] Examples.world_2005).
  vm_compute. reflexivity.
Defined.

Lemma mark_years_processed_ints_witness :
  exists zs w',
    mark_years_processed "results" (map CInt [2012; 2008]) Examples.world_2005
    = (Ok tt, w')
    /\ processed_list (state w') "results" = map CInt zs
    /\ StronglySorted Z.lt zs
    /\ (forall z, z ∈ zs <-> z ∈ [2005] \/ z ∈ [2012; 2008]).
Proof.
  apply (mark_years_processed_ints "results" [2005] [2012; 2008] Examples.world_2005).
  reflexivity.
Defined.

Lemma mark_years_processed_again_witness :
  let w1 := (mark_years_processed "results" [CInt 2008] Examples.world_2005).2 in
  exists w2,
    mark_years_processed "results" [CInt 2008] w1 = (Ok tt, w2)
    /\ processed_list (state w2) "results" = processed_list (state w1) "results"
    /\ (forall t', t' <> "results" -> state w2 !! t' = state w1 !! t').
Proof.
  cbv zeta.
  apply (mark_years_processed_again "results" [CInt 2008] Examples.world_2005).
  vm_compute. reflexivity.
Defined.

End Marking.

(** ** Resetting the state *)

Section Resetting.

Import IncrementalProcessor.

Lemma save_state_run (w : World) :
  _save_state w =
  (Ok tt, add_log (INFO, MsgStateSaved)
            (set_state_file (Some (Json.encode (state w))) w)).
Proof.
  unfold _save_state, logger_info. rewrite run_modify_bind.
  unfold modify. rewrite run_save_ops. reflexivity.
Qed.

Lemma load_saved_state (w : World) (st : gmap string TableState) :
  state_file w = Some (Json.encode st) -> _load_state w = (Ok st, w).
Proof. intros H. unfold _load_state. rewrite H, decode_encode. reflexivity. Qed.

Lemma reset_state_all_run (table_name : option string) (w : World) :
  table_name = None \/ table_name = Some "" ->
  reset_state table_name w =
  (Ok tt, add_log (INFO, MsgStateSaved)
            (set_state_file (Some (Json.encode ∅))
               (add_log (INFO, MsgResetAll) (set_state ∅ w)))).
Proof.
  intros [->| ->]; unfold reset_state;
    rewrite ?bool_decide_eq_true_2 by reflexivity;
    unfold logger_info; rewrite run_bind, run_modify_bind;
    unfold modify at 1; rewrite save_state_run; reflexivity.
Qed.

Lemma filter_not_in_empty (S : gset cell) (l : list cell) :
  S = ∅ -> filter (fun y => y ∉ S) l = l.
Proof.
  intros ->. induction l as [|y l IH]; [reflexivity|].
  rewrite filter_cons_True by (cbn; apply not_elem_of_empty).
  f_equal. exact IH.
Qed.

(** X6.  [reset_state] without a table name, or with the empty string
    (which [if table_name:] takes for no name), forgets every table and
    saves the empty state.  An incremental plan made afterwards selects
    every available year.  The merged files stay as they are. *)
Theorem reset_state_all (table_name : option string) (w : World) :
  table_name = None \/ table_name = Some "" ->
  exists w',
    reset_state table_name w = (Ok tt, w')
    /\ state w' = ∅
    /\ state_file w' = Some (Json.encode ∅)
    /\ (_load_state w').1 = Ok ∅
    /\ (forall t avail,
          (get_years_to_process t avail false w').1 = Py.sorted avail)
    /\ silver w' = silver w
    /\ bronze w' = bronze w.
Proof.
  intros Hname.
  eexists. split; [exact (reset_state_all_run table_name w Hname)|].
  split; [reflexivity|]. split; [reflexivity|]. split.
  { erewrite load_saved_state; reflexivity. }
  split; [|split; reflexivity].
  intros t avail. rewrite get_years_to_process_else by (left; reflexivity).
  cbv zeta. cbn [fst]. rewrite filter_not_in_empty; [reflexivity|].
  unfold get_processed_years, processed_list.
  cbn [state add_log set_state_file set_state]. rewrite lookup_empty. reflexivity.
Qed.

Lemma reset_state_all_witness :
  exists w',
    reset_state None Examples.world_merged_2005 = (Ok tt, w')
    /\ state w' = ∅
    /\ state_file w' = Some (Json.encode ∅)
    /\ (_load_state w').1 = Ok ∅
    /\ (forall t avail,
          (get_years_to_process t avail false w').1 = Py.sorted avail)
    /\ silver w' = silver Examples.world_merged_2005
    /\ bronze w' = bronze Examples.world_merged_2005.
Proof.
  apply (reset_state_all None Examples.world_merged_2005).
  left. reflexivity.
Defined.

(** X7.  [reset_state] with a table name forgets that table only, known
    or not, and saves the state; the merged files stay as they are. *)
Theorem reset_state_table (t : string) (w : World) :
  t <> "" ->
  exists w',
    reset_state (Some t) w = (Ok tt, w')
    /\ state w' = delete t (state w)
    /\ get_processed_years (state w') t = ∅
    /\ (forall t', t' <> t -> state w' !! t' = state w !! t')
    /\ state_file w' = Some (Json.encode (state w'))
    /\ (_load_state w').1 = Ok (state w')
    /\ silver w' = silver w
    /\ bronze w' = bronze w.
Proof.
  intros Hne. unfold reset_state.
  rewrite bool_decide_eq_false_2 by exact Hne.
  rewrite run_bind, run_gets_bind.
  destruct (bool_decide (is_Some (state w !! t))) eqn:Hin.
  - unfold logger_info. rewrite run_modify_bind. unfold modify at 1.
    rewrite save_state_run. eexists. split; [reflexivity|].
    cbn [state add_log set_state_file set_state silver bronze].
    split; [reflexivity|]. split.
    { unfold get_processed_years, processed_list. rewrite lookup_delete_eq. reflexivity. }
    split; [intros t' Ht'; apply lookup_delete_ne; congruence|].
    split; [reflexivity|]. split; [|split; reflexivity].
    erewrite load_saved_state; reflexivity.
  - apply bool_decide_eq_false in Hin.
    assert (Hnone : state w !! t = None).
    { destruct (state w !! t) eqn:E; [exfalso; apply Hin; eauto|reflexivity]. }
    unfold mret, M_ret. rewrite save_state_run. eexists. split; [reflexivity|].
    cbn [state add_log set_state_file set_state silver bronze].
    rewrite (delete_id _ _ Hnone).
    split; [reflexivity|]. split.
    { unfold get_processed_years, processed_list. rewrite Hnone. reflexivity. }
    split; [reflexivity|]. split; [reflexivity|]. split; [|split; reflexivity].
    erewrite load_saved_state; reflexivity.
Qed.

Lemma reset_state_table_witness :
  exists w',
    reset_state (Some "results") Examples.world_merged_2005 = (Ok tt, w')
    /\ state w' = delete "results" (state Examples.world_merged_2005)
    /\ get_processed_years (state w') "results" = ∅
    /\ (forall t', t' <> "results" ->
                   state w' !! t' = state Examples.world_merged_2005 !! t')
    /\ state_file w' = Some (Json.encode (state w'))
    /\ (_load_state w').1 = Ok (state w')
    /\ silver w' = silver Examples.world_merged_2005
    /\ bronze w' = bronze Examples.world_merged_2005.
Proof.
  apply (reset_state_table "results" Examples.world_merged_2005).
  discriminate.
Defined.

End Resetting.

(** ** What an outcome tells about the state *)

Section Outcomes.

Import IncrementalProcessor.

Lemma prepare_write_world (t : string) (b : bool) (w w1 : World)
      (r : result (stats + list cell * DataFrame * DataFrame)) :
  prepare_write t b (add_log (INFO, MsgProcessing t) w) = (r, w1) ->
  same_but_log w w1.
Proof.
  intros H. transitivity (add_log (INFO, MsgProcessing t) w).
  - apply same_but_log_add_log_l.
  - exact (steps_returns_world _ _ _ _ _ (prepare_write_log_only t b) H).
Qed.

Lemma process_table_incremental_not_success (t : string) (b : bool) (w w' : World)
      (o : stats) :
  process_table_incremental t b w = (Ok o, w') ->
  stats_status o <> success ->
  state_file w' = state_file w
  /\ ticks w' = ticks w
  /\ (forall t', processed_list (state w') t' = processed_list (state w) t').
Proof.
  intros Hrun Hns.
  destruct (process_table_incremental_cases t b w)
    as [(early & w1 & Hprep & Hrun')|[(e & w1 & Hprep & Hrun')|
        (years & df_final & df_tr & w1 & Hprep & Hrun')]];
    rewrite Hrun in Hrun';
    apply prepare_write_world in Hprep as (He & Ht & Hs & Hb & Hv & Hf).
  - injection Hrun' as -> ->. rewrite Hf, Ht, Hs. auto.
  - injection Hrun' as -> ->. cbn [state_file ticks state add_log].
    rewrite Hf, Ht, Hs. auto.
  - destruct (write_fault (env w) !! t) as [f|].
    + injection Hrun' as -> ->. destruct f; cbn; rewrite Hf, Ht, Hs; auto.
    + cbv zeta in Hrun'. destruct (Py.sorted _) as [sorted_years|e].
      * injection Hrun' as -> _. exfalso. apply Hns. reflexivity.
      * injection Hrun' as -> ->. cbn [state_file ticks state add_log set_state set_silver].
        rewrite Hf, Ht. split; [reflexivity|]. split; [reflexivity|].
        intros t'. apply processed_list_with_entry.
Qed.

Lemma process_table_incremental_is_success (t : string) (b : bool) (w w' : World)
      (o : stats) :
  process_table_incremental t b w = (Ok o, w') ->
  stats_status o = success ->
  exists years n m,
    o = Success t years n m
    /\ state_file w' = Some (Json.encode (state w'))
    /\ get_processed_years (state w') t
       = get_processed_years (state w) t ∪ list_to_set years
    /\ is_Some (state w' !! t)
    /\ is_Some (silver w' !! t).
Proof.
  intros Hrun Hs.
  destruct (process_table_incremental_total t b w) as (o' & w'' & Hrun' & Htab & _).
  rewrite Hrun in Hrun'. injection Hrun' as <- <-.
  destruct o as [| | |t' years n m]; try discriminate. cbn in Htab. subst t'.
  destruct (process_table_incremental_success t b w w' years n m Hrun)
    as (df_final & df_tr & w1 & sorted_years & _ & _ & _ & _ & _ & Hsilver & Hstate
        & Hfile & Hproc).
  exists years, n, m. split; [reflexivity|]. split; [exact Hfile|].
  split; [exact Hproc|]. split.
  - rewrite Hstate, lookup_insert_eq. eauto.
  - rewrite Hsilver, lookup_insert_eq. eauto.
Qed.

Global Instance only_grows_preorder : PreOrder only_grows.
Proof.
  split.
  - intros w. split; [reflexivity|]. split; [reflexivity|]. intros t. reflexivity.
  - intros x y z (He1 & Hb1 & Hp1) (He2 & Hb2 & Hp2).
    split; [congruence|]. split; [congruence|].
    intros t. transitivity (get_processed_years (state y) t); auto.
Qed.


Lemma process_table_incremental_grows (t : string) (b : bool) :
  steps_within only_grows (process_table_incremental t b).
Proof.
  intros w.
  destruct (process_table_incremental_touches t b w) as (He & Hb & Hst & _).
  destruct (process_table_incremental_total t b w) as (o & w' & Hrun & _ & _).
  rewrite Hrun in *. cbn [snd] in *.
  split; [exact He|]. split; [exact Hb|]. intros t'.
  destruct (decide (stats_status o = success)) as [Hs|Hns].
  - destruct (process_table_incremental_is_success t b w w' o Hrun Hs)
      as (years & n & m & _ & _ & Hproc & _).
    destruct (decide (t' = t)) as [->|Hne].
    + rewrite Hproc. apply union_subseteq_l.
    + unfold get_processed_years, processed_list. rewrite (Hst t' Hne). reflexivity.
  - destruct (process_table_incremental_not_success t b w w' o Hrun Hns)
      as (_ & _ & Hl).
    unfold get_processed_years. rewrite Hl. reflexivity.
Qed.

Lemma process_tables_grows (ts : list string) (b : bool) :
  steps_within only_grows (process_tables ts b).
Proof.
  induction ts as [|t ts IH]; cbn [process_tables].
  - apply steps_mret. apply _.
  - apply steps_bind; [apply _|apply process_table_incremental_grows|].
    intros o. apply steps_bind; [apply _|exact IH|].
    intros outs. apply steps_mret. apply _.
Qed.

Lemma process_tables_no_success (ts : list string) (b : bool) (w w' : World)
      (outs : list stats) :
  process_tables ts b w = (Ok outs, w') ->
  with_status success outs = [] ->
  state_file w' = state_file w
  /\ ticks w' = ticks w
  /\ forall t', processed_list (state w') t' = processed_list (state w) t'.
Proof.
  revert w w' outs. induction ts as [|t ts IH]; intros w w' outs Hrun Hnone.
  - injection Hrun as <- <-. auto.
  - apply process_tables_cons in Hrun as (o & w1 & outs' & Ho & Hrest & ->).
    unfold with_status in Hnone.
    destruct (decide (stats_status o = success)) as [Hs|Hns].
    { rewrite filter_cons_True in Hnone by exact Hs. discriminate. }
    rewrite filter_cons_False in Hnone by exact Hns.
    destruct (process_table_incremental_not_success t b w w1 o Ho Hns)
      as (Hf & Ht & Hl).
    destruct (IH w1 w' outs' Hrest Hnone) as (Hf' & Ht' & Hl').
    split; [congruence|]. split; [congruence|].
    intros t'. rewrite Hl', Hl. reflexivity.
Qed.

Lemma pass_facts (b : bool) (w : World) (outs : list stats) (w' : World) :
  process_all_incremental b w = (Ok outs, w') ->
  bronze w' = bronze w
  /\ (with_status success outs = [] -> state_file w' = state_file w).
Proof.
  intros Hrun.
  destruct (process_all_incremental_run b w)
    as (outs' & w0 & w1 & w'' & Hrun' & Htabs & H0 & H1).
  rewrite Hrun in Hrun'. injection Hrun' as <- <-.
  pose proof (steps_returns_world _ _ _ _ _ (process_tables_grows _ b) Htabs)
    as (_ & Hb & _).
  destruct H0 as (_ & _ & _ & Hb0 & _ & Hf0).
  destruct H1 as (_ & _ & _ & Hb1 & _ & Hf1).
  split; [congruence|].
  intros Hnone.
  destruct (process_tables_no_success _ b w0 w1 outs Htabs Hnone) as (Hf & _).
  congruence.
Qed.

Lemma read_with_year_not_skipped (t : string) :
  Config.has_year_column t = true ->
  returns (fun r => match r with
                    | inl early => stats_status early <> skipped
                    | inr _ => True
                    end) (read_with_year t).
Proof.
  intros Hfact. unfold read_with_year. rewrite Hfact. cbn [negb].
  repeat returns_step; first [exact I|discriminate].
Qed.

Lemma prepare_write_not_skipped (t : string) (b : bool) :
  Config.has_year_column t = true ->
  returns (fun r => match r with
                    | inl early => stats_status early <> skipped
                    | inr _ => True
                    end) (prepare_write t b).
Proof.
  intros Hfact. unfold prepare_write, plan_table.
  pose (Q := fun (A : Type) (r : stats + A) =>
               match r with
               | inl early => stats_status early <> skipped
               | inr _ => True
               end).
  apply (returns_bind_post (Q _)).
  { apply (returns_bind_post (Q _)); [apply (read_with_year_not_skipped t Hfact)|].
    intros [early|df] Hr; repeat returns_step;
      first [exact Hr|exact I|discriminate]. }
  intros [early|[years df]] Hr; repeat returns_step; first [exact Hr|exact I].
Qed.

Lemma fact_table_not_skipped (t : string) (b : bool) (w w' : World) (o : stats) :
  Config.has_year_column t = true ->
  process_table_incremental t b w = (Ok o, w') ->
  stats_status o <> skipped.
Proof.
  intros Hfact Hrun.
  destruct (process_table_incremental_cases t b w)
    as [(early & w1 & Hprep & Hrun')|[(e & w1 & Hprep & Hrun')|
        (years & df_final & df_tr & w1 & Hprep & Hrun')]];
    rewrite Hrun in Hrun'.
  - injection Hrun' as -> _.
    exact (prepare_write_not_skipped t b Hfact _ _ _ Hprep).
  - injection Hrun' as -> _. discriminate.
  - destruct (write_fault (env w) !! t); [injection Hrun' as -> _; discriminate|].
    cbv zeta in Hrun'. destruct (Py.sorted _);
      injection Hrun' as -> _; discriminate.
Qed.

Lemma other_table_skipped (t : string) (b : bool) (w : World) :
  Config.has_year_column t = false ->
  process_table_incremental t b w
  = (Ok (Skipped t "dimension_table"),
     add_log (INFO, MsgDimensionSkipped t) (add_log (INFO, MsgProcessing t) w)).
Proof.
  intros Hdim.
  unfold process_table_incremental, logger_info. rewrite run_modify_bind.
  unfold try_except, process_table_body, prepare_write, plan_table, read_with_year.
  rewrite Hdim. reflexivity.
Qed.

(** X9.  [process_table_incremental] returns a skipped outcome exactly
    for the names outside [TABLES_WITH_YEAR]; for those it only logs. *)
Theorem skipped_iff_not_a_fact_table (t : string) (b : bool) (w : World) :
  exists o w',
    process_table_incremental t b w = (Ok o, w')
    /\ (stats_status o = skipped <-> t ∉ Config.TABLES_WITH_YEAR)
    /\ (t ∉ Config.TABLES_WITH_YEAR ->
        o = Skipped t "dimension_table" /\ same_but_log w w').
Proof.
  destruct (Config.has_year_column t) eqn:Hfact.
  - assert (Hin : t ∈ Config.TABLES_WITH_YEAR) by exact (bool_decide_eq_true_1 _ Hfact).
    destruct (process_table_incremental_total t b w) as (o & w' & Hrun & _ & _).
    exists o, w'. split; [exact Hrun|]. split; [|intros Hn; contradiction].
    split; [|intros Hn; contradiction].
    intros Hs. exfalso. exact (fact_table_not_skipped t b w w' o Hfact Hrun Hs).
  - assert (Hnin : t ∉ Config.TABLES_WITH_YEAR) by exact (bool_decide_eq_false_1 _ Hfact).
    eexists _, _. split; [apply (other_table_skipped t b w Hfact)|].
    split; [split; [intros _; exact Hnin|reflexivity]|].
    intros _. split; [reflexivity|]. repeat split.
Qed.

Lemma process_tables_not_skipped (ts : list string) (b : bool) (w w' : World)
      (outs : list stats) :
  Forall (fun t => Config.has_year_column t = true) ts ->
  process_tables ts b w = (Ok outs, w') ->
  Forall (fun o => stats_status o <> skipped) outs.
Proof.
  intros Hts. revert w w' outs. induction Hts as [|t ts Ht Hts IH]; intros w w' outs Hrun.
  - injection Hrun as <- _. constructor.
  - apply process_tables_cons in Hrun as (o & w1 & outs' & Ho & Hrest & ->).
    constructor; [exact (fact_table_not_skipped t b w w1 o Ht Ho)|].
    exact (IH _ _ _ Hrest).
Qed.

Lemma status_counts (outs : list stats) :
  Forall (fun o => stats_status o <> skipped) outs ->
  (length (with_status success outs) + length (with_status up_to_date outs)
   + length (with_status failed outs) = length outs)%nat.
Proof.
  unfold with_status. induction 1 as [|o outs Ho _ IH]; [reflexivity|].
  destruct o; cbn in Ho; try contradiction;
    repeat first [rewrite filter_cons_True by reflexivity
                 |rewrite filter_cons_False by discriminate];
    cbn [length]; lia.
Qed.

(** X10.  The pass returns one outcome per fact table, none of them
    skipped, so the three counts of its summary line add up to the nine
    fact tables. *)
Theorem pass_outcomes_are_counted (b : bool) (w : World) :
  exists outs w',
    process_all_incremental b w = (Ok outs, w')
    /\ map stats_table outs = Config.TABLES_WITH_YEAR
    /\ Forall (fun o => stats_status o <> skipped) outs
    /\ (length (with_status success outs) + length (with_status up_to_date outs)
        + length (with_status failed outs) = 9)%nat.
Proof.
  destruct (process_all_incremental_run b w)
    as (outs & w0 & w1 & w' & Hrun & Htabs & _ & _).
  destruct (process_tables_total Config.TABLES_WITH_YEAR b w0)
    as (outs' & w1' & Htabs' & Hnames).
  rewrite Htabs in Htabs'. injection Htabs' as <- <-.
  assert (Hns : Forall (fun o => stats_status o <> skipped) outs).
  { apply (process_tables_not_skipped Config.TABLES_WITH_YEAR b w0 w1 outs);
      [|exact Htabs].
    apply Forall_forall. intros t Ht. apply bool_decide_eq_true_2. exact Ht. }
  exists outs, w'. split; [exact Hrun|]. split; [exact Hnames|]. split; [exact Hns|].
  rewrite (status_counts outs Hns), <- (length_map stats_table), Hnames. reflexivity.
Qed.

End Outcomes.

(** ** When the save raises *)

Section SaveFaults.

Import IncrementalProcessor.

Lemma save_state_under_fault (n : nat) (e : exn) (w : World) :
  _save_state_under (Some (n, e)) w = (Raise e, crash_in_save n w).
Proof. reflexivity. Qed.

(** [mark_years_processed_under], run: the entry is stored in memory and
    the clock is read before the save is reached. *)
Lemma mark_years_processed_under_run (fault : option (nat * exn)) (t : string)
      (years : list cell) (w : World) :
  mark_years_processed_under fault t years w =
  match Py.sorted (elements (get_processed_years (state w) t ∪ list_to_set years)) with
  | Raise e => (Raise e, set_state (with_entry t (state w)) w)
  | Ok sorted_years =>
      _save_state_under fault
        (set_state (<[t := {| processed_years := sorted_years;
                              last_update := Some (clock (env w) (ticks w)) |}]>
                      (with_entry t (state w)))
                   (set_ticks (S (ticks w)) w))
  end.
Proof.
  unfold mark_years_processed_under. rewrite run_gets_bind.
  assert (Hfirst : forall {B} (k : unit -> M B),
    ((if bool_decide (state w !! t = None)
      then modify (set_state (<[t := {| processed_years := []; last_update := None |}]> (state w)))
      else mret tt) ≫= k) w = k tt (set_state (with_entry t (state w)) w)).
  { intros B k. unfold with_entry. case_bool_decide; [reflexivity|].
    destruct w; reflexivity. }
  rewrite Hfirst, run_gets_bind. cbn [state set_state].
  rewrite run_lift_bind. unfold get_processed_years.
  rewrite processed_list_with_entry.
  destruct (Py.sorted _) as [sorted_years|e]; [|reflexivity].
  rewrite run_bind. unfold datetime_now at 1. rewrite run_modify_bind.
  reflexivity.
Qed.

(** Without a fault these are the definitions of the class. *)
Lemma mark_years_processed_under_None (t : string) (years : list cell) (w : World) :
  mark_years_processed_under None t years w = mark_years_processed t years w.
Proof. reflexivity. Qed.

Lemma process_table_incremental_under_None (t : string) (b : bool) (w : World) :
  process_table_incremental_under None t b w = process_table_incremental t b w.
Proof. reflexivity. Qed.

Lemma process_tables_under_None (ts : list string) (b : bool) (w : World) :
  process_tables_under None ts b w = process_tables ts b w.
Proof.
  revert w. induction ts as [|t ts IH]; intros w; [reflexivity|].
  cbn [process_tables_under process_tables].
  rewrite !run_bind, process_table_incremental_under_None.
  destruct (process_table_incremental t b w) as [[o|e] w1]; [|reflexivity].
  rewrite !run_bind, IH. reflexivity.
Qed.

Lemma process_all_incremental_under_None (b : bool) (w : World) :
  process_all_incremental_under None b w = process_all_incremental b w.
Proof.
  unfold process_all_incremental_under, process_all_incremental.
  rewrite !run_bind.
  destruct ((if b then logger_info (MsgStartInitial Config.INITIAL_LOAD_YEAR)
             else logger_info MsgStartIncremental) w) as [[[]|e] w0]; [|reflexivity].
  rewrite !run_bind, process_tables_under_None. reflexivity.
Qed.

(** X3.  [mark_years_processed] raises in two ways.  When [sorted] raises,
    on years of mixed kinds, the exception is a [TypeError] and nothing
    has happened: the state file, the clock, the log and the years
    recorded for every table are as before.  When the save raises, the
    state in memory already holds the new years and the new time stamp,
    and the state file is what the save left of it. *)
Theorem mark_years_processed_raises
        (fault : option (nat * exn)) (t : string) (years : list cell)
        (w w' : World) (e : exn) :
  mark_years_processed_under fault t years w = (Raise e, w') ->
  (Py.sorted (elements (get_processed_years (state w) t ∪ list_to_set years)) = Raise e
   /\ e = TypeError
   /\ state_file w' = state_file w
   /\ ticks w' = ticks w
   /\ log w' = log w
   /\ forall t', processed_list (state w') t' = processed_list (state w) t')
  \/ (exists n sorted_years,
         fault = Some (n, e)
         /\ Py.sorted (elements (get_processed_years (state w) t ∪ list_to_set years))
            = Ok sorted_years
         /\ processed_list (state w') t = sorted_years
         /\ get_processed_years (state w') t
            = get_processed_years (state w) t ∪ list_to_set years
         /\ ticks w' = S (ticks w)
         /\ state_file w' = run_ops (take n (save_ops (state w'))) (state_file w)).
Proof.
  rewrite mark_years_processed_under_run.
  destruct (Py.sorted _) as [sorted_years|e'] eqn:Hs.
  - destruct fault as [[n e0]|].
    + rewrite save_state_under_fault. intros [= <- <-]. right.
      exists n, sorted_years. split; [reflexivity|]. split; [reflexivity|].
      unfold crash_in_save. cbn [state set_state_file set_state set_ticks ticks state_file].
      split; [unfold processed_list; rewrite lookup_insert_eq; reflexivity|].
      split; [exact (processed_after_insert _ _ _ _ _ Hs)|]. split; reflexivity.
    + cbn [_save_state_under]. rewrite save_state_run. discriminate.
  - intros [= <- <-]. left. split; [reflexivity|].
    split; [exact (sorted_raises _ _ Hs)|].
    split; [reflexivity|]. split; [reflexivity|]. split; [reflexivity|].
    intros t'. apply processed_list_with_entry.
Qed.

Lemma mark_years_processed_raises_witness :
  let w := Examples.world_merged_2005 in
  let e := OSError "processing_state.json" in
  let w' := (mark_years_processed_under (Some (1%nat, e)) "results" [CInt 2012] w).2 in
  (Py.sorted (elements (get_processed_years (state w) "results" ∪ list_to_set [CInt 2012]))
   = Raise e
   /\ e = TypeError
   /\ state_file w' = state_file w
   /\ ticks w' = ticks w
   /\ log w' = log w
   /\ forall t', processed_list (state w') t' = processed_list (state w) t')
  \/ (exists n sorted_years,
         Some (1%nat, e) = Some (n, e)
         /\ Py.sorted (elements (get_processed_years (state w) "results"
                                 ∪ list_to_set [CInt 2012]))
            = Ok sorted_years
         /\ processed_list (state w') "results" = sorted_years
         /\ get_processed_years (state w') "results"
            = get_processed_years (state w) "results" ∪ list_to_set [CInt 2012]
         /\ ticks w' = S (ticks w)
         /\ state_file w' = run_ops (take n (save_ops (state w'))) (state_file w)).
Proof.
  cbv zeta.
  apply (mark_years_processed_raises (Some (1%nat, OSError "processing_state.json"))
           "results" [CInt 2012] Examples.world_merged_2005).
  vm_compute. reflexivity.
Defined.

(** What [process_table_incremental_under] returns and leaves when the
    write has been reached. *)
Lemma process_table_incremental_under_cases (fault : option (nat * exn))
      (t : string) (b : bool) (w : World) :
  let wl := add_log (INFO, MsgProcessing t) w in
  (exists early w',
      prepare_write t b wl = (Ok (inl early), w')
      /\ process_table_incremental_under fault t b w = (Ok early, w'))
  \/ (exists e w1,
         prepare_write t b wl = (Raise e, w1)
         /\ process_table_incremental_under fault t b w
            = (Ok (Failed t (ErrExn e)), add_log (ERROR, MsgError t e) w1))
  \/ (exists years df_final df_tr w1,
         prepare_write t b wl = (Ok (inr (years, df_final, df_tr)), w1)
         /\ process_table_incremental_under fault t b w =
            match write_fault (env w) !! t with
            | Some f =>
                (Ok (Failed t (ErrExn (write_error f))),
                 add_log (ERROR, MsgError t (write_error f))
                   match f with
                   | Untouched _ => w1
                   | Truncated _ => set_silver (<[t := Corrupt]> (silver w1)) w1
                   end)
            | None =>
                let w2 := set_silver (<[t := Parquet df_final]> (silver w1)) w1 in
                match Py.sorted (elements (get_processed_years (state w) t
                                           ∪ list_to_set years)) with
                | Raise e =>
                    (Ok (Failed t (ErrExn e)),
                     add_log (ERROR, MsgError t e)
                       (set_state (with_entry t (state w)) w2))
                | Ok sorted_years =>
                    let st2 := <[t := {| processed_years := sorted_years;
                                         last_update := Some (clock (env w) (ticks w)) |}]>
                                 (with_entry t (state w)) in
                    let wc := set_state st2 (set_ticks (S (ticks w)) w2) in
                    match fault with
                    | Some (n, e) =>
                        (Ok (Failed t (ErrExn e)),
                         add_log (ERROR, MsgError t e) (crash_in_save n wc))
                    | None =>
                        (Ok (Success t years (Frame.height df_tr) (Frame.height df_final)),
                         add_log (INFO, MsgSuccess t (length years) (Frame.height df_tr))
                           (add_log (INFO, MsgStateSaved)
                              (set_state_file (Some (Json.encode st2)) wc)))
                    end
                end
            end).
Proof.
  intros wl.
  pose proof (prepare_write_log_only t b wl) as Hsteps.
  unfold process_table_incremental_under, logger_info. rewrite run_modify_bind. fold wl.
  unfold try_except, process_table_body_under. rewrite run_bind.
  destruct (prepare_write t b wl) as [[[early|[[years df_final] df_tr]]|e] w1] eqn:Hprep.
  - left. eauto.
  - right. right. exists years, df_final, df_tr, w1. split; [reflexivity|].
    cbn [snd] in Hsteps. destruct Hsteps as (He & Ht & Hs & Hb & Hv & Hf).
    cbn [env ticks state add_log wl] in He, Ht, Hs.
    unfold write_and_commit_under. rewrite run_bind. unfold write_parquet at 1.
    rewrite <- He. destruct (write_fault (env w) !! t) as [[|]|]; try reflexivity.
    rewrite run_bind, mark_years_processed_under_run.
    cbn [state set_silver env ticks]. rewrite <- Hs, <- He, <- Ht.
    destruct (Py.sorted _) as [sorted_years|e]; [|reflexivity].
    destruct fault as [[n e]|]; [reflexivity|].
    cbn [_save_state_under]. rewrite save_state_run. reflexivity.
  - right. left. eauto.
Qed.

(** X11.  The state on disk moves with the save and with nothing else.
    A success means that the save completed: the state file holds the
    state in memory, with the processed years added to the table's.  An
    outcome other than success leaves the state file, the clock and the
    years recorded for every table as they were, unless it is the failed
    outcome of a save that raised: then the merged file is written, the
    state in memory already holds the new years, and the state file is
    what the save left of it. *)
Theorem state_advances_only_on_success
        (fault : option (nat * exn)) (t : string) (b : bool) (w : World) :
  exists o w',
    process_table_incremental_under fault t b w = (Ok o, w')
    /\ (stats_status o = success ->
        fault = None
        /\ exists years n m,
            o = Success t years n m
            /\ state_file w' = Some (Json.encode (state w'))
            /\ (_load_state w').1 = Ok (state w')
            /\ get_processed_years (state w') t
               = get_processed_years (state w) t ∪ list_to_set years)
    /\ (stats_status o <> success ->
        (state_file w' = state_file w
         /\ ticks w' = ticks w
         /\ forall t', processed_list (state w') t' = processed_list (state w) t')
        \/ (exists n e years,
               fault = Some (n, e)
               /\ o = Failed t (ErrExn e)
               /\ is_Some (silver w' !! t)
               /\ get_processed_years (state w') t
                  = get_processed_years (state w) t ∪ list_to_set years
               /\ ticks w' = S (ticks w)
               /\ state_file w'
                  = run_ops (take n (save_ops (state w'))) (state_file w))).
Proof.
  destruct (process_table_incremental_under_cases fault t b w)
    as [(early & w1 & Hprep & Hrun)|[(e & w1 & Hprep & Hrun)|
        (years & df_final & df_tr & w1 & Hprep & Hrun)]].
  - pose proof (prepare_write_about t b _ _ _ Hprep) as [_ Hns].
    apply prepare_write_world in Hprep as (He & Ht & Hs & Hb & Hv & Hf).
    exists early, w1. split; [exact Hrun|]. split; [intros Hsucc; contradiction|].
    intros _. left. rewrite Hf, Ht, Hs. auto.
  - apply prepare_write_world in Hprep as (He & Ht & Hs & Hb & Hv & Hf).
    eexists _, _. split; [exact Hrun|]. split; [discriminate|].
    intros _. left. cbn [state_file ticks state add_log]. rewrite Hf, Ht, Hs. auto.
  - apply prepare_write_world in Hprep as (He & Ht & Hs & Hb & Hv & Hf).
    destruct (write_fault (env w) !! t) as [f|].
    { eexists _, _. split; [exact Hrun|]. split; [discriminate|].
      intros _. left. destruct f; cbn; rewrite Hf, Ht, Hs; auto. }
    cbv zeta in Hrun.
    destruct (Py.sorted _) as [sorted_years|e] eqn:Hsorted.
    2:{ eexists _, _. split; [exact Hrun|]. split; [discriminate|].
        intros _. left.
        cbn [state_file ticks state add_log set_state set_silver].
        rewrite Hf, Ht. split; [reflexivity|]. split; [reflexivity|].
        intros t'. apply processed_list_with_entry. }
    destruct fault as [[n e]|].
    + eexists _, _. split; [exact Hrun|]. split; [discriminate|].
      intros _. right. exists n, e, years. split; [reflexivity|]. split; [reflexivity|].
      unfold crash_in_save.
      cbn [silver state ticks state_file add_log set_state_file set_state set_ticks
           set_silver].
      split; [rewrite lookup_insert_eq; eauto|].
      split; [exact (processed_after_insert _ _ _ _ _ Hsorted)|].
      split; [reflexivity|]. rewrite Hf. reflexivity.
    + eexists _, _. split; [exact Hrun|]. split; [|intros Hns; exfalso; apply Hns; reflexivity].
      intros _. split; [reflexivity|].
      exists years, (Frame.height df_tr), (Frame.height df_final). split; [reflexivity|].
      cbn [state state_file add_log set_state_file set_state set_ticks set_silver].
      split; [reflexivity|]. split.
      * erewrite load_saved_state; reflexivity.
      * exact (processed_after_insert _ _ _ _ _ Hsorted).
Qed.





(** On the example: [results] has 2005 processed and merged, 2012 is
    new, and the save raises once the state file is open.  The outcome is
    failed; the state in memory lists 2005 and 2012, and the state file is
    empty and no longer loads. *)
Example save_failure_leaves_memory_ahead :
  let fault := Some (1%nat, OSError "processing_state.json") in
  let r := process_table_incremental_under fault "results" false
             Examples.world_merged_2005 in
  r.1 = Ok (Failed "results" (ErrExn (OSError "processing_state.json")))
  /\ processed_list (state r.2) "results" = [CInt 2005; CInt 2012]
  /\ state_file r.2 = Some []
  /\ (_load_state r.2).1 = Raise JSONDecodeError
  /\ is_Some (silver r.2 !! "results").
Proof.
  cbv zeta. split; [vm_compute; reflexivity|]. split; [vm_compute; reflexivity|].
  split; [vm_compute; reflexivity|]. split; [vm_compute; reflexivity|].
  vm_compute. eexists. reflexivity.
Qed.

End SaveFaults.

(** ** Failures before and after the write *)

Section Failures.

Import IncrementalProcessor.

Lemma prepare_write_read_raises (t : string) (b : bool) (w w1 : World) (e : exn) :
  read_with_year t w = (Raise e, w1) -> prepare_write t b w = (Raise e, w1).
Proof.
  intros H. unfold prepare_write, plan_table. rewrite !run_bind, H. reflexivity.
Qed.

Lemma read_with_year_no_races (t : string) (w : World) (df : DataFrame) :
  Config.has_year_column t = true ->
  bronze w !! t = Some (Parquet df) ->
  bronze w !! "races" = None ->
  read_with_year t w = (Raise (FileNotFoundError "races.parquet"), w).
Proof.
  intros Hfact Ht Hraces. unfold read_with_year. rewrite Hfact. cbn [negb].
  rewrite run_gets_bind, Ht.
  rewrite bool_decide_eq_true_2 by eauto. cbn [negb].
  rewrite run_bind. unfold read_parquet at 1. rewrite Ht.
  rewrite run_bind. unfold read_parquet at 1. rewrite Hraces. reflexivity.
Qed.

Lemma read_with_year_corrupt (t : string) (w : World) :
  Config.has_year_column t = true ->
  bronze w !! t = Some Corrupt ->
  read_with_year t w = (Raise (ComputeError (t +:+ ".parquet")), w).
Proof.
  intros Hfact Ht. unfold read_with_year. rewrite Hfact. cbn [negb].
  rewrite run_gets_bind, Ht.
  rewrite bool_decide_eq_true_2 by eauto. cbn [negb].
  rewrite run_bind. unfold read_parquet at 1. rewrite Ht. reflexivity.
Qed.

Lemma raising_read_outcome (t : string) (b : bool) (w : World) (e : exn) :
  (forall w0, bronze w0 = bronze w -> read_with_year t w0 = (Raise e, w0)) ->
  exists w',
    process_table_incremental t b w = (Ok (Failed t (ErrExn e)), w')
    /\ same_but_log w w'.
Proof.
  intros Hread.
  set (wl := add_log (INFO, MsgProcessing t) w).
  pose proof (prepare_write_read_raises t b wl wl e (Hread wl eq_refl)) as Hprep.
  destruct (process_table_incremental_cases t b w)
    as [(early & w' & Hprep' & Hrun)|[(e' & w1 & Hprep' & Hrun)|
        (years & df_final & df_tr & w1 & Hprep' & _)]];
    fold wl in Hprep'; rewrite Hprep in Hprep'; try discriminate.
  injection Hprep' as <- <-. eexists. split; [exact Hrun|]. repeat split.
Qed.

Lemma missing_races_outcome (t : string) (b : bool) (w : World) :
  Config.has_year_column t = true ->
  bronze w !! "races" = None ->
  exists o w',
    process_table_incremental t b w = (Ok o, w')
    /\ stats_table o = t
    /\ stats_status o = failed
    /\ (forall df, bronze w !! t = Some (Parquet df) ->
                   o = Failed t (ErrExn (FileNotFoundError "races.parquet")))
    /\ same_but_log w w'.
Proof.
  intros Hfact Hraces. destruct (bronze w !! t) as [[df|]|] eqn:Ht.
  - destruct (raising_read_outcome t b w (FileNotFoundError "races.parquet"))
      as (w' & Hrun & Hlog).
    { intros w0 Hb. apply (read_with_year_no_races t w0 df Hfact); rewrite Hb; assumption. }
    eexists _, w'. split; [exact Hrun|]. split; [reflexivity|]. split; [reflexivity|].
    split; [intros df' _; reflexivity|exact Hlog].
  - destruct (raising_read_outcome t b w (ComputeError (t +:+ ".parquet")))
      as (w' & Hrun & Hlog).
    { intros w0 Hb. apply (read_with_year_corrupt t w0 Hfact). rewrite Hb. assumption. }
    eexists _, w'. split; [exact Hrun|]. split; [reflexivity|]. split; [reflexivity|].
    split; [intros df [=]|exact Hlog].
  - destruct (missing_bronze_outcome t b w Hfact Ht) as (w' & Hrun & Hlog).
    eexists _, w'. split; [exact Hrun|]. split; [reflexivity|]. split; [reflexivity|].
    split; [intros df [=]|exact Hlog].
Qed.

Lemma process_tables_no_races (ts : list string) (b : bool) (w : World) :
  Forall (fun t => Config.has_year_column t = true) ts ->
  bronze w !! "races" = None ->
  exists outs w',
    process_tables ts b w = (Ok outs, w')
    /\ Forall (fun o =>
                 stats_status o = failed
                 /\ forall df, bronze w !! stats_table o = Some (Parquet df) ->
                               o = Failed (stats_table o)
                                     (ErrExn (FileNotFoundError "races.parquet"))) outs
    /\ same_but_log w w'.
Proof.
  intros Hts. revert w. induction Hts as [|t ts Ht Hts IH]; intros w Hraces.
  - exists [], w. split; [reflexivity|]. split; [constructor|reflexivity].
  - destruct (missing_races_outcome t b w Ht Hraces)
      as (o & w1 & Ho & Htab & Hfailed & Hmsg & Hlog).
    assert (Hb : bronze w1 = bronze w) by (symmetry; apply Hlog).
    destruct (IH w1) as (outs & w' & Houts & Hall & Hlog'); [rewrite Hb; exact Hraces|].
    exists (o :: outs), w'. split; [|split].
    + cbn [process_tables]. rewrite run_bind, Ho, run_bind, Houts. reflexivity.
    + constructor.
      * split; [exact Hfailed|]. rewrite Htab. exact Hmsg.
      * rewrite Hb in Hall. exact Hall.
    + transitivity w1; assumption.
Qed.

(** X13.  Without the bronze file of [races] every fact table fails and
    the pass changes nothing but the log.  A table whose own bronze file
    reads fails with the [FileNotFoundError] of [races.parquet]: the races
    file is read before the columns of the table are looked at. *)
Theorem missing_races_fails_every_table (b : bool) (w : World) :
  bronze w !! "races" = None ->
  exists outs w',
    process_all_incremental b w = (Ok outs, w')
    /\ map stats_table outs = Config.TABLES_WITH_YEAR
    /\ Forall (fun o =>
                 stats_status o = failed
                 /\ forall df, bronze w !! stats_table o = Some (Parquet df) ->
                               o = Failed (stats_table o)
                                     (ErrExn (FileNotFoundError "races.parquet"))) outs
    /\ same_but_log w w'.
Proof.
  intros Hraces.
  destruct (process_all_incremental_run b w)
    as (outs & w0 & w1 & w' & Hrun & Htabs & H0 & H1).
  assert (Hb0 : bronze w0 = bronze w) by (symmetry; apply H0).
  destruct (process_tables_no_races Config.TABLES_WITH_YEAR b w0)
    as (outs' & w1' & Htabs' & Hall & Hlog).
  { apply Forall_forall. intros t Ht. apply bool_decide_eq_true_2. exact Ht. }
  { rewrite Hb0. exact Hraces. }
  rewrite Htabs in Htabs'. injection Htabs' as <- <-.
  destruct (process_tables_total Config.TABLES_WITH_YEAR b w0)
    as (outs' & w1' & Htabs' & Hnames).
  rewrite Htabs in Htabs'. injection Htabs' as <- <-.
  exists outs, w'. split; [exact Hrun|]. split; [exact Hnames|]. split.
  - rewrite Hb0 in Hall. exact Hall.
  - transitivity w0; [exact H0|]. transitivity w1; assumption.
Qed.

Lemma missing_races_fails_every_table_witness :
  exists outs w',
    process_all_incremental false Examples.world_no_races = (Ok outs, w')
    /\ map stats_table outs = Config.TABLES_WITH_YEAR
    /\ Forall (fun o =>
                 stats_status o = failed
                 /\ forall df, bronze Examples.world_no_races !! stats_table o
                               = Some (Parquet df) ->
                               o = Failed (stats_table o)
                                     (ErrExn (FileNotFoundError "races.parquet"))) outs
    /\ same_but_log Examples.world_no_races w'.
Proof.
  apply (missing_races_fails_every_table false Examples.world_no_races).
  vm_compute. reflexivity.
Defined.

(** X14.  The write comes before the commit.  When the write succeeds
    and [sorted] raises inside [mark_years_processed], the outcome is
    failed, the silver file already holds the new merged frame, and
    neither the state file nor the recorded years have moved. *)
Theorem commit_failure_after_write
        (t : string) (b : bool) (w w1 : World) (years : list cell)
        (df_final df_tr : DataFrame) (e : exn) :
  prepare_write t b w = (Ok (inr (years, df_final, df_tr)), w1) ->
  write_fault (env w) !! t = None ->
  Py.sorted (elements (get_processed_years (state w) t ∪ list_to_set years)) = Raise e ->
  exists w',
    process_table_incremental t b w = (Ok (Failed t (ErrExn TypeError)), w')
    /\ silver w' !! t = Some (Parquet df_final)
    /\ state_file w' = state_file w
    /\ (forall t', processed_list (state w') t' = processed_list (state w) t')
    /\ bronze w' = bronze w.
Proof.
  intros Hprep Hfault Hsorted.
  pose proof (sorted_raises _ _ Hsorted) as ->.
  set (wl := add_log (INFO, MsgProcessing t) w).
  destruct (prepare_write_respects_log t b w wl (same_but_log_add_log_l _ w)) as [Hres _].
  rewrite Hprep in Hres. cbn [fst] in Hres.
  destruct (process_table_incremental_cases t b w)
    as [(early & w' & Hprep' & Hrun)|[(e' & w2 & Hprep' & Hrun)|
        (years' & df_final' & df_tr' & w2 & Hprep' & Hrun)]];
    fold wl in Hprep'; rewrite Hprep' in Hres; try discriminate.
  injection Hres as <- <- <-.
  rewrite Hfault in Hrun. cbv zeta in Hrun. rewrite Hsorted in Hrun.
  apply prepare_write_world in Hprep' as (He & Ht & Hs & Hb & Hv & Hf).
  eexists. split; [exact Hrun|].
  cbn [silver state_file state bronze add_log set_state set_silver].
  split; [apply lookup_insert_eq|]. split; [symmetry; exact Hf|].
  split; [intros t'; apply processed_list_with_entry|symmetry; exact Hb].
Qed.

Lemma commit_failure_after_write_witness :
  exists w',
    process_table_incremental "results" false Examples.world_orphan_results
    = (Ok (Failed "results" (ErrExn TypeError)), w')
    /\ silver w' !! "results"
       = Some (Parquet
                 [ {| name := "resultId"; values := [] |};
                   {| name := "raceId"; values := [] |};
                   {| name := "year"; values := [] |} ])
    /\ state_file w' = state_file Examples.world_orphan_results
    /\ (forall t', processed_list (state w') t'
                   = processed_list (state Examples.world_orphan_results) t')
    /\ bronze w' = bronze Examples.world_orphan_results.
Proof.
  eapply (commit_failure_after_write "results" false Examples.world_orphan_results
            _ [CNull] _ _ TypeError).
  - vm_compute. reflexivity.
  - reflexivity.
  - vm_compute. reflexivity.
Defined.

End Failures.

(** ** From the initial load to incremental passes *)

Section Bootstrap.

Import IncrementalProcessor.

Lemma years_up_to_raises (bound : Z) (l : list cell) :
  (exists y, y ∈ l /\ forall z, y <> CInt z) ->
  years_up_to bound l = Raise TypeError.
Proof.
  induction l as [|x l IH]; intros (y & Hy & Hbad).
  - inversion Hy.
  - destruct x as [|z|s]; cbn [years_up_to Py.le]; try reflexivity.
    apply elem_of_cons in Hy as [->|Hy]; [exfalso; exact (Hbad z eq_refl)|].
    rewrite IH by eauto. reflexivity.
Qed.

(** X15.  With nothing recorded for the table, an initial load compares
    every available year with [INITIAL_LOAD_YEAR] and raises a
    [TypeError] when one of them is not an integer; the incremental plan
    makes no comparison with the cutoff and selects every available
    year. *)
Theorem bootstrap_raises_on_non_int_year (t : string) (avail : list cell) (w : World) :
  get_processed_years (state w) t = ∅ ->
  (exists y, y ∈ avail /\ forall z, y <> CInt z) ->
  get_years_to_process t avail true w = (Raise TypeError, w)
  /\ (get_years_to_process t avail false w).1 = Py.sorted avail.
Proof.
  intros Hempty Hbad. split.
  - unfold get_years_to_process. rewrite run_gets_bind.
    rewrite Hempty, bool_decide_eq_true_2 by reflexivity. simpl andb. cbv iota.
    rewrite run_bind, run_bind. unfold lift at 1.
    rewrite (years_up_to_raises _ _ Hbad). reflexivity.
  - rewrite get_years_to_process_else by (left; reflexivity).
    cbv zeta. cbn [fst]. rewrite (filter_not_in_empty _ _ Hempty). reflexivity.
Qed.

Lemma bootstrap_raises_on_non_int_year_witness :
  get_years_to_process "sprint_results" [CNull] true Examples.world_orphans
  = (Raise TypeError, Examples.world_orphans)
  /\ (get_years_to_process "sprint_results" [CNull] false Examples.world_orphans).1
     = Py.sorted [CNull].
Proof.
  apply (bootstrap_raises_on_non_int_year "sprint_results" [CNull] Examples.world_orphans).
  - reflexivity.
  - exists CNull. split; [left|discriminate].
Defined.

Lemma processed_ints_mem (st : gmap string TableState) (t : string) (zs : list Z) (z : Z) :
  processed_list st t = map CInt zs ->
  CInt z ∈ get_processed_years st t <-> z ∈ zs.
Proof.
  intros H. unfold get_processed_years. rewrite H, elem_of_list_to_set.
  apply elem_of_map_CInt.
Qed.

Lemma processed_list_nil (st : gmap string TableState) (t : string) :
  get_processed_years st t = ∅ -> processed_list st t = [].
Proof.
  unfold get_processed_years. destruct (processed_list st t) as [|c l]; [reflexivity|].
  intros H. exfalso. apply (not_elem_of_empty (C := gset cell) c).
  rewrite <- H. apply elem_of_list_to_set. left.
Qed.

(** X16.  Planning and marking, first as an initial load and then
    incrementally, covers every available year exactly once: the first
    plan holds the years up to [INITIAL_LOAD_YEAR], the second the later
    ones, and after both are marked every further plan is empty. *)
Theorem bootstrap_then_incremental_covers (t : string) (ys : list Z) (w : World) :
  NoDup ys ->
  get_processed_years (state w) t = ∅ ->
  exists zs1 w1 w2 zs2 w3 w4,
    get_years_to_process t (map CInt ys) true w = (Ok (map CInt zs1), w1)
    /\ mark_years_processed t (map CInt zs1) w1 = (Ok tt, w2)
    /\ get_years_to_process t (map CInt ys) false w2 = (Ok (map CInt zs2), w3)
    /\ mark_years_processed t (map CInt zs2) w3 = (Ok tt, w4)
    /\ (forall y, y ∈ zs1 <-> y ∈ ys /\ y <= Config.INITIAL_LOAD_YEAR)
    /\ (forall y, y ∈ zs2 <-> y ∈ ys /\ Config.INITIAL_LOAD_YEAR < y)
    /\ zs1 ++ zs2 ≡ₚ ys
    /\ get_processed_years (state w4) t = list_to_set (map CInt ys)
    /\ (forall b, (get_years_to_process t (map CInt ys) b w4).1 = Ok []).
Proof.
  intros Hnd Hempty.
  (* the bootstrap plan *)
  destruct (get_years_to_process_then w t ys Hempty) as (m1 & Hplan1).
  destruct (sorted_ints (filter (fun z => z <= Config.INITIAL_LOAD_YEAR) ys))
    as (zs1 & Hs1 & Hperm1 & _).
  rewrite Hs1 in Hplan1.
  set (w1 := add_log (INFO, m1) w) in *.
  assert (Hmem1 : forall y, y ∈ zs1 <-> y ∈ ys /\ y <= Config.INITIAL_LOAD_YEAR).
  { intros y. rewrite Hperm1, list_elem_of_filter. tauto. }
  (* committing it *)
  destruct (mark_years_processed_on_ints t [] zs1 w1) as (ps2 & w2 & Hmark1 & Hl2 & _ & Hmem2).
  { exact (processed_list_nil _ _ Hempty). }
  assert (Hin2 : forall y, CInt y ∈ get_processed_years (state w2) t <-> y ∈ zs1).
  { intros y. rewrite (processed_ints_mem _ _ _ _ Hl2), Hmem2.
    split; [intros [H|H]; [inversion H|exact H]|auto]. }
  (* the incremental plan *)
  pose proof (get_years_to_process_else w2 t (map CInt ys) false (or_introl eq_refl))
    as Hplan2.
  cbv zeta in Hplan2. rewrite filter_unprocessed_ints in Hplan2.
  destruct (sorted_ints (filter (fun z => CInt z ∉ get_processed_years (state w2) t) ys))
    as (zs2 & Hs2 & Hperm2 & _).
  rewrite Hs2 in Hplan2.
  match type of Hplan2 with _ = (_, ?x) => set (w3 := x) in * end.
  assert (Hmem3 : forall y, y ∈ zs2 <-> y ∈ ys /\ Config.INITIAL_LOAD_YEAR < y).
  { intros y. rewrite Hperm2, list_elem_of_filter, Hin2, Hmem1.
    split; [intros [Hn Hy]; split; [exact Hy|]|intros [Hy Hgt]; split; [|exact Hy]].
    - destruct (Z.le_gt_cases y Config.INITIAL_LOAD_YEAR); [exfalso; auto|assumption].
    - intros [_ Hle]. lia. }
  (* committing it *)
  destruct (mark_years_processed_on_ints t ps2 zs2 w3) as (ps4 & w4 & Hmark2 & Hl4 & _ & Hmem4).
  { exact Hl2. }
  assert (Hin4 : forall y, CInt y ∈ get_processed_years (state w4) t <-> y ∈ ys).
  { intros y. rewrite (processed_ints_mem _ _ _ _ Hl4), Hmem4, Hmem2, Hmem1, Hmem3.
    split.
    - intros [[H|[H _]]|[H _]]; [inversion H|exact H|exact H].
    - intros Hy. destruct (Z.le_gt_cases y Config.INITIAL_LOAD_YEAR); [left; right|right]; auto. }
  exists zs1, w1, w2, zs2, w3, w4.
  split; [exact Hplan1|]. split; [exact Hmark1|]. split; [exact Hplan2|].
  split; [exact Hmark2|]. split; [exact Hmem1|]. split; [exact Hmem3|]. split; [|split].
  - apply NoDup_Permutation; [| exact Hnd |].
    + apply NoDup_app. split; [|split].
      * rewrite Hperm1. apply NoDup_filter, Hnd.
      * intros y H1 H3. apply Hmem1 in H1 as [_ Hle]. apply Hmem3 in H3 as [_ Hgt]. lia.
      * rewrite Hperm2. apply NoDup_filter, Hnd.
    + intros y. rewrite elem_of_app, Hmem1, Hmem3. split; [tauto|].
      intros Hy. destruct (Z.le_gt_cases y Config.INITIAL_LOAD_YEAR); auto.
  - apply set_eq. intros c. rewrite elem_of_list_to_set. split.
    + unfold get_processed_years. rewrite Hl4, elem_of_list_to_set.
      intros Hc. apply list_elem_of_fmap in Hc as (z & -> & Hz).
      apply elem_of_map_CInt. apply Hin4.
      apply (processed_ints_mem _ _ _ _ Hl4). exact Hz.
    + intros Hc. apply list_elem_of_fmap in Hc as (z & -> & Hz). apply Hin4. exact Hz.
  - assert (Hnone : filter (fun z => CInt z ∉ get_processed_years (state w4) t) ys = []).
    { apply filter_none. intros y Hy Hn. apply Hn, Hin4, Hy. }
    intros b.
    destruct (decide (b = false \/ get_processed_years (state w4) t <> ∅)) as [Hcase|Hcase].
    + rewrite (get_years_to_process_else w4 t (map CInt ys) b Hcase). cbv zeta.
      rewrite filter_unprocessed_ints, Hnone. reflexivity.
    + assert (Hb : b = true) by (destruct b; [reflexivity|exfalso; auto]).
      assert (He4 : get_processed_years (state w4) t = ∅).
      { destruct (decide (get_processed_years (state w4) t = ∅)); [assumption|exfalso; auto]. }
      subst b. destruct (get_years_to_process_then w4 t ys He4) as (m & ->).
      assert (Hys : ys = []).
      { destruct ys as [|y ys']; [reflexivity|]. exfalso.
        apply (not_elem_of_empty (C := gset cell) (CInt y)).
        rewrite <- He4. apply Hin4. left. }
      subst ys. reflexivity.
Qed.

Lemma bootstrap_then_incremental_covers_witness :
  exists zs1 w1 w2 zs2 w3 w4,
    get_years_to_process "results" (map CInt [2012; 2005; 2008]) true Examples.world_bronze
    = (Ok (map CInt zs1), w1)
    /\ mark_years_processed "results" (map CInt zs1) w1 = (Ok tt, w2)
    /\ get_years_to_process "results" (map CInt [2012; 2005; 2008]) false w2
       = (Ok (map CInt zs2), w3)
    /\ mark_years_processed "results" (map CInt zs2) w3 = (Ok tt, w4)
    /\ (forall y, y ∈ zs1 <-> y ∈ [2012; 2005; 2008] /\ y <= Config.INITIAL_LOAD_YEAR)
    /\ (forall y, y ∈ zs2 <-> y ∈ [2012; 2005; 2008] /\ Config.INITIAL_LOAD_YEAR < y)
    /\ zs1 ++ zs2 ≡ₚ [2012; 2005; 2008]
    /\ get_processed_years (state w4) "results"
       = list_to_set (map CInt [2012; 2005; 2008])
    /\ (forall b, (get_years_to_process "results" (map CInt [2012; 2005; 2008]) b w4).1
                  = Ok []).
Proof.
  apply (bootstrap_then_incremental_covers "results" [2012; 2005; 2008]
           Examples.world_bronze).
  - apply (bool_decide_unpack _). vm_compute. exact I.
  - reflexivity.
Defined.

End Bootstrap.

(** ** Appending without reconciliation *)

Section Merging.

Import IncrementalProcessor.

Lemma values_of_zip (c : string) (a b : DataFrame) :
  Frame.columns a = Frame.columns b ->
  values_of c (zip_with (fun x y => {| name := name x; values := values x ++ values y |}) a b)
  = values_of c a ++ values_of c b.
Proof.
  revert b. induction a as [|x a IH]; intros [|y b] Hcols; try discriminate.
  - reflexivity.
  - injection Hcols as Hxy Hcols. unfold values_of in *.
    cbn [zip_with Frame.find_column name]. rewrite <- Hxy.
    destruct (bool_decide (name x = c)); [reflexivity|].
    apply IH. exact Hcols.
Qed.

Lemma height_zip (a b : DataFrame) :
  Frame.columns a = Frame.columns b ->
  Frame.height (zip_with (fun x y => {| name := name x; values := values x ++ values y |}) a b)
  = (Frame.height a + Frame.height b)%nat.
Proof.
  destruct a as [|x a], b as [|y b]; try discriminate; intros _; [reflexivity|].
  cbn. apply length_app.
Qed.

Lemma columns_zip (a b : DataFrame) :
  Frame.columns a = Frame.columns b ->
  Frame.columns (zip_with (fun x y => {| name := name x; values := values x ++ values y |}) a b)
  = Frame.columns b.
Proof.
  revert b. induction a as [|x a IH]; intros [|y b] Hcols; try discriminate.
  - reflexivity.
  - injection Hcols as Hxy Hcols. cbn. rewrite Hxy. f_equal. apply IH. exact Hcols.
Qed.

(** X19.  Appending to a merged file whose column set is the one of the
    new frame: no reconciliation takes place.  With the columns in the
    same order the result stacks the existing rows and the new ones,
    column by column; in another order [pl.concat] raises. *)
Theorem merge_with_equal_column_sets
        (t : string) (df_existing df_transformed : DataFrame) (w : World) :
  silver w !! t = Some (Parquet df_existing) ->
  (list_to_set (Frame.columns df_existing) : gset string)
  = list_to_set (Frame.columns df_transformed) ->
  (Frame.columns df_existing = Frame.columns df_transformed ->
   exists df_final,
     merge_with_silver t false df_transformed w
     = (Ok (df_final, df_transformed),
        add_log (INFO, MsgAppending (Frame.height df_transformed)
                                    (Frame.height df_existing)) w)
     /\ Frame.columns df_final = Frame.columns df_transformed
     /\ Frame.height df_final
        = (Frame.height df_existing + Frame.height df_transformed)%nat
     /\ forall c, values_of c df_final
                  = values_of c df_existing ++ values_of c df_transformed)
  /\ (Frame.columns df_existing <> Frame.columns df_transformed ->
      merge_with_silver t false df_transformed w = (Raise ShapeError, w)).
Proof.
  intros Hsilver Hsets.
  assert (Hrun : merge_with_silver t false df_transformed w =
                 match Frame.concat df_existing df_transformed with
                 | Ok df_final =>
                     (Ok (df_final, df_transformed),
                      add_log (INFO, MsgAppending (Frame.height df_transformed)
                                                  (Frame.height df_existing)) w)
                 | Raise e => (Raise e, w)
                 end).
  { unfold merge_with_silver. rewrite run_gets_bind, Hsilver.
    rewrite bool_decide_eq_true_2 by eauto. cbn [andb negb].
    rewrite run_bind. unfold read_parquet at 1. rewrite Hsilver.
    rewrite run_bind. unfold align_schemas.
    rewrite bool_decide_eq_false_2 by (intros Hne; apply Hne; exact Hsets).
    unfold mret at 1, M_ret at 1. rewrite run_lift_bind.
    destruct (Frame.concat df_existing df_transformed); reflexivity. }
  rewrite Hrun. unfold Frame.concat. split; intros Hcols.
  - rewrite bool_decide_eq_true_2 by exact Hcols. eexists. split; [reflexivity|].
    split; [apply columns_zip, Hcols|]. split; [apply height_zip, Hcols|].
    intros c. apply values_of_zip, Hcols.
  - rewrite bool_decide_eq_false_2 by exact Hcols. reflexivity.
Qed.

Lemma merge_with_equal_column_sets_witness :
  (Frame.columns Examples.frame_ABD = Frame.columns Examples.frame_DBA ->
   exists df_final,
     merge_with_silver "results" false Examples.frame_DBA Examples.world_ABD
     = (Ok (df_final, Examples.frame_DBA),
        add_log (INFO, MsgAppending (Frame.height Examples.frame_DBA)
                                    (Frame.height Examples.frame_ABD))
                Examples.world_ABD)
     /\ Frame.columns df_final = Frame.columns Examples.frame_DBA
     /\ Frame.height df_final
        = (Frame.height Examples.frame_ABD + Frame.height Examples.frame_DBA)%nat
     /\ forall c, values_of c df_final
                  = values_of c Examples.frame_ABD ++ values_of c Examples.frame_DBA)
  /\ (Frame.columns Examples.frame_ABD <> Frame.columns Examples.frame_DBA ->
      merge_with_silver "results" false Examples.frame_DBA Examples.world_ABD
      = (Raise ShapeError, Examples.world_ABD)).
Proof.
  apply (merge_with_equal_column_sets "results" Examples.frame_ABD Examples.frame_DBA
           Examples.world_ABD).
  - reflexivity.
  - apply (bool_decide_unpack _). vm_compute. exact I.
Defined.

End Merging.

(** ** The command line and the scheduler task *)

Section EntryPoints.

Import IncrementalProcessor.

Lemma init_undecodable (w : World) (ts : list json_token) :
  state_file w = Some ts -> Json.decode ts = None ->
  init w = (Raise JSONDecodeError, w).
Proof.
  intros Hfile Hdec. unfold init. rewrite run_bind. unfold _load_state.
  rewrite Hfile, Hdec. reflexivity.
Qed.

(** X8.  A state file cut short, as a save that stopped half-way leaves
    it (the first [n] tokens of what the save of some state writes, the
    empty file included), stops [main], whatever the command ([reset]
    included), and the scheduler task: the constructor raises and nothing
    is changed. *)
Theorem undecodable_state_file_stops_entry_points
        (w : World) (st : gmap string TableState) (n : nat) (args : list string) :
  state_file w = Some (take n (Json.encode st)) ->
  (n < length (Json.encode st))%nat ->
  main args w = (Raise JSONDecodeError, w)
  /\ Dag.run_incremental_processing w = (Raise JSONDecodeError, w).
Proof.
  intros Hfile Hcut.
  pose proof (decode_proper_prefix _ st n (decode_encode st) Hcut) as Hdec.
  pose proof (init_undecodable w _ Hfile Hdec) as Hinit.
  split.
  - unfold main. rewrite run_bind, Hinit. reflexivity.
  - unfold Dag.run_incremental_processing. rewrite run_bind, Hinit. reflexivity.
Qed.

Lemma undecodable_state_file_stops_entry_points_witness :
  main ["reset"] Examples.world_cut_state_file
  = (Raise JSONDecodeError, Examples.world_cut_state_file)
  /\ Dag.run_incremental_processing Examples.world_cut_state_file
     = (Raise JSONDecodeError, Examples.world_cut_state_file).
Proof.
  apply (undecodable_state_file_stops_entry_points Examples.world_cut_state_file
           Examples.state_2005 0).
  - reflexivity.
  - vm_compute. lia.
Defined.

Lemma process_all_incremental_Ok (b : bool) (w : World) :
  exists outs w',
    process_all_incremental b w = (Ok outs, w')
    /\ map stats_table outs = Config.TABLES_WITH_YEAR.
Proof.
  destruct (process_all_incremental_run b w)
    as (outs & w0 & w1 & w' & Hrun & Htabs & _ & _).
  destruct (process_tables_total Config.TABLES_WITH_YEAR b w0)
    as (outs' & w1' & Htabs' & Hnames).
  rewrite Htabs in Htabs'. injection Htabs' as <- <-.
  exists outs, w'. split; assumption.
Qed.

(** The record the scheduler task builds from a summary. *)
Lemma dag_run_from (w wi w' : World) (outs : list stats) :
  init w = (Ok tt, wi) ->
  process_all_incremental (bool_decide (state wi = ∅)) wi = (Ok outs, w') ->
  exists r,
    Dag.run_incremental_processing w = (Ok r, w')
    /\ Dag.load_type r = (if bool_decide (state wi = ∅) then "initial" else "incremental")
    /\ Dag.total_tables r = length outs
    /\ Dag.successful r = length (with_status success outs)
    /\ (with_status success outs = [] -> Dag.total_rows r = 0%nat).
Proof.
  intros Hinit Hall. unfold Dag.run_incremental_processing.
  rewrite run_bind, Hinit, run_gets_bind.
  destruct (bool_decide (state wi = ∅)); rewrite run_bind, run_bind, Hall;
    (eexists; split; [reflexivity|]);
    (split; [reflexivity|]; split; [reflexivity|]; split; [reflexivity|]);
    cbn [Dag.total_rows]; intros ->; reflexivity.
Qed.

(** [main] without a command: the pass the state selects, one more clock
    read, and the export. *)
Lemma main_default_from (w wi w' : World) (outs : list stats) :
  init w = (Ok tt, wi) ->
  process_all_incremental (bool_decide (state wi = ∅)) wi = (Ok outs, w') ->
  main [] w = (rows ← export_summary outs; Ok (Some rows),
               set_ticks (S (ticks w')) w').
Proof.
  intros Hinit Hall. unfold main.
  rewrite run_bind, Hinit, run_bind, run_gets_bind.
  destruct (bool_decide (state wi = ∅)); rewrite run_bind, Hall;
    unfold mret at 1, M_ret at 1; rewrite run_bind;
    unfold datetime_now at 1; rewrite run_lift_bind;
    destruct (export_summary outs); reflexivity.
Qed.

Lemma elem_of_summary_columns (c : string) (outs : list stats) :
  c ∈ summary_columns outs <-> exists o, o ∈ outs /\ c ∈ stats_keys o.
Proof.
  unfold summary_columns. rewrite elem_of_remove_dups, list_elem_of_In, in_concat.
  split.
  - intros (keys & Hkeys & Hc). apply in_map_iff in Hkeys as (o & <- & Ho).
    exists o. split; apply list_elem_of_In; assumption.
  - intros (o & Ho & Hc). exists (stats_keys o). split.
    + apply in_map, list_elem_of_In, Ho.
    + apply list_elem_of_In, Hc.
Qed.

Lemma success_keys (o : stats) :
  "years_processed" ∈ stats_keys o <-> stats_status o = success.
Proof.
  destruct o; cbn [stats_keys stats_status]; split; intros H;
    try discriminate; try reflexivity;
    try (apply list_elem_of_In in H; cbn in H;
         repeat destruct H as [H|H]; try discriminate; contradiction).
  apply list_elem_of_In. cbn. repeat first [left; reflexivity | right].
Qed.

(** The export goes through exactly when some table succeeded. *)
Lemma export_summary_spec (outs : list stats) :
  outs <> [] ->
  (with_status success outs = [] ->
   export_summary outs = Raise (ColumnNotFoundError "years_processed"))
  /\ (with_status success outs <> [] -> export_summary outs = Ok outs).
Proof.
  intros Hne. unfold export_summary. destruct outs as [|o0 outs0]; [contradiction|].
  set (outs := o0 :: outs0) in *.
  assert (Hyears : "years_processed" ∈ summary_columns outs
                   <-> with_status success outs <> []).
  { rewrite elem_of_summary_columns. split.
    - intros (o & Ho & Hk) Hnone. apply success_keys in Hk.
      assert (Hin : o ∈ with_status success outs).
      { apply list_elem_of_filter. split; assumption. }
      rewrite Hnone in Hin. inversion Hin.
    - intros Hsome. destruct (with_status success outs) as [|o l] eqn:Hf; [contradiction|].
      assert (Hin : o ∈ with_status success outs) by (rewrite Hf; left).
      apply list_elem_of_filter in Hin as [Hs Hin].
      exists o. split; [exact Hin|]. apply success_keys, Hs. }
  assert (Hothers : with_status success outs <> [] ->
                    "rows_processed" ∈ summary_columns outs
                    /\ "total_rows" ∈ summary_columns outs).
  { intros Hsome. destruct (with_status success outs) as [|o l] eqn:Hf; [contradiction|].
    assert (Hin : o ∈ with_status success outs) by (rewrite Hf; left).
    apply list_elem_of_filter in Hin as [Hs Hin].
    destruct o; try discriminate.
    split; apply elem_of_summary_columns; eexists; (split; [exact Hin|]);
      apply list_elem_of_In; cbn; repeat first [left; reflexivity | right]. }
  cbn [list_find].
  split; intros Hcase.
  - destruct (decide ("years_processed" ∉ summary_columns outs)) as [_|Hin];
      [reflexivity|].
    exfalso. apply Hin. intros Hy. apply Hyears in Hy. contradiction.
  - destruct (Hothers Hcase) as [Hrows Htotal].
    apply Hyears in Hcase.
    destruct (decide ("years_processed" ∉ summary_columns outs)); [contradiction|].
    destruct (decide ("rows_processed" ∉ summary_columns outs)); [contradiction|].
    destruct (decide ("total_rows" ∉ summary_columns outs)); [contradiction|].
    reflexivity.
Qed.

Lemma run_initial_from (w wi w' : World) (outs : list stats) :
  init w = (Ok tt, wi) ->
  process_all_incremental true wi = (Ok outs, w') ->
  run_initial w = (Ok outs, w').
Proof.
  intros Hinit Hall. unfold run_initial. rewrite run_bind, Hinit. exact Hall.
Qed.

(** X17.  The [reset] command saves the empty state and leaves both
    stores alone.  On the state file it leaves, the scheduler task reports
    an initial load, and [main] without a command runs the initial load
    and then exports its summary. *)
Theorem reset_command_restarts_bootstrap (w : World) (st : gmap string TableState) :
  (_load_state w).1 = Ok st ->
  exists w1,
    main ["reset"] w = (Ok None, w1)
    /\ state_file w1 = Some (Json.encode ∅)
    /\ silver w1 = silver w
    /\ bronze w1 = bronze w
    /\ forall w2,
        state_file w2 = state_file w1 ->
        (exists outs w3,
            run_initial w2 = (Ok outs, w3)
            /\ main [] w2 = (rows ← export_summary outs; Ok (Some rows),
                             set_ticks (S (ticks w3)) w3))
        /\ (exists r w3,
               Dag.run_incremental_processing w2 = (Ok r, w3)
               /\ Dag.load_type r = "initial").
Proof.
  intros Hload. destruct (init_run w st Hload) as (wi & Hinit & _ & _ & Hb & Hv & _).
  eexists. split; [|split; [|split; [|split]]].
  - unfold main. rewrite run_bind, Hinit.
    rewrite bool_decide_eq_false_2 by discriminate.
    rewrite bool_decide_eq_false_2 by discriminate.
    rewrite bool_decide_eq_true_2 by reflexivity.
    rewrite !run_bind, (reset_state_all_run None wi (or_introl eq_refl)). reflexivity.
  - reflexivity.
  - exact Hv.
  - exact Hb.
  - intros w2 Hfile. cbn [state_file add_log set_state_file] in Hfile.
    destruct (init_run w2 ∅) as (wi2 & Hinit2 & Hst2 & _).
    { rewrite (load_saved_state w2 ∅ Hfile). reflexivity. }
    destruct (process_all_incremental_Ok true wi2) as (outs & w3 & Hall & _).
    assert (Hall' : process_all_incremental (bool_decide (state wi2 = ∅)) wi2
                    = (Ok outs, w3)).
    { rewrite bool_decide_eq_true_2 by exact Hst2. exact Hall. }
    split.
    + exists outs, w3. split.
      * exact (run_initial_from w2 wi2 w3 outs Hinit2 Hall).
      * exact (main_default_from w2 wi2 w3 outs Hinit2 Hall').
    + destruct (dag_run_from w2 wi2 w3 outs Hinit2 Hall') as (r & Hrun & Hty & _).
      exists r, w3. split; [exact Hrun|].
      rewrite Hty, bool_decide_eq_true_2 by exact Hst2. reflexivity.
Qed.

Lemma reset_command_restarts_bootstrap_witness :
  exists w1,
    main ["reset"] Examples.world_merged_2005 = (Ok None, w1)
    /\ state_file w1 = Some (Json.encode ∅)
    /\ silver w1 = silver Examples.world_merged_2005
    /\ bronze w1 = bronze Examples.world_merged_2005
    /\ forall w2,
        state_file w2 = state_file w1 ->
        (exists outs w3,
            run_initial w2 = (Ok outs, w3)
            /\ main [] w2 = (rows ← export_summary outs; Ok (Some rows),
                             set_ticks (S (ticks w3)) w3))
        /\ (exists r w3,
               Dag.run_incremental_processing w2 = (Ok r, w3)
               /\ Dag.load_type r = "initial").
Proof.
  apply (reset_command_restarts_bootstrap Examples.world_merged_2005 Examples.state_2005).
  vm_compute. reflexivity.
Defined.

Lemma dag_run_inv (w w' : World) (r : Dag.incremental_result) :
  Dag.run_incremental_processing w = (Ok r, w') ->
  exists wi outs,
    init w = (Ok tt, wi)
    /\ process_all_incremental (bool_decide (state wi = ∅)) wi = (Ok outs, w')
    /\ map stats_table outs = Config.TABLES_WITH_YEAR
    /\ Dag.load_type r = (if bool_decide (state wi = ∅) then "initial" else "incremental")
    /\ Dag.total_tables r = length outs
    /\ Dag.successful r = length (with_status success outs)
    /\ (with_status success outs = [] -> Dag.total_rows r = 0%nat).
Proof.
  intros Hrun.
  destruct (init w) as [[[]|e] wi] eqn:Hinit.
  2:{ unfold Dag.run_incremental_processing in Hrun.
      rewrite run_bind, Hinit in Hrun. discriminate. }
  destruct (process_all_incremental_Ok (bool_decide (state wi = ∅)) wi)
    as (outs & w'' & Hall & Hnames).
  destruct (dag_run_from w wi w'' outs Hinit Hall) as (r' & Hrun' & Hfields).
  rewrite Hrun in Hrun'. injection Hrun' as <- <-.
  exists wi, outs. split; [reflexivity|]. split; [exact Hall|]. split; [exact Hnames|].
  exact Hfields.
Qed.




(** X20.  The dictionary the scheduler task returns: the load type is
    [initial] exactly when the loaded state is empty, there are nine
    tables and at most nine successes, and without a success no rows are
    counted.  The bronze store is never changed. *)
Theorem scheduler_task_result (w w' : World) (r : Dag.incremental_result) :
  Dag.run_incremental_processing w = (Ok r, w') ->
  exists st,
    (_load_state w).1 = Ok st
    /\ Dag.load_type r = (if bool_decide (st = ∅) then "initial" else "incremental")
    /\ Dag.total_tables r = 9%nat
    /\ (Dag.successful r <= 9)%nat
    /\ (Dag.successful r = 0%nat -> Dag.total_rows r = 0%nat)
    /\ bronze w' = bronze w.
Proof.
  intros Hrun.
  apply dag_run_inv in Hrun
    as (wi & outs & Hinit & Hall & Hnames & Hty & Htot & Hsucc & Hrows).
  apply init_Ok_inv in Hinit as (st & Hload & Hst & _ & Hb & _ & Hf).
  assert (Hlen : length outs = 9%nat).
  { rewrite <- (length_map stats_table), Hnames. reflexivity. }
  destruct (pass_facts (bool_decide (state wi = ∅)) wi outs w' Hall)
    as (Hbr & _).
  exists st. split; [exact Hload|]. split; [rewrite Hty, Hst; reflexivity|].
  split; [congruence|]. split.
  { rewrite Hsucc, <- Hlen. unfold with_status. apply length_filter. }
  split; [|congruence].
  intros Hzero. rewrite Hsucc in Hzero. apply nil_length_inv in Hzero.
  exact (Hrows Hzero).
Qed.

Lemma scheduler_task_result_witness :
  let w' := (Dag.run_incremental_processing Examples.world_no_races).2 in
  exists st,
    (_load_state Examples.world_no_races).1 = Ok st
    /\ "initial" = (if bool_decide (st = ∅) then "initial" else "incremental")
    /\ 9%nat = 9%nat
    /\ (0 <= 9)%nat
    /\ (0%nat = 0%nat -> 0%nat = 0%nat)
    /\ bronze w' = bronze Examples.world_no_races.
Proof.
  cbv zeta.
  apply (scheduler_task_result Examples.world_no_races _
           {| Dag.load_type := "initial"; Dag.total_tables := 9;
              Dag.successful := 0; Dag.total_rows := 0 |}).
  vm_compute. reflexivity.
Defined.

(** X21.  [main] without a command, on a state file that loads, runs
    the pass the loaded state selects and then the export.  The export
    reads columns that only a success puts into the summary: when no
    table succeeded, as in a run that finds everything up to date, [main]
    raises a [ColumnNotFoundError], after the pass has been run;
    otherwise it exports the nine outcomes. *)
Theorem main_export_needs_a_success (w : World) (st : gmap string TableState) :
  (_load_state w).1 = Ok st ->
  exists outs w',
    (if bool_decide (st = ∅) then run_initial else run_incremental) w = (Ok outs, w')
    /\ map stats_table outs = Config.TABLES_WITH_YEAR
    /\ (main [] w).2 = set_ticks (S (ticks w')) w'
    /\ (with_status success outs = [] ->
        exists c, (main [] w).1 = Raise (ColumnNotFoundError c))
    /\ (with_status success outs <> [] -> (main [] w).1 = Ok (Some outs)).
Proof.
  intros Hload. destruct (init_run w st Hload) as (wi & Hinit & Hst & _).
  destruct (process_all_incremental_Ok (bool_decide (state wi = ∅)) wi)
    as (outs & w' & Hall & Hnames).
  rewrite (main_default_from w wi w' outs Hinit Hall).
  assert (Hne : outs <> []).
  { intros ->. discriminate. }
  destruct (export_summary_spec outs Hne) as [Hnone Hsome].
  exists outs, w'. split; [|split; [exact Hnames|split; [reflexivity|split]]].
  - rewrite <- Hst.
    destruct (bool_decide (state wi = ∅)); [unfold run_initial|unfold run_incremental];
      rewrite run_bind, Hinit; exact Hall.
  - intros H. cbn [fst]. rewrite (Hnone H). eexists. reflexivity.
  - intros H. cbn [fst]. rewrite (Hsome H). reflexivity.
Qed.

Lemma main_export_needs_a_success_witness :
  let w := Examples.world_after_first_run in
  exists outs w',
    (if bool_decide (state Examples.world_after_first_run = ∅)
     then run_initial else run_incremental) w = (Ok outs, w')
    /\ map stats_table outs = Config.TABLES_WITH_YEAR
    /\ (main [] w).2 = set_ticks (S (ticks w')) w'
    /\ (with_status success outs = [] ->
        exists c, (main [] w).1 = Raise (ColumnNotFoundError c))
    /\ (with_status success outs <> [] -> (main [] w).1 = Ok (Some outs)).
Proof.
  cbv zeta.
  apply (main_export_needs_a_success Examples.world_after_first_run
           (state Examples.world_after_first_run)).
  vm_compute. reflexivity.
Defined.

End EntryPoints.
